(** * ReleaseDrop: library reconciliation (Plex and Jellyfin services)

    A shallow embedding of
      - [backend/app/services/plex_service.py]     ([PlexService])
      - [backend/app/services/jellyfin_service.py] ([JellyfinService])
      - [backend/app/services/spotify_service.py]  ([get_album_tracks])
      - [backend/app/routes/integrations.py]       (the library routes)
    together with the part of Python's [difflib.SequenceMatcher] that
    [_similarity_ratio] calls.

    Conventions of the embedding.
      - A Python [str] is a [string], one [ascii] per code point; the
        text is restricted to the code points below 256 (Latin-1).  On
        these [str.lower] works character by character: it maps [A-Z]
        and the capital letters U+00C0 to U+00DE, the multiplication
        sign U+00D7 excepted, to the code point 32 above, and leaves
        every other code point as it is.
      - A Python [float] produced by [ratio()] is the exact fraction
        [2*M / T] in [Q].  The comparisons the services perform
        ([>], [>=] against 0.8, 0.85, 0.9, and between two ratios) agree
        with the comparisons of the exact fractions as long as [T] stays
        far below 2^26 characters.
      - HTTP exchanges are answers of a server snapshot, the same
        throughout one call; an answer is a decoded payload or a raised
        exception.  The provider methods contain the [try/except] blocks
        of the source.
      - A JSON object is a record whose fields hold what the source reads
        with [obj[key]], [obj.get(key)] or [obj.get(key, "")]; such
        objects are not empty, hence true in a condition.
      - The Python set of library track names is a [gset]; the source
        iterates over it in an unspecified order and only records whether
        some element passes a test.
      - The table [releases] is the list of its rows, in the SQLite
        database of the default configuration.  Payloads are well typed
        and the services can be built, so that inside the [try] block
        of a route only [release.artist.name] (no artist) and
        [db.commit()] may raise. *)

From Stdlib Require Import QArith Ascii String.
From stdpp Require Import gmap strings list fin_maps sorting.

#[local] Set Warnings "-clear-no-such-hyp".

Local Open Scope nat_scope.

(** ** Python's [difflib.SequenceMatcher] *)

Module Difflib.

(** [Match(a, b, size)] *)
Record Match := mkMatch { m_a : nat; m_b : nat; m_size : nat }.

Section SequenceMatcher.
Context `{Countable A}.

(** [for i, elt in enumerate(b): b2j.setdefault(elt, []).append(i)] *)
Definition chain_step (b2j : gmap A (list nat)) (ie : nat * A) : gmap A (list nat) :=
  <[ ie.2 := default [] (b2j !! ie.2) ++ [ie.1] ]> b2j.

Definition enumerate (b : list A) : list (nat * A) := zip (seq 0 (length b)) b.

Definition b2j_all (b : list A) : gmap A (list nat) :=
  foldl chain_step ∅ (enumerate b).

(** [__chain_b] with [isjunk = None] and [autojunk = True]: elements that
    occur more than [n // 100 + 1] times in a [b] of length at least 200
    are purged from [b2j]. *)
Definition chain_b (b : list A) : gmap A (list nat) :=
  let n := length b in
  if 200 <=? n
  then filter (λ kv : A * list nat, length kv.2 ≤ n `div` 100 + 1) (b2j_all b)
  else b2j_all b.

Variables (a b : list A).
Variable b2j : gmap A (list nat).
Variable bjunk : gset A.

Definition isbjunk (x : A) : bool := bool_decide (x ∈ bjunk).

(** [a[i] == b[j]] for indices in range *)
Definition same_elt (i j : nat) : bool :=
  match a !! i, b !! j with
  | Some x, Some y => bool_decide (x = y)
  | _, _ => false
  end.

(** [isbjunk(b[j])] *)
Definition junk_at (j : nat) : bool :=
  match b !! j with Some y => isbjunk y | None => false end.

(** [j2len.get(j-1, 0)]; the key [-1] is never present. *)
Definition j2lenget (j2len : gmap nat nat) (j : nat) : nat :=
  match j with
  | 0 => 0
  | S j' => default 0 (j2len !! j')
  end.

(** The inner loop [for j in b2j.get(a[i], nothing)]. *)
Fixpoint scan_row (i blo bhi : nat) (j2len : gmap nat nat) (js : list nat)
    (newj2len : gmap nat nat) (best : Match) : gmap nat nat * Match :=
  match js with
  | [] => (newj2len, best)
  | j :: js' =>
      if j <? blo then scan_row i blo bhi j2len js' newj2len best
      else if bhi <=? j then (newj2len, best)
      else
        let k := j2lenget j2len j + 1 in
        scan_row i blo bhi j2len js' (<[j := k]> newj2len)
          (if m_size best <? k then mkMatch (i + 1 - k) (j + 1 - k) k else best)
  end.

(** The outer loop [for i in range(alo, ahi)]. *)
Fixpoint scan_rows (blo bhi : nat) (rows : list nat)
    (j2len : gmap nat nat) (best : Match) : Match :=
  match rows with
  | [] => best
  | i :: rows' =>
      let js := match a !! i with
                | Some x => default [] (b2j !! x)
                | None => []
                end in
      let r := scan_row i blo bhi j2len js ∅ best in
      scan_rows blo bhi rows' r.1 r.2
  end.

(** [while besti > alo and bestj > blo and (isbjunk(b[bestj-1]) is junk)
    and a[besti-1] == b[bestj-1]]; the recursion follows [besti]. *)
Fixpoint extend_back (junk : bool) (alo blo : nat)
    (besti bestj bestsize : nat) : Match :=
  match besti with
  | 0 => mkMatch besti bestj bestsize
  | S i' =>
      if (alo <? besti) && (blo <? bestj)
         && eqb (junk_at (bestj - 1)) junk && same_elt i' (bestj - 1)
      then extend_back junk alo blo i' (bestj - 1) (bestsize + 1)
      else mkMatch besti bestj bestsize
  end.

(** [while besti+bestsize < ahi and bestj+bestsize < bhi and ...];
    [room] is [ahi - (besti+bestsize)], the loop's variant. *)
Fixpoint extend_fwd (junk : bool) (bhi : nat) (besti bestj : nat)
    (room : nat) (bestsize : nat) : nat :=
  match room with
  | 0 => bestsize
  | S room' =>
      if (bestj + bestsize <? bhi)
         && eqb (junk_at (bestj + bestsize)) junk
         && same_elt (besti + bestsize) (bestj + bestsize)
      then extend_fwd junk bhi besti bestj room' (bestsize + 1)
      else bestsize
  end.

Definition extend (junk : bool) (alo ahi blo bhi : nat) (m : Match) : Match :=
  let m1 := extend_back junk alo blo (m_a m) (m_b m) (m_size m) in
  mkMatch (m_a m1) (m_b m1)
    (extend_fwd junk bhi (m_a m1) (m_b m1)
       (ahi - (m_a m1 + m_size m1)) (m_size m1)).

Definition find_longest_match (alo ahi blo bhi : nat) : Match :=
  let best := scan_rows blo bhi (seq alo (ahi - alo)) ∅ (mkMatch alo blo 0) in
  extend true alo ahi blo bhi (extend false alo ahi blo bhi best).

(** The work list of [get_matching_blocks].  The Python list [queue] is
    used as a stack; its end is the head of the list here. *)
Definition push_if (c : bool) (r : nat * nat * nat * nat)
    (queue : list (nat * nat * nat * nat)) :=
  if c then r :: queue else queue.

Fixpoint match_loop (fuel : nat) (queue : list (nat * nat * nat * nat))
    (matching_blocks : list Match) : option (list Match) :=
  match queue with
  | [] => Some matching_blocks
  | (alo, ahi, blo, bhi) :: queue' =>
      match fuel with
      | 0 => None
      | S fuel' =>
          let x := find_longest_match alo ahi blo bhi in
          let '(i, j, k) := (m_a x, m_b x, m_size x) in
          if k =? 0 then match_loop fuel' queue' matching_blocks
          else
            let q1 := push_if ((alo <? i) && (blo <? j)) (alo, i, blo, j) queue' in
            let q2 := push_if ((i + k <? ahi) && (j + k <? bhi)) (i + k, ahi, j + k, bhi) q1 in
            match_loop fuel' q2 (matching_blocks ++ [x])
      end
  end.
End SequenceMatcher.

(** Tuple order of [Match] triples, as used by [matching_blocks.sort()]. *)
Definition match_le (x y : Match) : Prop :=
  m_a x < m_a y ∨ (m_a x = m_a y ∧
    (m_b x < m_b y ∨ (m_b x = m_b y ∧ m_size x ≤ m_size y))).

#[global] Instance match_le_dec : RelDecision match_le.
Proof. intros x y. unfold match_le. apply _. Defined.

(** The loop that collapses adjacent blocks; the state is
    [(i1, j1, k1)] and [non_adjacent]. *)
Definition collapse_step (st : Match * list Match) (x : Match) : Match * list Match :=
  let '(cur, non_adjacent) := st in
  if (m_a cur + m_size cur =? m_a x) && (m_b cur + m_size cur =? m_b x)
  then (mkMatch (m_a cur) (m_b cur) (m_size cur + m_size x), non_adjacent)
  else (x, if m_size cur =? 0 then non_adjacent else non_adjacent ++ [cur]).

Definition collapse (la lb : nat) (blocks : list Match) : list Match :=
  let '(cur, non_adjacent) := foldl collapse_step (mkMatch 0 0 0, []) blocks in
  (if m_size cur =? 0 then non_adjacent else non_adjacent ++ [cur])
    ++ [mkMatch la lb 0].

Section Ratio.
Context `{Countable A}.

Definition raw_blocks (a b : list A) : option (list Match) :=
  match_loop a b (chain_b b) ∅ (2 * length a + 1)
    [(0, length a, 0, length b)] [].

Definition get_matching_blocks (a b : list A) : list Match :=
  collapse (length a) (length b)
    (merge_sort match_le (default [] (raw_blocks a b))).

(** [_calculate_ratio]: [2.0 * matches / length], or [1.0] when
    [length] is zero. *)
Definition _calculate_ratio (matches length : nat) : Q :=
  if length =? 0 then 1%Q
  else Qmake (2 * Z.of_nat matches) (Pos.of_nat length).

Definition ratio (a b : list A) : Q :=
  let matches := sum_list_with m_size (get_matching_blocks a b) in
  _calculate_ratio matches (length a + length b).
End Ratio.

End Difflib.

(** ** Strings and the similarity ratio *)

(** [str.lower] on one code point below 256: the capital letters are
    [A-Z] (65 to 90) and U+00C0 to U+00DE (192 to 222) without the
    multiplication sign U+00D7 (215); the small letter is 32 above. *)
Definition is_upper (n : nat) : bool :=
  ((65 <=? n) && (n <=? 90))
  || ((192 <=? n) && (n <=? 222) && negb (n =? 215)).

Definition lower_char (c : ascii) : ascii :=
  let n := nat_of_ascii c in
  if is_upper n then ascii_of_nat (n + 32) else c.

Fixpoint lower (s : string) : string :=
  match s with
  | EmptyString => EmptyString
  | String c s' => String (lower_char c) (lower s')
  end.

(** [_similarity_ratio]
    ([plex_service.py] lines 23-25, [jellyfin_service.py] lines 22-24):
    [SequenceMatcher(None, str1.lower(), str2.lower()).ratio()] *)
Definition _similarity_ratio (str1 str2 : string) : Q :=
  Difflib.ratio (list_ascii_of_string (lower str1))
                (list_ascii_of_string (lower str2)).

(** Comparisons of ratios. *)
Definition Qlt_bool (x y : Q) : bool := negb (Qle_bool y x).
Definition Qge_bool (x y : Q) : bool := Qle_bool y x.

(** ** Data shared by the two services *)

(** An HTTP exchange inside a [try] block: the decoded payload, or any
    exception ([raise_for_status], transport failure, timeout). *)
Inductive response (A : Type) : Type :=
  | Ok (payload : A)
  | Raised.
Arguments Ok {A} payload.
Arguments Raised {A}.

(** A track dictionary built by [SpotifyService.get_album_tracks]. *)
Record SpotifyTrack := {
  name : string;
  track_number : nat;
  duration_ms : nat
}.

Inductive MatchType := exact | similar | none.

#[global] Instance MatchType_eq_dec : EqDecision MatchType.
Proof. solve_decision. Defined.

(** The dictionary returned by [check_album_in_library];
    [library_album_id] is [plex_album_id] or [jellyfin_album_id], and
    [library_album_name] ([plex_album_name], [jellyfin_album_name]) is
    present only when an album was matched. *)
Record Result := {
  in_library : bool;
  match_type : MatchType;
  match_confidence : Q;
  available_tracks : list string;
  missing_tracks : list string;
  library_album_id : option string;
  library_album_name : option string
}.

(** The dictionary both services return when nothing matched. *)
Definition not_found (confidence : Q) (spotify_tracks : list SpotifyTrack) : Result :=
  {| in_library := false;
     match_type := none;
     match_confidence := confidence;
     available_tracks := [];
     missing_tracks := name <$> spotify_tracks;
     library_album_id := None;
     library_album_name := None |}.

(** The similarity scan
    [[
      best_match = None; best_ratio = 0.0
      for x in xs:
          ratio = self._similarity_ratio(title(x), target)
          if ratio > best_ratio: best_ratio = ratio; best_match = x
    ]]
    ([plex_service.py] lines 93-99 and 292-300,
     [jellyfin_service.py] lines 197-206). *)
Definition similarity_step {X} (title : X → string) (target : string)
    (st : option X * Q) (x : X) : option X * Q :=
  let ratio := _similarity_ratio (title x) target in
  if Qlt_bool st.2 ratio then (Some x, ratio) else st.

Definition similarity_scan {X} (title : X → string) (target : string)
    (xs : list X) : option X * Q :=
  foldl (similarity_step title target) (None, 0%Q) xs.

(** The track comparison
    ([plex_service.py] lines 319-336, [jellyfin_service.py] lines 232-249);
    [library_track_names] is the set of lower-cased library titles.  The
    inner [for ... break] runs over the set in an unspecified order and
    only records whether some element passes the test. *)
Definition track_available (library_track_names : gset string)
    (track_name : string) : bool :=
  if bool_decide (lower track_name ∈ library_track_names) then true
  else existsb (λ library_track_name,
                  Qge_bool (_similarity_ratio track_name library_track_name) 0.9)
               (elements library_track_names).

Definition compare_step (library_track_names : gset string)
    (st : list string * list string) (spotify_track : SpotifyTrack)
    : list string * list string :=
  let track_name := name spotify_track in
  if track_available library_track_names track_name
  then (st.1 ++ [track_name], st.2)
  else (st.1, st.2 ++ [track_name]).

Definition compare_tracks (library_track_names : gset string)
    (spotify_tracks : list SpotifyTrack) : list string * list string :=
  foldl (compare_step library_track_names) ([], []) spotify_tracks.

(** ** [PlexService] *)

Module Plex.

(** Entries of the JSON payloads.  A field holds what the source reads
    with [.get(field, "")] or [.get(field)].  The keys that go into a
    URL ([key] of a section and of an album) hold the text the f-string
    puts there.  The result passes on [album.get("ratingKey")] and
    [album.get("title")], which are [None] when the album lacks the
    key: these are [album_ratingKey] and [album_get_title]. *)
Record Directory := { dir_type : string; dir_key : string; dir_title : string }.
Record Library := { key : string; title : string }.
Record Artist := { artist_title : string }.
Record Album := {
  album_get_title : option string;
  album_parentTitle : string;
  album_key : string;
  album_ratingKey : option string
}.

(** [album.get("title", "")] *)
Definition album_title (album : Album) : string :=
  default "" (album_get_title album).
Record Track := { track_title : string }.

(** What the server answers during one call. *)
Record Server := {
  sections : response (list Directory);
  section_artists : string → response (list Artist);
  section_albums : string → response (list Album);
  metadata_children : string → response (list Track)
}.

Record PlexService := {
  base_url : string;
  token : string;
  server : Server
}.

(** [not self.base_url or not self.token] *)
Definition unconfigured (self : PlexService) : bool :=
  bool_decide (base_url self = "") || bool_decide (token self = "").

(** lines 27-59 *)
Definition get_music_libraries (self : PlexService) : list Library :=
  if unconfigured self then []
  else match sections (server self) with
       | Ok directory =>
           (λ section, {| key := dir_key section; title := dir_title section |})
             <$> filter (λ section, dir_type section = "artist") directory
       | Raised => []
       end.

(** lines 61-108 *)
Definition search_artist_in_library (self : PlexService)
    (library_key artist_name : string) : option Artist :=
  if unconfigured self then None
  else match section_artists (server self) library_key with
       | Ok artists =>
           match filter (λ artist, lower (artist_title artist) = lower artist_name)
                   artists with
           | artist :: _ => Some artist
           | [] =>
               let '(best_match, best_ratio) :=
                 similarity_scan artist_title artist_name artists in
               if Qge_bool best_ratio 0.85 then best_match else None
           end
       | Raised => None
       end.

(** lines 110-158 *)
Definition get_artist_albums (self : PlexService)
    (library_key artist_name : string) : list Album :=
  if unconfigured self then []
  else match section_albums (server self) library_key with
       | Ok all_albums =>
           filter (λ album,
                     let album_artist := lower (album_parentTitle album) in
                     album_artist = lower artist_name
                     ∨ Qge_bool (_similarity_ratio album_artist artist_name) 0.85 = true)
                  all_albums
       | Raised => []
       end.

(** lines 160-187 *)
Definition get_album_tracks (self : PlexService) (album_key : string) : list Track :=
  if unconfigured self then []
  else match metadata_children (server self) album_key with
       | Ok tracks => tracks
       | Raised => []
       end.

(** lines 272-286: among albums with the same name, the one whose
    fetched track count is nearest to Spotify's.  The state is
    [(best_album, best_track_diff)], [None] standing for
    [(None, float('inf'))]. *)
Definition track_diff_step (self : PlexService) (spotify_track_count : nat)
    (st : option (Album * Z)) (album : Album) : option (Album * Z) :=
  let album_tracks := get_album_tracks self (album_key album) in
  let album_track_count := length album_tracks in
  let track_diff := Z.abs (Z.of_nat album_track_count - Z.of_nat spotify_track_count) in
  match st with
  | None => Some (album, track_diff)
  | Some (best_album, best_track_diff) =>
      if (track_diff <? best_track_diff)%Z then Some (album, track_diff) else st
  end.

Definition closest_by_track_count (self : PlexService) (spotify_track_count : nat)
    (exact_matches : list Album) : option Album :=
  fst <$> foldl (track_diff_step self spotify_track_count) None exact_matches.

(** lines 255-304: the album chosen in one library.  The result is
    [(matched_album, exact_matches, best_ratio)]; [best_ratio] is [None]
    when the similarity scan did not run. *)
Definition match_album (self : PlexService) (album_name : string)
    (spotify_tracks : list SpotifyTrack) (albums : list Album)
    : option Album * list Album * option Q :=
  let exact_matches :=
    filter (λ album, lower (album_title album) = lower album_name) albums in
  let matched_album :=
    match exact_matches with
    | [] => None
    | [album] => Some album
    | _ => closest_by_track_count self (length spotify_tracks) exact_matches
    end in
  match matched_album with
  | Some album => (Some album, exact_matches, None)
  | None =>
      let similarity_threshold := 0.80%Q in
      let '(best_match, best_ratio) :=
        similarity_scan album_title album_name albums in
      if Qge_bool best_ratio similarity_threshold
      then (best_match, exact_matches, Some best_ratio)
      else (None, exact_matches, Some best_ratio)
  end.

(** lines 311-336: the tracks of the matched album against Spotify's;
    the result is [(available_tracks, missing_tracks)]. *)
Definition reconcile_tracks (plex_tracks : list Track)
    (spotify_tracks : list SpotifyTrack) : list string * list string :=
  let plex_track_names : gset string :=
    list_to_set ((λ track, lower (track_title track)) <$> plex_tracks) in
  compare_tracks plex_track_names spotify_tracks.

(** lines 232-354: the body of [for library in music_libraries];
    [None] is [continue], [Some r] is [return r]. *)
Definition check_library (self : PlexService) (album_name artist_name : string)
    (spotify_tracks : list SpotifyTrack) (library : Library) : option Result :=
  match search_artist_in_library self (key library) artist_name with
  | None => None
  | Some artist =>
      match get_artist_albums self (key library) artist_name with
      | [] => None
      | albums =>
          let '(matched_album, exact_matches, best_ratio) :=
            match_album self album_name spotify_tracks albums in
          match matched_album with
          | None => None
          | Some matched_album =>
              let plex_tracks := get_album_tracks self (album_key matched_album) in
              let '(available_tracks, missing_tracks) :=
                reconcile_tracks plex_tracks spotify_tracks in
              let is_exact_match := 0 <? length exact_matches in
              let match_confidence :=
                if is_exact_match then 1%Q
                else match best_ratio with Some r => r | None => 1%Q end in
              Some {| in_library := true;
                      match_type := if is_exact_match then exact else similar;
                      match_confidence := match_confidence;
                      available_tracks := available_tracks;
                      missing_tracks := missing_tracks;
                      library_album_id := album_ratingKey matched_album;
                      library_album_name := album_get_title matched_album |}
          end
      end
  end.

Fixpoint search_libraries (self : PlexService) (album_name artist_name : string)
    (spotify_tracks : list SpotifyTrack) (music_libraries : list Library)
    : option Result :=
  match music_libraries with
  | [] => None
  | library :: rest =>
      match check_library self album_name artist_name spotify_tracks library with
      | Some r => Some r
      | None => search_libraries self album_name artist_name spotify_tracks rest
      end
  end.

(** lines 189-365 *)
Definition check_album_in_library (self : PlexService)
    (album_name artist_name : string) (spotify_tracks : list SpotifyTrack) : Result :=
  match get_music_libraries self with
  | [] => not_found 0 spotify_tracks
  | music_libraries =>
      match search_libraries self album_name artist_name spotify_tracks
              music_libraries with
      | Some r => r
      | None => not_found 0 spotify_tracks
      end
  end.

End Plex.

(** ** [JellyfinService] *)

Module Jellyfin.

Record User := { user_Id : string }.
Record Item := { Id : string; Name : string }.

(** What the server answers during one call: [/Users], the artist
    search and the album listing of [/Users/{user_id}/Items], and the
    children of an album. *)
Record Server := {
  users : response (list User);
  search_artists : string → string → response (list Item);
  artist_albums : string → string → response (list Item);
  album_children : string → string → response (list Item)
}.

Record JellyfinService := {
  base_url : string;
  api_key : string;
  server : Server
}.

Definition unconfigured (self : JellyfinService) : bool :=
  bool_decide (base_url self = "") || bool_decide (api_key self = "").

(** lines 26-99 *)
Definition get_artist_items (self : JellyfinService) (artist_name : string) : list Item :=
  if unconfigured self then []
  else match users (server self) with
       | Raised => []
       | Ok [] => []
       | Ok (user :: _) =>
           let user_id := user_Id user in
           match search_artists (server self) user_id artist_name with
           | Raised => []
           | Ok [] => []
           | Ok (artist :: _) =>
               match artist_albums (server self) user_id (Id artist) with
               | Raised => []
               | Ok items => items
               end
           end
       end.

(** lines 101-145 *)
Definition get_album_tracks (self : JellyfinService) (album_id : string) : list Item :=
  if unconfigured self then []
  else match users (server self) with
       | Raised => []
       | Ok [] => []
       | Ok (user :: _) =>
           match album_children (server self) (user_Id user) album_id with
           | Raised => []
           | Ok items => items
           end
       end.

(** lines 189-209: [(exact_match, best_match, best_ratio)] *)
Definition match_album (album_name : string) (jellyfin_albums : list Item)
    : option Item * option Item * Q :=
  let exact_match :=
    head (filter (λ jf_album, lower (Name jf_album) = lower album_name)
            jellyfin_albums) in
  match exact_match with
  | Some _ => (exact_match, None, 0%Q)
  | None =>
      let '(best_match, best_ratio) :=
        similarity_scan Name album_name jellyfin_albums in
      (None, best_match, best_ratio)
  end.

(** lines 228-249: the tracks of the matched album against Spotify's;
    the result is [(available_tracks, missing_tracks)]. *)
Definition reconcile_tracks (jf_tracks : list Item)
    (spotify_tracks : list SpotifyTrack) : list string * list string :=
  let jf_track_names : gset string :=
    list_to_set ((λ track, lower (Name track)) <$> jf_tracks) in
  compare_tracks jf_track_names spotify_tracks.

(** lines 147-259 *)
Definition check_album_in_library (self : JellyfinService)
    (album_name artist_name : string) (spotify_tracks : list SpotifyTrack) : Result :=
  match get_artist_items self artist_name with
  | [] => not_found 0 spotify_tracks
  | jellyfin_albums =>
      let '(exact_match, best_match, best_ratio) :=
        match_album album_name jellyfin_albums in
      let similarity_threshold := 0.85%Q in
      let matched_album :=
        match exact_match with
        | Some album => Some album
        | None => if Qge_bool best_ratio similarity_threshold then best_match else None
        end in
      match matched_album with
      | None => not_found best_ratio spotify_tracks
      | Some matched_album =>
          let jf_tracks := get_album_tracks self (Id matched_album) in
          let '(available_tracks, missing_tracks) :=
            reconcile_tracks jf_tracks spotify_tracks in
          {| in_library := true;
             match_type := match exact_match with Some _ => exact | None => similar end;
             match_confidence := match exact_match with Some _ => 1%Q | None => best_ratio end;
             available_tracks := available_tracks;
             missing_tracks := missing_tracks;
             library_album_id := Some (Id matched_album);
             library_album_name := Some (Name matched_album) |}
      end
  end.

End Jellyfin.

(** ** Construction of the services *)

Module Setup.

(** The settings the two services read ([config.py], lines 32-38). *)
Record Settings := {
  jellyfin_url : string;
  jellyfin_api_key : string;
  plex_url : string;
  plex_token : string
}.

(** [str.rstrip('/')] *)
Fixpoint rstrip_slash (s : string) : string :=
  match s with
  | EmptyString => EmptyString
  | String c s' =>
      match rstrip_slash s' with
      | EmptyString => if Ascii.eqb c "/" then EmptyString else String c EmptyString
      | String c' r => String c (String c' r)
      end
  end.

(** [PlexService.__init__] ([plex_service.py], lines 14-21), for the
    settings and the server the service talks to. *)
Definition PlexService__init__ (settings : Settings) (server : Plex.Server)
    : Plex.PlexService :=
  {| Plex.base_url := rstrip_slash (plex_url settings);
     Plex.token := plex_token settings;
     Plex.server := server |}.

(** [JellyfinService.__init__] ([jellyfin_service.py], lines 14-20) *)
Definition JellyfinService__init__ (settings : Settings) (server : Jellyfin.Server)
    : Jellyfin.JellyfinService :=
  {| Jellyfin.base_url := rstrip_slash (jellyfin_url settings);
     Jellyfin.api_key := jellyfin_api_key settings;
     Jellyfin.server := server |}.

End Setup.

(** ** [SpotifyService.get_album_tracks] *)

#[local] Set Warnings "-register-all".

Module Spotify.

(** A page of [album_tracks]: its items and, when [results['next']] is
    set, the answer of [client.next(results)]. *)
Inductive Page : Type :=
  | mkPage (items : list SpotifyTrack) (next : option (response Page)).

(** What the Spotify client answers to [album_tracks(album_id, limit=50)]. *)
Record Client := {
  album_tracks : string → response Page
}.

(** The loop [while results] of lines 172-186: the items of each page
    are appended; an exception leaves the loop. *)
Fixpoint collect (results : Page) : response (list SpotifyTrack) :=
  match results with
  | mkPage items None => Ok items
  | mkPage items (Some Raised) => Raised
  | mkPage items (Some (Ok next)) =>
      match collect next with
      | Ok tracks => Ok (items ++ tracks)
      | Raised => Raised
      end
  end.

(** [spotify_service.py], lines 158-193 *)
Definition get_album_tracks (client : Client) (album_id : string)
    : list SpotifyTrack :=
  match album_tracks client album_id with
  | Raised => []
  | Ok results =>
      match collect results with
      | Ok tracks => tracks
      | Raised => []
      end
  end.

End Spotify.

(** ** The library routes of [routes/integrations.py] *)

Module Routes.

(** The columns of [models.Release] that the library routes read or
    write ([models/release.py]); [release_artist] is the relationship
    [release.artist], reduced to the artist's name. *)
Record Release := {
  release_id : Z;
  release_spotify_id : string;
  release_name : string;
  release_artist : option string;
  in_jellyfin : option bool;
  jellyfin_match_type : option MatchType;
  jellyfin_match_confidence : option Q;
  jellyfin_album_id : option string;
  in_plex : option bool;
  plex_match_type : option MatchType;
  plex_match_confidence : option Q;
  plex_album_id : option string;
  release_tracks : option (list SpotifyTrack);
  release_available_tracks : option (list string);
  release_missing_tracks : option (list string);
  plex_available_tracks : option (list string);
  plex_missing_tracks : option (list string)
}.

(** The assignments of lines 418-425 and 472-479. *)
Definition store_plex (release : Release) (spotify_tracks : list SpotifyTrack)
    (plex_status : Result) : Release :=
  {| release_id := release_id release;
     release_spotify_id := release_spotify_id release;
     release_name := release_name release;
     release_artist := release_artist release;
     in_jellyfin := in_jellyfin release;
     jellyfin_match_type := jellyfin_match_type release;
     jellyfin_match_confidence := jellyfin_match_confidence release;
     jellyfin_album_id := jellyfin_album_id release;
     in_plex := Some (in_library plex_status);
     plex_match_type := Some (match_type plex_status);
     plex_match_confidence := Some (match_confidence plex_status);
     plex_album_id := library_album_id plex_status;
     release_tracks := Some spotify_tracks;
     release_available_tracks := release_available_tracks release;
     release_missing_tracks := release_missing_tracks release;
     plex_available_tracks := Some (available_tracks plex_status);
     plex_missing_tracks := Some (missing_tracks plex_status) |}.

(** The assignments of lines 302-309 and 356-363. *)
Definition store_jellyfin (release : Release) (spotify_tracks : list SpotifyTrack)
    (jellyfin_status : Result) : Release :=
  {| release_id := release_id release;
     release_spotify_id := release_spotify_id release;
     release_name := release_name release;
     release_artist := release_artist release;
     in_jellyfin := Some (in_library jellyfin_status);
     jellyfin_match_type := Some (match_type jellyfin_status);
     jellyfin_match_confidence := Some (match_confidence jellyfin_status);
     jellyfin_album_id := library_album_id jellyfin_status;
     in_plex := in_plex release;
     plex_match_type := plex_match_type release;
     plex_match_confidence := plex_match_confidence release;
     plex_album_id := plex_album_id release;
     release_tracks := Some spotify_tracks;
     release_available_tracks := Some (available_tracks jellyfin_status);
     release_missing_tracks := Some (missing_tracks jellyfin_status);
     plex_available_tracks := plex_available_tracks release;
     plex_missing_tracks := plex_missing_tracks release |}.

(** The body of the [try] block of one release: the Spotify tracks and
    the status of the library, or the exception raised by
    [release.artist.name] when the release has no artist. *)
Definition plex_status_of (plex : Plex.PlexService) (spotify : Spotify.Client)
    (release : Release) : response (list SpotifyTrack * Result) :=
  let spotify_tracks := Spotify.get_album_tracks spotify (release_spotify_id release) in
  match release_artist release with
  | None => Raised
  | Some artist_name =>
      Ok (spotify_tracks,
          Plex.check_album_in_library plex (release_name release) artist_name
            spotify_tracks)
  end.

Definition jellyfin_status_of (jellyfin : Jellyfin.JellyfinService)
    (spotify : Spotify.Client) (release : Release)
    : response (list SpotifyTrack * Result) :=
  let spotify_tracks := Spotify.get_album_tracks spotify (release_spotify_id release) in
  match release_artist release with
  | None => Raised
  | Some artist_name =>
      Ok (spotify_tracks,
          Jellyfin.check_album_in_library jellyfin (release_name release) artist_name
            spotify_tracks)
  end.

(** The dictionary returned by the two [check-all] routes. *)
Record Summary := {
  total_releases : nat;
  checked : nat;
  in_library_count : nat;
  not_in_library : Z;
  errors : list string
}.

(** [f"Error checking {release.name}: {str(e)}"] for the exception of a
    release without artist. *)
Definition error_message (release : Release) : string :=
  "Error checking " ++ release_name release
    ++ ": 'NoneType' object has no attribute 'name'".

(** State of the loop over the releases: the releases as updated so far,
    [checked_count], [in_library_count] and [errors]. *)
Record Sweep := {
  sweep_releases : list Release;
  checked_count : nat;
  sweep_in_library : nat;
  sweep_errors : list string
}.

Definition sweep_step (status_of : Release → response (list SpotifyTrack * Result))
    (store : Release → list SpotifyTrack → Result → Release)
    (st : Sweep) (release : Release) : Sweep :=
  match status_of release with
  | Ok (spotify_tracks, status) =>
      {| sweep_releases := sweep_releases st ++ [store release spotify_tracks status];
         checked_count := checked_count st + 1;
         sweep_in_library :=
           if in_library status then sweep_in_library st + 1 else sweep_in_library st;
         sweep_errors := sweep_errors st |}
  | Raised =>
      {| sweep_releases := sweep_releases st ++ [release];
         checked_count := checked_count st;
         sweep_in_library := sweep_in_library st;
         sweep_errors := sweep_errors st ++ [error_message release] |}
  end.

Definition sweep (status_of : Release → response (list SpotifyTrack * Result))
    (store : Release → list SpotifyTrack → Result → Release)
    (releases : list Release) : list Release * Summary :=
  let st := foldl (sweep_step status_of store)
              {| sweep_releases := []; checked_count := 0;
                 sweep_in_library := 0; sweep_errors := [] |} releases in
  (sweep_releases st,
   {| total_releases := length releases;
      checked := checked_count st;
      in_library_count := sweep_in_library st;
      not_in_library := Z.of_nat (checked_count st) - Z.of_nat (sweep_in_library st);
      errors := sweep_errors st |}).

(** [check_all_plex] (lines 441-497): the releases of the database after
    the commit, and the summary. *)
Definition check_all_plex (plex : Plex.PlexService) (spotify : Spotify.Client)
    (releases : list Release) : list Release * Summary :=
  sweep (plex_status_of plex spotify) store_plex releases.

(** [check_all_jellyfin] (lines 325-381) *)
Definition check_all_jellyfin (jellyfin : Jellyfin.JellyfinService)
    (spotify : Spotify.Client) (releases : list Release) : list Release * Summary :=
  sweep (jellyfin_status_of jellyfin spotify) store_jellyfin releases.

(** What a [check/{release_id}] route answers: the response model, an
    [HTTPException] with its status code, or an exception that leaves
    the handler. *)
Record CheckResponse := {
  response_release_id : Z;
  response_in_library : bool;
  response_match_type : MatchType;
  response_match_confidence : Q;
  response_available_tracks : list string;
  response_missing_tracks : list string
}.

Inductive Answer :=
  | Response (r : CheckResponse)
  | HTTPException (status_code : nat)
  | Unhandled.

(** [Release.id == release_id] binds the id as an INTEGER of the SQLite
    database ([config.py], line 26): the driver raises [OverflowError]
    for an id outside the signed 64-bit range. *)
Definition sqlite_integer (n : Z) : bool :=
  (- 2 ^ 63 <=? n)%Z && (n <? 2 ^ 63)%Z.

(** [db.query(Release).filter(Release.id == release_id).first()] and the
    update of that row. *)
Fixpoint find_release (release_id0 : Z) (releases : list Release) : option Release :=
  match releases with
  | [] => None
  | release :: rest =>
      if bool_decide (release_id release = release_id0) then Some release
      else find_release release_id0 rest
  end.

Fixpoint replace_release (release_id0 : Z) (updated : Release)
    (releases : list Release) : list Release :=
  match releases with
  | [] => []
  | release :: rest =>
      if bool_decide (release_id release = release_id0) then updated :: rest
      else release :: replace_release release_id0 updated rest
  end.

(** The body of a [check/{release_id}] route.  The query stands before
    the [try] block, so its exception leaves the handler.  Inside the
    block [status_of] is the check of the release, [commit] the outcome
    of [db.commit()]; [except Exception] turns an exception of either
    into the status 500, and nothing is committed then. *)
Definition check_one (status_of : Release → response (list SpotifyTrack * Result))
    (store : Release → list SpotifyTrack → Result → Release)
    (commit : response unit)
    (release_id0 : Z) (releases : list Release) : list Release * Answer :=
  if negb (sqlite_integer release_id0) then (releases, Unhandled)
  else
    match find_release release_id0 releases with
    | None => (releases, HTTPException 404)
    | Some release =>
        match status_of release with
        | Raised => (releases, HTTPException 500)
        | Ok (spotify_tracks, status) =>
            match commit with
            | Raised => (releases, HTTPException 500)
            | Ok _ =>
                (replace_release release_id0 (store release spotify_tracks status)
                   releases,
                 Response {| response_release_id := release_id release;
                             response_in_library := in_library status;
                             response_match_type := match_type status;
                             response_match_confidence := match_confidence status;
                             response_available_tracks := available_tracks status;
                             response_missing_tracks := missing_tracks status |})
            end
        end
    end.

(** [check_plex_library] (lines 384-438) *)
Definition check_plex_library (plex : Plex.PlexService) (spotify : Spotify.Client)
    (commit : response unit) (release_id0 : Z) (releases : list Release)
    : list Release * Answer :=
  check_one (plex_status_of plex spotify) store_plex commit release_id0 releases.

(** [check_jellyfin_library] (lines 268-322) *)
Definition check_jellyfin_library (jellyfin : Jellyfin.JellyfinService)
    (spotify : Spotify.Client) (commit : response unit) (release_id0 : Z)
    (releases : list Release) : list Release * Answer :=
  check_one (jellyfin_status_of jellyfin spotify) store_jellyfin commit
    release_id0 releases.

End Routes.

(** * Vocabulary of the statements *)

(** ** About [SequenceMatcher] *)

Module DifflibSpec.
Import Difflib.

(** A block lies inside the rectangle it was searched in. *)
Definition in_box (alo ahi blo bhi : nat) (m : Match) : Prop :=
  alo ≤ m_a m ∧ m_a m + m_size m ≤ ahi ∧ blo ≤ m_b m ∧ m_b m + m_size m ≤ bhi.

(** The lengths recorded for the row before [i] fit in the rectangle. *)
Definition len_ok (alo blo i : nat) (j2len : gmap nat nat) : Prop :=
  ∀ j k, j2len !! j = Some k → k + alo ≤ i ∧ k + blo ≤ j + 1.

(** An entry [(alo, ahi, blo, bhi)] of the work list. *)
Abbreviation rect := (nat * nat * nat * nat)%type.

Definition rect_ok (r : rect) : Prop :=
  let '(alo, ahi, blo, bhi) := r in alo ≤ ahi ∧ blo ≤ bhi.

(** The variant of the loop of [get_matching_blocks]: each entry counts
    for twice its height plus one. *)
Definition work (queue : list rect) : nat :=
  sum_list_with (λ '(alo, ahi, _, _), 2 * (ahi - alo) + 1) queue.

(** Total height and total width of the entries. *)
Definition awidth (queue : list rect) : nat :=
  sum_list_with (λ '(alo, ahi, _, _), ahi - alo) queue.

Definition bwidth (queue : list rect) : nat :=
  sum_list_with (λ '(_, _, blo, bhi), bhi - blo) queue.

(** [sum(triple[-1] for triple in blocks)] *)
Definition total_size (blocks : list Match) : nat :=
  sum_list_with m_size blocks.
Arguments total_size : simpl never.

(** Every index list of [b2j] is increasing and holds exactly the
    positions of its key. *)
Definition b2j_inv `{Countable A} (pre : list A) (m : gmap A (list nat)) : Prop :=
  ∀ c, StronglySorted lt (default [] (m !! c))
       ∧ ∀ j, j ∈ default [] (m !! c) ↔ pre !! j = Some c.

Definition b2j_ok `{Countable A} (b : list A) (m : gmap A (list nat)) : Prop :=
  ∀ c js, m !! c = Some js →
    StronglySorted lt js ∧ ∀ j, j ∈ js ↔ b !! j = Some c.

(** [x[i]] is a key of [b2j] (it was not purged as popular). *)
Definition kept_at `{Countable A} (x : list A) (b2j : gmap A (list nat))
    (i : nat) : bool :=
  match x !! i with
  | Some c => bool_decide (is_Some (b2j !! c))
  | None => false
  end.

(** Length of the run of kept elements of [x] that ends at position [i]. *)
Fixpoint diag `{Countable A} (x : list A) (b2j : gmap A (list nat))
    (i : nat) : nat :=
  match i with
  | 0 => if kept_at x b2j 0 then 1 else 0
  | S i' => if kept_at x b2j (S i') then diag x b2j i' + 1 else 0
  end.

Definition diag_prev `{Countable A} (x : list A) (b2j : gmap A (list nat))
    (i : nat) : nat :=
  match i with 0 => 0 | S i' => diag x b2j i' end.

(** State of the scan of [x] against itself before row [i]. *)
Definition row_inv `{Countable A} (x : list A) (b2j : gmap A (list nat))
    (i : nat) (j2len : gmap nat nat) (best : Match) : Prop :=
  (∀ j k, j2len !! j = Some k → k ≤ diag_prev x b2j i ∧ k ≤ diag x b2j j)
  ∧ j2lenget j2len i = diag_prev x b2j i
  ∧ m_a best = m_b best
  ∧ ∀ i', i' < i → diag x b2j i' ≤ m_size best.

(** State of the scan inside row [i], with [rest] still to visit. *)
Definition cell_inv `{Countable A} (x : list A) (b2j : gmap A (list nat))
    (i : nat) (rest : list nat) (newj2len : gmap nat nat) (best : Match) : Prop :=
  (∀ j k, newj2len !! j = Some k → k ≤ diag x b2j i ∧ k ≤ diag x b2j j)
  ∧ m_a best = m_b best
  ∧ (∀ i', i' < i → diag x b2j i' ≤ m_size best)
  ∧ (i ∈ rest
     ∨ (newj2len !! i = Some (diag x b2j i) ∧ diag x b2j i ≤ m_size best
        ∧ ∀ j, j ∈ rest → i < j)).

End DifflibSpec.

(** ** About the services *)

(** [best] is the first element of [xs] whose ratio is [best_ratio], the
    largest ratio in [xs]; nothing is kept when no ratio exceeds zero. *)
Definition first_best {X} (title : X → string) (target : string) (xs : list X)
    (best : option X) (best_ratio : Q) : Prop :=
  (∀ y, y ∈ xs → (_similarity_ratio (title y) target <= best_ratio)%Q)
  ∧ match best with
    | None => best_ratio = 0%Q
    | Some x =>
        ∃ pre post, xs = pre ++ x :: post
          ∧ _similarity_ratio (title x) target = best_ratio
          ∧ (0 < best_ratio)%Q
          ∧ ∀ y, y ∈ pre → (_similarity_ratio (title y) target < best_ratio)%Q
    end.

(** The condition under which the source files a track as available. *)
Definition in_library_titles (titles : list string) (track_name : string) : Prop :=
  lower track_name ∈ (lower <$> titles)
  ∨ ∃ title, title ∈ titles ∧ (0.9 <= _similarity_ratio track_name title)%Q.

(** [available] and [missing] split [names] by a test on the name, each
    keeping the order and the repetitions of [names]. *)
Definition split_of (names available missing : list string) : Prop :=
  ∃ test : string → bool,
    available = filter (λ n, test n) names
    ∧ missing = filter (λ n, ¬ test n) names.

(** Number of times [n] occurs in [l]. *)
Definition occurrences (n : string) (l : list string) : nat :=
  length (filter (λ m, m = n) l).

(** What a result must satisfy with respect to the canonical tracks. *)
Definition result_valid (tracks : list SpotifyTrack) (r : Result) : Prop :=
  (list_to_set (available_tracks r) ∪ list_to_set (missing_tracks r)
     = (list_to_set (name <$> tracks) : gset string)
   ∧ (list_to_set (available_tracks r) : gset string)
       ## list_to_set (missing_tracks r))
  ∧ (match_type r = none →
       in_library r = false
       ∧ available_tracks r = []
       ∧ missing_tracks r = name <$> tracks)
  ∧ (match_type r = exact → match_confidence r = 1%Q).

(** The distance [abs(album_track_count - spotify_track_count)] of an
    album, with the track count the service fetches for it. *)
Definition track_diff (self : Plex.PlexService) (tracks : list SpotifyTrack)
    (album : Plex.Album) : Z :=
  Z.abs (Z.of_nat (length (Plex.get_album_tracks self (Plex.album_key album)))
         - Z.of_nat (length tracks)).

(** [album] is the first element of [l] with the least distance. *)
Definition nearest_first {X} (diff : X → Z) (l : list X) (album : X) : Prop :=
  ∃ pre post, l = pre ++ album :: post
    ∧ (∀ y, y ∈ pre → (diff album < diff y)%Z)
    ∧ (∀ y, y ∈ post → (diff album <= diff y)%Z).

(** ** Sample data *)

Module Samples.

Definition track (track_name : string) : SpotifyTrack :=
  {| name := track_name; track_number := 0; duration_ms := 0 |}.

Definition plex_album (album_title key : string) : Plex.Album :=
  {| Plex.album_get_title := Some album_title;
     Plex.album_parentTitle := "Michael Jackson";
     Plex.album_key := key;
     Plex.album_ratingKey := Some key |}.

Definition plex_tracks (titles : list string) : response (list Plex.Track) :=
  Ok ((λ t, {| Plex.track_title := t |}) <$> titles).

(** A Plex server with one music section and one film section, one
    artist, and the given albums and track lists. *)
Definition plex_server (albums : list Plex.Album)
    (children : string → response (list Plex.Track)) : Plex.Server :=
  {| Plex.sections :=
       Ok [ {| Plex.dir_type := "movie"; Plex.dir_key := "1"; Plex.dir_title := "Films" |};
            {| Plex.dir_type := "artist"; Plex.dir_key := "2"; Plex.dir_title := "Music" |} ];
     Plex.section_artists := λ _, Ok [ {| Plex.artist_title := "Michael Jackson" |} ];
     Plex.section_albums := λ _, Ok albums;
     Plex.metadata_children := children |}.

Definition plex (albums : list Plex.Album)
    (children : string → response (list Plex.Track)) : Plex.PlexService :=
  {| Plex.base_url := "http://plex:32400";
     Plex.token := "token";
     Plex.server := plex_server albums children |}.

Definition plex_unconfigured : Plex.PlexService :=
  {| Plex.base_url := "";
     Plex.token := "";
     Plex.server := plex_server [] (λ _, Raised) |}.

Definition jellyfin_server (albums : list Jellyfin.Item)
    (children : string → response (list Jellyfin.Item)) : Jellyfin.Server :=
  {| Jellyfin.users := Ok [ {| Jellyfin.user_Id := "u1" |} ];
     Jellyfin.search_artists := λ _ _,
       Ok [ {| Jellyfin.Id := "a1"; Jellyfin.Name := "Michael Jackson" |} ];
     Jellyfin.artist_albums := λ _ _, Ok albums;
     Jellyfin.album_children := λ _, children |}.

Definition jellyfin (albums : list Jellyfin.Item)
    (children : string → response (list Jellyfin.Item)) : Jellyfin.JellyfinService :=
  {| Jellyfin.base_url := "http://jellyfin:8096";
     Jellyfin.api_key := "key";
     Jellyfin.server := jellyfin_server albums children |}.

Definition thriller_tracks : list SpotifyTrack :=
  [ track "Wanna Be Startin' Somethin'"; track "Billie Jean"; track "Thriller" ].

Definition thriller_plex : Plex.PlexService :=
  plex [ plex_album "Thriller 25" "/library/metadata/9/children";
         plex_album "Thriller" "/library/metadata/10/children" ]
       (λ _, plex_tracks [ "Wanna Be Startin Somethin"; "Billie Jean"; "Beat It" ]).

Definition thriller_jellyfin : Jellyfin.JellyfinService :=
  jellyfin [ {| Jellyfin.Id := "9"; Jellyfin.Name := "Thriller 25" |};
             {| Jellyfin.Id := "10"; Jellyfin.Name := "Thriller" |} ]
           (λ _, Ok [ {| Jellyfin.Id := "t1"; Jellyfin.Name := "Billie Jean" |} ]).

(** Two albums called "X", with one and with three tracks. *)
Definition two_x_plex : Plex.PlexService :=
  plex [ plex_album "Greatest Hits" "/g"; plex_album "X" "/a"; plex_album "x" "/b" ]
       (λ key, if bool_decide (key = "/a") then plex_tracks [ "One" ]
               else plex_tracks [ "One"; "Two"; "Three" ]).

Definition three_tracks : list SpotifyTrack := [ track "One"; track "Two"; track "Three" ].
Definition two_tracks : list SpotifyTrack := [ track "One"; track "Two" ].

(** A library whose only album is one letter away from "abcde". *)
Definition near_plex : Plex.PlexService :=
  plex [ plex_album "abcdx" "/n" ] (λ _, plex_tracks [ "One" ]).

Definition near_jellyfin : Jellyfin.JellyfinService :=
  jellyfin [ {| Jellyfin.Id := "n"; Jellyfin.Name := "abcdx" |} ]
           (λ _, Ok [ {| Jellyfin.Id := "t"; Jellyfin.Name := "One" |} ]).

(** A library whose only album shares half of its letters with "abcd". *)
Definition far_plex : Plex.PlexService :=
  plex [ plex_album "abxy" "/f" ] (λ _, plex_tracks [ "One" ]).

Definition far_jellyfin : Jellyfin.JellyfinService :=
  jellyfin [ {| Jellyfin.Id := "f"; Jellyfin.Name := "abxy" |} ]
           (λ _, Ok [ {| Jellyfin.Id := "t"; Jellyfin.Name := "One" |} ]).

(** Two music sections holding the same album; the track listing of the
    copy in the first section fails, the one of the second succeeds. *)
Definition flaky_plex : Plex.PlexService :=
  {| Plex.base_url := "http://plex:32400";
     Plex.token := "token";
     Plex.server :=
       {| Plex.sections :=
            Ok [ {| Plex.dir_type := "artist"; Plex.dir_key := "1"; Plex.dir_title := "Music" |};
                 {| Plex.dir_type := "artist"; Plex.dir_key := "2"; Plex.dir_title := "More music" |} ];
          Plex.section_artists := λ _, Ok [ {| Plex.artist_title := "Michael Jackson" |} ];
          Plex.section_albums := λ key,
            if bool_decide (key = "1") then Ok [ plex_album "Thriller" "/first" ]
            else Ok [ plex_album "Thriller" "/second" ];
          Plex.metadata_children := λ key,
            if bool_decide (key = "/first") then Raised
            else plex_tracks [ "Wanna Be Startin' Somethin'"; "Billie Jean"; "Thriller" ] |} |}.

(** Two music sections; the artist listing of the first one fails. *)
Definition artist_error_plex : Plex.PlexService :=
  {| Plex.base_url := "http://plex:32400";
     Plex.token := "token";
     Plex.server :=
       {| Plex.sections :=
            Ok [ {| Plex.dir_type := "artist"; Plex.dir_key := "1"; Plex.dir_title := "Music" |};
                 {| Plex.dir_type := "artist"; Plex.dir_key := "2"; Plex.dir_title := "More music" |} ];
          Plex.section_artists := λ key,
            if bool_decide (key = "1") then Raised
            else Ok [ {| Plex.artist_title := "Michael Jackson" |} ];
          Plex.section_albums := λ _, Ok [ plex_album "Thriller" "/second" ];
          Plex.metadata_children := λ _,
            plex_tracks [ "Wanna Be Startin' Somethin'"; "Billie Jean"; "Thriller" ] |} |}.

End Samples.

(** ** About matching blocks *)

Module BlockSpec.
Import Difflib DifflibSpec.

(** The block [m] pairs equal elements: [a[i:i+k] == b[j:j+k]]. *)
Definition genuine `{Countable A} (a b : list A) (m : Match) : Prop :=
  ∀ d, d < m_size m → same_elt a b (m_a m + d) (m_b m + d) = true.

(** The lengths recorded for the row before [i] are lengths of runs of
    equal elements ending there. *)
Definition runs_ok `{Countable A} (a b : list A) (i : nat)
    (j2len : gmap nat nat) : Prop :=
  ∀ j k, j2len !! j = Some k →
    ∀ d, d < k → d < i ∧ d ≤ j ∧ same_elt a b (i - 1 - d) (j - d) = true.

(** The two sides of the rectangle [r] are equal, element by element. *)
Definition seg_eq `{Countable A} (a b : list A) (r : rect) : Prop :=
  let '(alo, ahi, blo, bhi) := r in
  ahi - alo = bhi - blo
  ∧ ∀ d, d < ahi - alo → same_elt a b (alo + d) (blo + d) = true.

End BlockSpec.

(** ** About the providers and the routes *)

(** The ways in which [get_artist_items] comes back empty-handed. *)
Definition jellyfin_unavailable (self : Jellyfin.JellyfinService)
    (artist_name : string) : Prop :=
  Jellyfin.unconfigured self = true
  ∨ Jellyfin.users (Jellyfin.server self) = Raised
  ∨ Jellyfin.users (Jellyfin.server self) = Ok []
  ∨ ∃ user other_users,
      Jellyfin.users (Jellyfin.server self) = Ok (user :: other_users)
      ∧ (Jellyfin.search_artists (Jellyfin.server self)
           (Jellyfin.user_Id user) artist_name = Raised
         ∨ Jellyfin.search_artists (Jellyfin.server self)
             (Jellyfin.user_Id user) artist_name = Ok []
         ∨ ∃ artist other_artists,
             Jellyfin.search_artists (Jellyfin.server self)
               (Jellyfin.user_Id user) artist_name = Ok (artist :: other_artists)
             ∧ (Jellyfin.artist_albums (Jellyfin.server self)
                  (Jellyfin.user_Id user) (Jellyfin.Id artist) = Raised
                ∨ Jellyfin.artist_albums (Jellyfin.server self)
                    (Jellyfin.user_Id user) (Jellyfin.Id artist) = Ok [])).

(** A string of [n] slashes. *)
Fixpoint slashes (n : nat) : string :=
  match n with
  | 0 => ""
  | S n' => String "/" (slashes n')
  end.

(** Some request for a further page raises. *)
Fixpoint page_fails (results : Spotify.Page) : bool :=
  match results with
  | Spotify.mkPage _ None => false
  | Spotify.mkPage _ (Some Raised) => true
  | Spotify.mkPage _ (Some (Ok next)) => page_fails next
  end.

(** The items of all the pages received, in order. *)
Fixpoint all_items (results : Spotify.Page) : list SpotifyTrack :=
  match results with
  | Spotify.mkPage items (Some (Ok next)) => items ++ all_items next
  | Spotify.mkPage items _ => items
  end.

(** What a sweep makes of one release. *)
Definition updated
    (status_of : Routes.Release → response (list SpotifyTrack * Result))
    (store : Routes.Release → list SpotifyTrack → Result → Routes.Release)
    (release : Routes.Release) : Routes.Release :=
  match status_of release with
  | Ok (spotify_tracks, status) => store release spotify_tracks status
  | Raised => release
  end.

(** The status of a release was obtained; it says the album is in the
    library. *)
Definition status_ok {A} (x : response A) : bool :=
  match x with Ok _ => true | Raised => false end.

Definition status_in_library (x : response (list SpotifyTrack * Result)) : bool :=
  match x with Ok (_, status) => in_library status | Raised => false end.

(** Two releases agree on the columns that identify them, on the
    Jellyfin columns, on the Plex columns. *)
Definition same_identity (r r' : Routes.Release) : Prop :=
  Routes.release_id r' = Routes.release_id r
  ∧ Routes.release_spotify_id r' = Routes.release_spotify_id r
  ∧ Routes.release_name r' = Routes.release_name r
  ∧ Routes.release_artist r' = Routes.release_artist r.

Definition same_jellyfin_columns (r r' : Routes.Release) : Prop :=
  Routes.in_jellyfin r' = Routes.in_jellyfin r
  ∧ Routes.jellyfin_match_type r' = Routes.jellyfin_match_type r
  ∧ Routes.jellyfin_match_confidence r' = Routes.jellyfin_match_confidence r
  ∧ Routes.jellyfin_album_id r' = Routes.jellyfin_album_id r
  ∧ Routes.release_available_tracks r' = Routes.release_available_tracks r
  ∧ Routes.release_missing_tracks r' = Routes.release_missing_tracks r.

Definition same_plex_columns (r r' : Routes.Release) : Prop :=
  Routes.in_plex r' = Routes.in_plex r
  ∧ Routes.plex_match_type r' = Routes.plex_match_type r
  ∧ Routes.plex_match_confidence r' = Routes.plex_match_confidence r
  ∧ Routes.plex_album_id r' = Routes.plex_album_id r
  ∧ Routes.plex_available_tracks r' = Routes.plex_available_tracks r
  ∧ Routes.plex_missing_tracks r' = Routes.plex_missing_tracks r.

(** The summary of a sweep over [releases] adds up; [flag] is the
    column that says whether the release is in the library. *)
Definition summary_consistent (flag : Routes.Release → option bool)
    (releases : list Routes.Release)
    (out : list Routes.Release * Routes.Summary) : Prop :=
  length out.1 = length releases
  ∧ Routes.total_releases out.2 = length releases
  ∧ Routes.checked out.2 + length (Routes.errors out.2) = Routes.total_releases out.2
  ∧ Routes.in_library_count out.2 ≤ Routes.checked out.2
  ∧ Routes.not_in_library out.2
    = Z.of_nat (Routes.checked out.2 - Routes.in_library_count out.2)
  ∧ Routes.errors out.2
    = Routes.error_message
        <$> filter (λ r, Routes.release_artist r = None) releases
  ∧ Routes.in_library_count out.2
    = length (filter (λ r, Routes.release_artist r ≠ None ∧ flag r = Some true) out.1).

(** ** More sample data *)

Module MoreSamples.

(** A release as the daily check creates it, before any library check. *)
Definition release (id : Z) (spotify_id release_name : string)
    (artist : option string) : Routes.Release :=
  {| Routes.release_id := id;
     Routes.release_spotify_id := spotify_id;
     Routes.release_name := release_name;
     Routes.release_artist := artist;
     Routes.in_jellyfin := None;
     Routes.jellyfin_match_type := None;
     Routes.jellyfin_match_confidence := None;
     Routes.jellyfin_album_id := None;
     Routes.in_plex := None;
     Routes.plex_match_type := None;
     Routes.plex_match_confidence := None;
     Routes.plex_album_id := None;
     Routes.release_tracks := None;
     Routes.release_available_tracks := None;
     Routes.release_missing_tracks := None;
     Routes.plex_available_tracks := None;
     Routes.plex_missing_tracks := None |}.

(** Spotify knows the tracks of "Thriller" on two pages; the second page
    of "Bad" fails. *)
Definition spotify : Spotify.Client :=
  {| Spotify.album_tracks := λ album_id,
       if bool_decide (album_id = "sp-thriller")
       then Ok (Spotify.mkPage
                  [ Samples.track "Wanna Be Startin' Somethin'";
                    Samples.track "Billie Jean" ]
                  (Some (Ok (Spotify.mkPage [ Samples.track "Thriller" ] None))))
       else if bool_decide (album_id = "sp-bad")
       then Ok (Spotify.mkPage [ Samples.track "Bad" ] (Some Raised))
       else Raised |}.

Definition releases : list Routes.Release :=
  [ release 1 "sp-thriller" "Thriller" (Some "Michael Jackson");
    release 2 "sp-bad" "Bad" (Some "Michael Jackson");
    release 3 "sp-orphan" "Orphan" None ].

(** "CAFE" and "cafe" with an acute accent on the last letter, U+00C9
    and U+00E9. *)
Definition CAFE_acute : string := "CAF" ++ String "201" "".
Definition cafe_acute : string := "caf" ++ String "233" "".

Definition E_acute : string := String "201" "".
Definition e_acute : string := String "233" "".

(** A Plex library with two artists and three albums whose names differ
    only in case; the first album has three tracks, the others one and
    two. *)
Definition latin1_plex : Plex.PlexService :=
  {| Plex.base_url := "http://plex:32400";
     Plex.token := "token";
     Plex.server :=
       {| Plex.sections :=
            Ok [ {| Plex.dir_type := "artist"; Plex.dir_key := "2";
                    Plex.dir_title := "Music" |} ];
          Plex.section_artists := λ _,
            Ok [ {| Plex.artist_title := E_acute |};
                 {| Plex.artist_title := e_acute |} ];
          Plex.section_albums := λ _,
            Ok [ {| Plex.album_get_title := Some E_acute;
                    Plex.album_parentTitle := E_acute;
                    Plex.album_key := "/a";
                    Plex.album_ratingKey := Some "/a" |};
                 {| Plex.album_get_title := Some e_acute;
                    Plex.album_parentTitle := E_acute;
                    Plex.album_key := "/b";
                    Plex.album_ratingKey := Some "/b" |};
                 {| Plex.album_get_title := Some e_acute;
                    Plex.album_parentTitle := E_acute;
                    Plex.album_key := "/c";
                    Plex.album_ratingKey := Some "/c" |} ];
          Plex.metadata_children := λ key,
            if bool_decide (key = "/a")
            then Samples.plex_tracks [ "One"; "Two"; "Three" ]
            else if bool_decide (key = "/b") then Samples.plex_tracks [ "One" ]
            else Samples.plex_tracks [ "One"; "Two" ] |} |}.

(** Two Jellyfin albums whose names differ only in case. *)
Definition latin1_jellyfin : Jellyfin.JellyfinService :=
  Samples.jellyfin [ {| Jellyfin.Id := "1"; Jellyfin.Name := CAFE_acute |};
                     {| Jellyfin.Id := "2"; Jellyfin.Name := cafe_acute |} ]
                   (λ _, Ok [ {| Jellyfin.Id := "t"; Jellyfin.Name := CAFE_acute |} ]).

(** A Plex library whose album has neither [ratingKey] nor [title]. *)
Definition untagged_plex : Plex.PlexService :=
  Samples.plex [ {| Plex.album_get_title := None;
                    Plex.album_parentTitle := "Michael Jackson";
                    Plex.album_key := "/u";
                    Plex.album_ratingKey := None |} ]
               (λ _, Samples.plex_tracks [ "One" ]).

Definition settings_only_slashes : Setup.Settings :=
  {| Setup.jellyfin_url := "";
     Setup.jellyfin_api_key := "key";
     Setup.plex_url := "//";
     Setup.plex_token := "token" |}.

End MoreSamples.

(** * Properties of [SequenceMatcher] *)

Module DifflibFacts.
Import Difflib DifflibSpec.

(** ** [find_longest_match] answers inside its rectangle *)

Lemma len_ok_empty alo blo i : len_ok alo blo i ∅.
Proof. intros j k Hk. by rewrite lookup_empty in Hk. Qed.

Lemma j2lenget_bound alo blo i j2len j :
  len_ok alo blo i j2len → alo ≤ i → blo ≤ j →
  j2lenget j2len j + alo ≤ i ∧ j2lenget j2len j + blo ≤ j.
Proof.
  intros Hok Hi Hj. destruct j as [|j']; simpl; [lia|].
  destruct (j2len !! j') as [k|] eqn:E; simpl; [|lia].
  apply Hok in E. lia.
Qed.

Lemma scan_row_box alo ahi blo bhi i j2len js :
  alo ≤ i → i < ahi → len_ok alo blo i j2len →
  ∀ newj2len best,
    len_ok alo blo (S i) newj2len → in_box alo ahi blo bhi best →
    len_ok alo blo (S i) (scan_row i blo bhi j2len js newj2len best).1
    ∧ in_box alo ahi blo bhi (scan_row i blo bhi j2len js newj2len best).2.
Proof.
  intros Hlo Hhi Hok. induction js as [|j js IH]; intros new best Hnew Hbest;
    simpl; [done|].
  destruct (Nat.ltb_spec j blo) as [?|Hjlo]; [by apply IH|].
  destruct (Nat.leb_spec bhi j) as [?|Hjhi]; [done|].
  destruct (j2lenget_bound alo blo i j2len j Hok Hlo Hjlo) as [Ha Hb].
  apply IH.
  - intros j0 k0. rewrite lookup_insert. case_decide as Hd.
    + intros [= <-]. subst. lia.
    + apply Hnew.
  - destruct (Nat.ltb_spec (m_size best) (j2lenget j2len j + 1)); [|done].
    unfold in_box; simpl. lia.
Qed.

Lemma in_box_start alo ahi blo bhi :
  alo ≤ ahi → blo ≤ bhi → in_box alo ahi blo bhi (mkMatch alo blo 0).
Proof. unfold in_box; simpl; lia. Qed.

Section Bounds.
Context `{Countable A}.
Variables (a b : list A) (b2j : gmap A (list nat)) (bjunk : gset A).

Lemma scan_rows_box alo ahi blo bhi n :
  ∀ i j2len best,
    alo ≤ i → i + n ≤ ahi → len_ok alo blo i j2len →
    in_box alo ahi blo bhi best →
    in_box alo ahi blo bhi (scan_rows a b2j blo bhi (seq i n) j2len best).
Proof.
  induction n as [|n IH]; intros i j2len best Hlo Hhi Hok Hbest; simpl; [done|].
  edestruct (scan_row_box alo ahi blo bhi i j2len) as [Hok' Hbest'];
    [done | lia | done | apply (len_ok_empty alo blo (S i)) | exact Hbest |].
  apply IH; [lia | lia | exact Hok' | exact Hbest'].
Qed.

Lemma extend_back_box junk alo ahi blo bhi besti :
  ∀ bestj bestsize,
    in_box alo ahi blo bhi (mkMatch besti bestj bestsize) →
    in_box alo ahi blo bhi (extend_back a b bjunk junk alo blo besti bestj bestsize).
Proof.
  induction besti as [|i' IH]; intros bestj bestsize Hbox; simpl; [done|].
  destruct (_ && _) eqn:E; [|done].
  repeat (apply andb_prop in E as [E ?]).
  apply Nat.ltb_lt in E. match goal with H : (blo <? _) = true |- _ =>
    apply Nat.ltb_lt in H end.
  apply IH. unfold in_box in *; simpl in *. lia.
Qed.

Lemma extend_fwd_bound junk ahi bhi besti bestj room :
  ∀ bestsize,
    besti + bestsize + room ≤ ahi → bestj + bestsize ≤ bhi →
    let s := extend_fwd a b bjunk junk bhi besti bestj room bestsize in
    bestsize ≤ s ∧ besti + s ≤ ahi ∧ bestj + s ≤ bhi.
Proof.
  induction room as [|room IH]; intros bestsize Ha Hb; simpl; [lia|].
  destruct (_ && _) eqn:E; [|lia].
  repeat (apply andb_prop in E as [E ?]). apply Nat.ltb_lt in E.
  specialize (IH (bestsize + 1)). simpl in IH. lia.
Qed.

Lemma extend_box junk alo ahi blo bhi m :
  in_box alo ahi blo bhi m →
  in_box alo ahi blo bhi (extend a b bjunk junk alo ahi blo bhi m).
Proof.
  intros Hbox. destruct m as [i j s].
  pose proof (extend_back_box junk alo ahi blo bhi i j s Hbox) as Hb.
  unfold extend; simpl.
  destruct (extend_back a b bjunk junk alo blo i j s) as [i1 j1 s1].
  unfold in_box in *; simpl in *.
  pose proof (extend_fwd_bound junk ahi bhi i1 j1 (ahi - (i1 + s1)) s1) as Hf.
  simpl in Hf. lia.
Qed.

Lemma find_longest_match_box alo ahi blo bhi :
  alo ≤ ahi → blo ≤ bhi →
  in_box alo ahi blo bhi (find_longest_match a b b2j bjunk alo ahi blo bhi).
Proof.
  intros Ha Hb. unfold find_longest_match.
  do 2 apply extend_box.
  apply scan_rows_box; [lia | lia | apply len_ok_empty | by apply in_box_start].
Qed.
End Bounds.

(** ** The loop of [get_matching_blocks] ends *)

(** Each turn of the loop lowers [work], so the fuel [2 * len(a) + 1] is
    never used up, and the blocks found fit side by side in the
    rectangles still to be searched. *)
Lemma total_size_app l1 l2 : total_size (l1 ++ l2) = total_size l1 + total_size l2.
Proof. apply sum_list_with_app. Qed.

Lemma push_if_measures c (r : rect) queue :
  rect_ok r → Forall rect_ok queue →
  Forall rect_ok (push_if c r queue)
  ∧ work (push_if c r queue) ≤ work (r :: queue)
  ∧ awidth (push_if c r queue) ≤ awidth (r :: queue)
  ∧ bwidth (push_if c r queue) ≤ bwidth (r :: queue).
Proof.
  intros Hr Hq. destruct c; simpl.
  - repeat split; [by constructor | done..].
  - destruct r as [[[alo ahi] blo] bhi]. unfold work, awidth, bwidth; simpl.
    repeat split; [done | lia..].
Qed.

Section Termination.
Context `{Countable A}.
Variables (a b : list A) (b2j : gmap A (list nat)) (bjunk : gset A).

Lemma match_loop_cons fuel alo ahi blo bhi queue matching_blocks :
  match_loop a b b2j bjunk (S fuel) ((alo, ahi, blo, bhi) :: queue) matching_blocks
  = let x := find_longest_match a b b2j bjunk alo ahi blo bhi in
    if m_size x =? 0
    then match_loop a b b2j bjunk fuel queue matching_blocks
    else match_loop a b b2j bjunk fuel
           (push_if ((m_a x + m_size x <? ahi) && (m_b x + m_size x <? bhi))
              (m_a x + m_size x, ahi, m_b x + m_size x, bhi)
              (push_if ((alo <? m_a x) && (blo <? m_b x))
                 (alo, m_a x, blo, m_b x) queue))
           (matching_blocks ++ [x]).
Proof. reflexivity. Qed.

Lemma match_loop_nil fuel matching_blocks :
  match_loop a b b2j bjunk fuel [] matching_blocks = Some matching_blocks.
Proof. by destruct fuel. Qed.

Lemma match_loop_total fuel :
  ∀ queue matching_blocks,
    Forall rect_ok queue → work queue ≤ fuel →
    ∃ found,
      match_loop a b b2j bjunk fuel queue matching_blocks
        = Some (matching_blocks ++ found)
      ∧ total_size found ≤ awidth queue
      ∧ total_size found ≤ bwidth queue.
Proof.
  induction fuel as [|fuel IH]; intros queue acc Hq Hfuel.
  - destruct queue as [|[[[alo ahi] blo] bhi] queue].
    + exists []. simpl. rewrite app_nil_r. repeat split; unfold total_size; simpl; lia.
    + unfold work in Hfuel; simpl in Hfuel. lia.
  - destruct queue as [|[[[alo ahi] blo] bhi] queue].
    + exists []. simpl. rewrite app_nil_r. repeat split; unfold total_size; simpl; lia.
    + apply Forall_cons in Hq as [[Ha Hb] Hq].
      pose proof (find_longest_match_box a b b2j bjunk alo ahi blo bhi Ha Hb) as Hbox.
      rewrite match_loop_cons.
      set (x := find_longest_match a b b2j bjunk alo ahi blo bhi) in *.
      cbv zeta. clearbody x.
      destruct Hbox as (Hb1 & Hb2 & Hb3 & Hb4).
      assert (Hw : work ((alo, ahi, blo, bhi) :: queue)
                   = 2 * (ahi - alo) + 1 + work queue) by done.
      assert (Haw : awidth ((alo, ahi, blo, bhi) :: queue)
                    = ahi - alo + awidth queue) by done.
      assert (Hbw : bwidth ((alo, ahi, blo, bhi) :: queue)
                    = bhi - blo + bwidth queue) by done.
      destruct (Nat.eqb_spec (m_size x) 0) as [Hk|Hk].
      * destruct (IH queue acc Hq) as (found & E & F1 & F2); [lia|].
        exists found. split; [done|]. lia.
      * set (r1 := (alo, m_a x, blo, m_b x)).
        set (r2 := (m_a x + m_size x, ahi, m_b x + m_size x, bhi)).
        set (c1 := (alo <? m_a x) && (blo <? m_b x)).
        set (c2 := (m_a x + m_size x <? ahi) && (m_b x + m_size x <? bhi)).
        destruct (push_if_measures c1 r1 queue) as (Q1 & W1 & A1 & B1);
          [by unfold r1, rect_ok | done |].
        destruct (push_if_measures c2 r2 (push_if c1 r1 queue))
          as (Q2 & W2 & A2 & B2); [by unfold r2, rect_ok | done |].
        assert (work (r2 :: push_if c1 r1 queue)
                = 2 * (ahi - (m_a x + m_size x)) + 1 + work (push_if c1 r1 queue))
          as W2' by done.
        assert (work (r1 :: queue) = 2 * (m_a x - alo) + 1 + work queue)
          as W1' by done.
        assert (awidth (r2 :: push_if c1 r1 queue)
                = ahi - (m_a x + m_size x) + awidth (push_if c1 r1 queue))
          as A2' by done.
        assert (awidth (r1 :: queue) = m_a x - alo + awidth queue) as A1' by done.
        assert (bwidth (r2 :: push_if c1 r1 queue)
                = bhi - (m_b x + m_size x) + bwidth (push_if c1 r1 queue))
          as B2' by done.
        assert (bwidth (r1 :: queue) = m_b x - blo + bwidth queue) as B1' by done.
        destruct (IH (push_if c2 r2 (push_if c1 r1 queue)) (acc ++ [x]) Q2)
          as (found & E & F1 & F2); [lia|].
        exists (x :: found). split.
        { rewrite E. by rewrite <- app_assoc. }
        change (total_size (x :: found)) with (m_size x + total_size found).
        lia.
Qed.

Lemma match_loop_fuel la lb :
  ∃ found,
    match_loop a b b2j bjunk (2 * la + 1) [(0, la, 0, lb)] [] = Some found
    ∧ total_size found ≤ la ∧ total_size found ≤ lb.
Proof.
  destruct (match_loop_total (2 * la + 1) [(0, la, 0, lb)] [])
    as (found & E & F1 & F2).
  - constructor; [unfold rect_ok; lia | constructor].
  - unfold work; simpl. lia.
  - exists found. split; [done|].
    unfold awidth, bwidth in *; simpl in *. lia.
Qed.
End Termination.

(** ** The ratio lies between 0 and 1 *)

(** Sorting and collapsing adjacent blocks keep the total size. *)
Lemma total_size_perm l1 l2 : l1 ≡ₚ l2 → total_size l1 = total_size l2.
Proof. induction 1; unfold total_size in *; simpl in *; lia. Qed.

Lemma total_size_nil : total_size [] = 0.
Proof. reflexivity. Qed.

Lemma total_size_cons x l : total_size (x :: l) = m_size x + total_size l.
Proof. reflexivity. Qed.

Lemma collapse_fold_size blocks :
  ∀ cur non_adjacent,
    let st := foldl collapse_step (cur, non_adjacent) blocks in
    total_size st.2 + m_size st.1
    = total_size non_adjacent + m_size cur + total_size blocks.
Proof.
  induction blocks as [|x blocks IH]; intros cur na; simpl.
  - rewrite total_size_nil. lia.
  - rewrite total_size_cons. destruct (_ && _); rewrite IH; simpl; [lia|].
    destruct (Nat.eqb_spec (m_size cur) 0) as [E|E]; [lia|].
    rewrite total_size_app, total_size_cons, total_size_nil. lia.
Qed.

Lemma total_size_collapse la lb blocks :
  total_size (collapse la lb blocks) = total_size blocks.
Proof.
  unfold collapse.
  pose proof (collapse_fold_size blocks (mkMatch 0 0 0) []) as Hc.
  simpl in Hc.
  destruct (foldl collapse_step _ blocks) as [cur na]. simpl in Hc.
  rewrite total_size_app, total_size_cons, total_size_nil. simpl.
  destruct (Nat.eqb_spec (m_size cur) 0) as [E|E]; [lia|].
  rewrite total_size_app, total_size_cons, total_size_nil. lia.
Qed.

Lemma Zpos_of_nat n : n ≠ 0 → Z.pos (Pos.of_nat n) = Z.of_nat n.
Proof. intros Hn. by rewrite <- positive_nat_Z, Nat2Pos.id. Qed.

Lemma calculate_ratio_range matches length :
  2 * matches ≤ length → (0 <= _calculate_ratio matches length <= 1)%Q.
Proof.
  intros Hm. unfold _calculate_ratio.
  destruct (Nat.eqb_spec length 0) as [E|E].
  - split; [apply Qle_bool_imp_le; reflexivity | apply Qle_refl].
  - unfold Qle; cbn [Qnum Qden]. rewrite Zpos_of_nat by done. lia.
Qed.

Section RatioFacts.
Context `{Countable A}.

(** The loop of [get_matching_blocks] always ends. *)
Lemma raw_blocks_total (a b : list A) :
  ∃ found, raw_blocks a b = Some found
           ∧ total_size found ≤ length a ∧ total_size found ≤ length b.
Proof. apply match_loop_fuel. Qed.

Lemma matches_le (a b : list A) :
  total_size (get_matching_blocks a b) ≤ length a
  ∧ total_size (get_matching_blocks a b) ≤ length b.
Proof.
  destruct (raw_blocks_total a b) as (found & E & F1 & F2).
  unfold get_matching_blocks. rewrite E; simpl.
  rewrite total_size_collapse.
  rewrite (total_size_perm _ _ (merge_sort_Permutation match_le found)). lia.
Qed.

Lemma ratio_range (a b : list A) : (0 <= ratio a b <= 1)%Q.
Proof.
  unfold ratio. apply calculate_ratio_range.
  destruct (matches_le a b) as [Ha Hb]. unfold total_size in *. lia.
Qed.
End RatioFacts.

(** ** What [__chain_b] stores *)

Section ChainB.
Context `{Countable A}.

Lemma chain_step_inv (pre : list A) m x :
  b2j_inv pre m → b2j_inv (pre ++ [x]) (chain_step m (length pre, x)).
Proof.
  intros Hinv c. unfold chain_step; simpl. destruct (Hinv c) as [Hs Hm].
  destruct (decide (x = c)) as [->|Hne].
  - rewrite lookup_insert_eq; simpl. split.
    + apply StronglySorted_app_2; [|done|repeat constructor].
      intros j1 j2 Hj1 Hj2. apply list_elem_of_singleton in Hj2 as ->.
      apply Hm in Hj1. by apply lookup_lt_Some in Hj1.
    + intros j. rewrite elem_of_app, list_elem_of_singleton, lookup_snoc_Some, Hm.
      naive_solver eauto using lookup_lt_Some.
  - rewrite lookup_insert_ne by done. split; [done|].
    intros j. rewrite Hm, lookup_snoc_Some.
    naive_solver eauto using lookup_lt_Some.
Qed.

Lemma chain_fold_inv (l : list A) :
  ∀ pre m, b2j_inv pre m →
    b2j_inv (pre ++ l) (foldl chain_step m (zip (seq (length pre) (length l)) l)).
Proof.
  induction l as [|x l IH]; intros pre m Hinv; simpl.
  - by rewrite app_nil_r.
  - rewrite cons_middle, app_assoc.
    replace (S (length pre)) with (length (pre ++ [x]))
      by (rewrite length_app; simpl; lia).
    apply IH. by apply chain_step_inv.
Qed.

Lemma b2j_all_inv (b : list A) : b2j_inv b (b2j_all b).
Proof.
  apply (chain_fold_inv b [] ∅). intros c. rewrite lookup_empty; simpl.
  split; [constructor|]. intros j. rewrite elem_of_nil, lookup_nil. naive_solver.
Qed.

Lemma chain_b_ok (b : list A) : b2j_ok b (chain_b b).
Proof.
  assert (b2j_ok b (b2j_all b)) as Hall.
  { intros c js Hl. pose proof (b2j_all_inv b c) as Hc. by rewrite Hl in Hc. }
  unfold chain_b. destruct (200 <=? length b); [|done].
  intros c js Hl. apply map_lookup_filter_Some in Hl as [Hl _]. by apply Hall.
Qed.
End ChainB.

(** ** A sequence compared with itself *)

Section Identity.
Context `{Countable A}.
Variable x : list A.
Variable b2j : gmap A (list nat).
Hypothesis b2j_spec : b2j_ok x b2j.

Local Abbreviation kept := (kept_at x b2j).
Local Abbreviation dg := (diag x b2j).
Local Abbreviation dgp := (diag_prev x b2j).

Lemma diag_unfold i : dg i = if kept i then dgp i + 1 else 0.
Proof. destruct i; reflexivity. Qed.

Lemma j2lenget_diag i j2len best j :
  row_inv x b2j i j2len best → j2lenget j2len j ≤ dgp i ∧ j2lenget j2len j ≤ dgp j.
Proof.
  intros (Ha & _). destruct j as [|j']; simpl; [lia|].
  destruct (j2len !! j') as [k|] eqn:E; simpl; [|lia]. by apply Ha in E.
Qed.

Lemma scan_row_diag i c j2len best0 :
  x !! i = Some c → is_Some (b2j !! c) → row_inv x b2j i j2len best0 →
  ∀ rest newj2len best,
    StronglySorted lt rest → (∀ j, j ∈ rest → x !! j = Some c) →
    cell_inv x b2j i rest newj2len best →
    cell_inv x b2j i [] (scan_row i 0 (length x) j2len rest newj2len best).1
                  (scan_row i 0 (length x) j2len rest newj2len best).2.
Proof.
  intros Hi Hc Hrow.
  assert (kept i = true) as Hki.
  { unfold kept_at. rewrite Hi. by apply bool_decide_eq_true. }
  induction rest as [|j rest IH]; intros new best Hsort Hin Hcell; simpl; [done|].
  assert (x !! j = Some c) as Hj by (apply Hin; left).
  assert (kept j = true) as Hkj.
  { unfold kept_at. rewrite Hj. by apply bool_decide_eq_true. }
  destruct (Nat.leb_spec (length x) j) as [Hge|_].
  { apply lookup_lt_Some in Hj. lia. }
  apply StronglySorted_cons in Hsort as [Hall Hsort].
  rewrite Forall_forall in Hall.
  destruct (j2lenget_diag i j2len best0 j Hrow) as [K1 K2].
  pose proof (diag_unfold i) as Di. rewrite Hki in Di.
  pose proof (diag_unfold j) as Dj. rewrite Hkj in Dj.
  destruct Hcell as (C1 & C2 & C3 & C4).
  apply IH; [done | by intros; apply Hin; right |].
  set (k := j2lenget j2len j + 1) in *.
  assert (∀ j0 k0, <[j:=k]> new !! j0 = Some k0 → k0 ≤ dg i ∧ k0 ≤ dg j0) as C1'.
  { intros j0 k0. rewrite lookup_insert. case_decide as Hd.
    - intros [= <-]. subst j0. unfold k. lia.
    - apply C1. }
  destruct (lt_eq_lt_dec j i) as [[Hlt|Heq]|Hgt].
  - (* an earlier column: the diagonal cell of row [j] was already seen *)
    pose proof (C3 j Hlt) as Hd.
    destruct (Nat.ltb_spec (m_size best) k) as [Hup|_]; [unfold k in Hup; lia|].
    refine (conj C1' (conj C2 (conj C3 _))).
    destruct C4 as [C4|(_ & _ & C4)].
    + left. apply elem_of_cons in C4 as [->|C4]; [lia|done].
    + specialize (C4 j). rewrite elem_of_cons in C4. lia.
  - (* the diagonal cell *)
    subst j. destruct Hrow as (_ & Hb & _).
    assert (k = dg i) as Hk by (unfold k; lia).
    refine (conj C1' (conj _ (conj _ _))).
    + destruct (m_size best <? k); [done|exact C2].
    + intros i' Hi'. specialize (C3 i' Hi').
      destruct (Nat.ltb_spec (m_size best) k); simpl; lia.
    + right. rewrite lookup_insert_eq. refine (conj _ (conj _ _)).
      * by rewrite Hk.
      * destruct (Nat.ltb_spec (m_size best) k); simpl; lia.
      * intros j Hjr. by apply Hall.
  - (* a later column: the diagonal cell of this row was already seen *)
    destruct C4 as [C4|(C4 & C5 & C6)].
    { apply elem_of_cons in C4 as [->|C4]; [lia|]. apply Hall in C4. lia. }
    destruct (Nat.ltb_spec (m_size best) k) as [Hup|_]; [unfold k in Hup; lia|].
    refine (conj C1' (conj C2 (conj C3 _))).
    right. rewrite lookup_insert_ne by lia. refine (conj C4 (conj C5 _)).
    intros j0 Hj0. apply C6. by right.
Qed.

Lemma scan_row_step i j2len best :
  i < length x → row_inv x b2j i j2len best →
  let js := match x !! i with
            | Some c => default [] (b2j !! c)
            | None => []
            end in
  row_inv x b2j (S i) (scan_row i 0 (length x) j2len js ∅ best).1
                (scan_row i 0 (length x) j2len js ∅ best).2.
Proof.
  intros Hi Hrow js. pose proof (diag_unfold i) as Di.
  destruct (kept i) eqn:Hk.
  - unfold kept_at in Hk. destruct (x !! i) as [c|] eqn:Hc; [|done].
    apply bool_decide_eq_true in Hk. destruct Hk as [js0 Hjs].
    subst js. rewrite Hjs; simpl.
    destruct (b2j_spec c js0 Hjs) as [Hsort Hmem].
    pose proof Hrow as (R1 & R2 & R3 & R4).
    destruct (scan_row_diag i c j2len best Hc (ex_intro _ js0 Hjs) Hrow
                js0 ∅ best Hsort) as (C1 & C2 & C3 & C4).
    { intros j Hj. by apply Hmem. }
    { refine (conj _ (conj R3 (conj R4 _))).
      - intros j k. by rewrite lookup_empty.
      - left. by apply Hmem. }
    destruct C4 as [C4|(C4 & C5 & _)]; [by apply elem_of_nil in C4|].
    refine (conj C1 (conj _ (conj C2 _))).
    + simpl. by rewrite C4.
    + intros i' Hi'. destruct (decide (i' = i)) as [->|]; [done|]. apply C3. lia.
  - assert (js = []) as ->.
    { subst js. unfold kept_at in Hk. destruct (x !! i) as [c|]; [|done].
      apply bool_decide_eq_false in Hk. destruct (b2j !! c); [|done].
      destruct Hk. by eexists. }
    simpl. destruct Hrow as (R1 & R2 & R3 & R4).
    refine (conj _ (conj _ (conj R3 _))).
    + intros j k. by rewrite lookup_empty.
    + simpl. rewrite ?lookup_empty. simpl. lia.
    + intros i' Hi'. destruct (decide (i' = i)) as [->|]; [lia|]. apply R4. lia.
Qed.

Lemma scan_rows_diag m :
  ∀ i j2len best,
    i + m = length x → row_inv x b2j i j2len best →
    let r := scan_rows x b2j 0 (length x) (seq i m) j2len best in
    m_a r = m_b r.
Proof.
  induction m as [|m IH]; intros i j2len best Hlen Hrow; simpl.
  - by destruct Hrow as (_ & _ & ? & _).
  - apply IH; [lia|]. apply scan_row_step; [lia|done].
Qed.

Lemma same_elt_diag i : i < length x → same_elt x x i i = true.
Proof.
  intros Hi. unfold same_elt.
  destruct (lookup_lt_is_Some_2 x i Hi) as [c ->]. by apply bool_decide_eq_true.
Qed.

Lemma junk_at_empty j : junk_at x ∅ j = false.
Proof. unfold junk_at, isbjunk. by destruct (x !! j). Qed.

Lemma extend_back_diag d :
  ∀ s, d ≤ length x → extend_back x x ∅ false 0 0 d d s = mkMatch 0 0 (s + d).
Proof.
  induction d as [|d IH]; intros s Hd; simpl.
  - by rewrite Nat.add_0_r.
  - rewrite Nat.sub_0_r, junk_at_empty, same_elt_diag by lia. simpl.
    rewrite IH by lia. f_equal. lia.
Qed.

Lemma extend_fwd_diag room :
  ∀ s, s + room = length x →
    extend_fwd x x ∅ false (length x) 0 0 room s = length x.
Proof.
  induction room as [|room IH]; intros s Hs; simpl; [lia|].
  rewrite junk_at_empty, same_elt_diag by lia.
  destruct (Nat.ltb_spec s (length x)); [|lia]. simpl. apply IH. lia.
Qed.

Lemma find_longest_match_self :
  find_longest_match x x b2j ∅ 0 (length x) 0 (length x)
  = mkMatch 0 0 (length x).
Proof.
  unfold find_longest_match. rewrite Nat.sub_0_r.
  set (best := scan_rows _ _ _ _ _ _ _).
  assert (m_a best = m_b best) as Hd.
  { apply scan_rows_diag; [done|].
    refine (conj _ (conj eq_refl (conj eq_refl _))).
    - intros j k. by rewrite lookup_empty.
    - intros; lia. }
  assert (in_box 0 (length x) 0 (length x) best) as (_ & Hb & _).
  { pose proof (scan_rows_box x b2j 0 (length x) 0 (length x) (length x)
                  0 ∅ (mkMatch 0 0 0)) as Hbox.
    apply Hbox; [lia | lia | apply len_ok_empty | apply in_box_start; lia]. }
  destruct best as [d d' s]; simpl in *. subst d'.
  unfold extend at 2; simpl. rewrite extend_back_diag by lia. simpl.
  rewrite extend_fwd_diag by lia.
  unfold extend; simpl. by rewrite Nat.sub_diag.
Qed.
End Identity.

Section RatioSelf.
Context `{Countable A}.

Lemma raw_blocks_self (x : list A) :
  raw_blocks x x
  = Some (if length x =? 0 then [] else [mkMatch 0 0 (length x)]).
Proof.
  unfold raw_blocks. replace (2 * length x + 1) with (S (2 * length x)) by lia.
  rewrite match_loop_cons.
  rewrite (find_longest_match_self x (chain_b x) (chain_b_ok x)).
  cbv zeta. cbn [m_a m_b m_size]. destruct (length x =? 0).
  - apply match_loop_nil.
  - rewrite Nat.ltb_irrefl, Nat.add_0_l, Nat.ltb_irrefl. simpl.
    apply match_loop_nil.
Qed.

Lemma matches_self (x : list A) :
  total_size (get_matching_blocks x x) = length x.
Proof.
  unfold get_matching_blocks. rewrite raw_blocks_self; simpl.
  rewrite total_size_collapse.
  rewrite (total_size_perm _ _ (merge_sort_Permutation match_le _)).
  destruct (Nat.eqb_spec (length x) 0) as [E|E]; [by rewrite E|].
  rewrite total_size_cons, total_size_nil. simpl. lia.
Qed.

Lemma ratio_self (x : list A) : (ratio x x == 1)%Q.
Proof.
  unfold ratio. fold (total_size (get_matching_blocks x x)).
  rewrite matches_self. unfold _calculate_ratio.
  destruct (Nat.eqb_spec (length x + length x) 0) as [E|E]; [reflexivity|].
  unfold Qeq; cbn [Qnum Qden]. rewrite Zpos_of_nat by done. lia.
Qed.
End RatioSelf.

End DifflibFacts.

(** * Properties of the services *)

(** ** Strings and ratios *)

Lemma lower_char_idem c : lower_char (lower_char c) = lower_char c.
Proof. by destruct c as [[] [] [] [] [] [] [] []]. Qed.

Lemma lower_idem s : lower (lower s) = lower s.
Proof. induction s as [|c s IH]; simpl; [done|]. by rewrite lower_char_idem, IH. Qed.

(** [lower_char] against [chr(n).lower()] for every [n] below 256. *)
Example lower_char_table :
  (λ n, nat_of_ascii (lower_char (ascii_of_nat n))) <$> seq 0 256
  = [
      0; 1; 2; 3; 4; 5; 6; 7; 8; 9; 10; 11; 12; 13; 14; 15;
      16; 17; 18; 19; 20; 21; 22; 23; 24; 25; 26; 27; 28; 29; 30; 31;
      32; 33; 34; 35; 36; 37; 38; 39; 40; 41; 42; 43; 44; 45; 46; 47;
      48; 49; 50; 51; 52; 53; 54; 55; 56; 57; 58; 59; 60; 61; 62; 63;
      64; 97; 98; 99; 100; 101; 102; 103; 104; 105; 106; 107; 108; 109; 110; 111;
      112; 113; 114; 115; 116; 117; 118; 119; 120; 121; 122; 91; 92; 93; 94; 95;
      96; 97; 98; 99; 100; 101; 102; 103; 104; 105; 106; 107; 108; 109; 110; 111;
      112; 113; 114; 115; 116; 117; 118; 119; 120; 121; 122; 123; 124; 125; 126; 127;
      128; 129; 130; 131; 132; 133; 134; 135; 136; 137; 138; 139; 140; 141; 142; 143;
      144; 145; 146; 147; 148; 149; 150; 151; 152; 153; 154; 155; 156; 157; 158; 159;
      160; 161; 162; 163; 164; 165; 166; 167; 168; 169; 170; 171; 172; 173; 174; 175;
      176; 177; 178; 179; 180; 181; 182; 183; 184; 185; 186; 187; 188; 189; 190; 191;
      224; 225; 226; 227; 228; 229; 230; 231; 232; 233; 234; 235; 236; 237; 238; 239;
      240; 241; 242; 243; 244; 245; 246; 215; 248; 249; 250; 251; 252; 253; 254; 223;
      224; 225; 226; 227; 228; 229; 230; 231; 232; 233; 234; 235; 236; 237; 238; 239;
      240; 241; 242; 243; 244; 245; 246; 247; 248; 249; 250; 251; 252; 253; 254; 255 ].
Proof. vm_compute. reflexivity. Qed.

(** Case beyond [A-Z]: the two spellings of "café" are equal up to
    case, their ratio is 1, the track of one is available under the
    other, and Jellyfin takes the first of two albums that differ only
    in case. *)
Example latin1_case :
  lower MoreSamples.CAFE_acute = MoreSamples.cafe_acute
  ∧ (_similarity_ratio MoreSamples.CAFE_acute MoreSamples.cafe_acute == 1)%Q
  ∧ Jellyfin.check_album_in_library MoreSamples.latin1_jellyfin
      MoreSamples.cafe_acute "Michael Jackson"
      [ Samples.track MoreSamples.cafe_acute ]
    = {| in_library := true;
         match_type := exact;
         match_confidence := 1;
         available_tracks := [ MoreSamples.cafe_acute ];
         missing_tracks := [];
         library_album_id := Some "1";
         library_album_name := Some MoreSamples.CAFE_acute |}.
Proof. split; [|split]; vm_compute; reflexivity. Qed.

(** The same in Plex: the first of two artists that differ only in case
    is found, the albums of the artist are kept, the first of the three
    albums is an exact match and, having as many tracks as Spotify, the
    one chosen; a library track is available under the other case. *)
Example latin1_plex_case :
  Plex.search_artist_in_library MoreSamples.latin1_plex "2" MoreSamples.e_acute
  = Some {| Plex.artist_title := MoreSamples.E_acute |}
  ∧ length (Plex.get_artist_albums MoreSamples.latin1_plex "2" MoreSamples.e_acute)
    = 3
  ∧ (let r := Plex.check_album_in_library MoreSamples.latin1_plex
                MoreSamples.e_acute MoreSamples.e_acute Samples.three_tracks in
     match_type r = exact ∧ library_album_id r = Some "/a")
  ∧ Plex.reconcile_tracks [ {| Plex.track_title := MoreSamples.e_acute |} ]
      [ Samples.track MoreSamples.E_acute ]
    = ([ MoreSamples.E_acute ], []).
Proof. repeat split; vm_compute; reflexivity. Qed.

Lemma Qge_bool_iff x y : Qge_bool x y = true ↔ (y <= x)%Q.
Proof. apply Qle_bool_iff. Qed.

Lemma Qlt_bool_iff x y : Qlt_bool x y = true ↔ (x < y)%Q.
Proof.
  unfold Qlt_bool. rewrite negb_true_iff, <- not_true_iff_false, Qle_bool_iff.
  split; [apply Qnot_le_lt | apply Qlt_not_le].
Qed.

Lemma Qlt_bool_false x y : Qlt_bool x y = false → (y <= x)%Q.
Proof.
  unfold Qlt_bool. rewrite negb_false_iff. apply Qle_bool_iff.
Qed.

Lemma similarity_lower_r s1 s2 :
  _similarity_ratio s1 (lower s2) = _similarity_ratio s1 s2.
Proof. unfold _similarity_ratio. by rewrite lower_idem. Qed.

Lemma similarity_range s1 s2 : (0 <= _similarity_ratio s1 s2 <= 1)%Q.
Proof. apply DifflibFacts.ratio_range. Qed.

(** ** The similarity scan keeps the first best candidate *)

Lemma similarity_fold_spec {X} (title : X → string) target (rest : list X) :
  ∀ seen best best_ratio,
    first_best title target seen best best_ratio →
    first_best title target (seen ++ rest)
      (foldl (similarity_step title target) (best, best_ratio) rest).1
      (foldl (similarity_step title target) (best, best_ratio) rest).2.
Proof.
  induction rest as [|x rest IH]; intros seen best r Hseen; simpl.
  - by rewrite app_nil_r.
  - rewrite cons_middle, app_assoc.
    set (st := similarity_step title target (best, r) x).
    rewrite (surjective_pairing st). apply IH.
    destruct Hseen as [Hmax Hbest]. unfold st, similarity_step; simpl.
    set (q := _similarity_ratio (title x) target).
    destruct (Qlt_bool r q) eqn:E; simpl.
    + apply Qlt_bool_iff in E. split.
      * intros y Hy. apply elem_of_app in Hy as [Hy|Hy].
        -- eapply Qle_trans; [by apply Hmax | by apply Qlt_le_weak].
        -- apply list_elem_of_singleton in Hy as ->. apply Qle_refl.
      * exists seen, []. refine (conj eq_refl (conj eq_refl (conj _ _))).
        -- destruct best as [b|]; [|by subst r].
           destruct Hbest as (? & ? & _ & _ & Hpos & _).
           by eapply Qlt_trans.
        -- intros y Hy. eapply Qle_lt_trans; [by apply Hmax | done].
    + apply Qlt_bool_false in E. split.
      * intros y Hy. apply elem_of_app in Hy as [Hy|Hy]; [by apply Hmax|].
        by apply list_elem_of_singleton in Hy as ->.
      * destruct best as [b|]; [|done].
        destruct Hbest as (pre & post & -> & Hr & Hpos & Hpre).
        exists pre, (post ++ [x]). by rewrite <- app_assoc.
Qed.

Lemma similarity_scan_spec {X} (title : X → string) target (xs : list X) :
  first_best title target xs
    (similarity_scan title target xs).1 (similarity_scan title target xs).2.
Proof.
  apply (similarity_fold_spec title target xs [] None 0%Q).
  split; [|done]. intros y Hy. by apply elem_of_nil in Hy.
Qed.

Lemma similarity_scan_threshold {X} (title : X → string) target (xs : list X) t :
  (0 < t)%Q → (t <= (similarity_scan title target xs).2)%Q →
  ∃ x, (similarity_scan title target xs).1 = Some x.
Proof.
  intros Ht Hge. destruct (similarity_scan_spec title target xs) as [_ Hb].
  destruct (similarity_scan title target xs).1 as [x|]; [by eexists|].
  simpl in *. rewrite Hb in Hge. exfalso. by eapply Qlt_not_le.
Qed.

(** ** The track comparison *)

Lemma compare_fold (names : gset string) (tracks : list SpotifyTrack) :
  ∀ available missing,
    foldl (compare_step names) (available, missing) tracks
    = (available ++ filter (λ n, track_available names n) (name <$> tracks),
       missing ++ filter (λ n, ¬ track_available names n) (name <$> tracks)).
Proof.
  induction tracks as [|t tracks IH]; intros av mi; simpl.
  - by rewrite !app_nil_r.
  - unfold compare_step at 2; simpl. rewrite !filter_cons.
    destruct (track_available names (name t)) eqn:E; rewrite IH; simpl;
      by rewrite <- app_assoc.
Qed.

Lemma compare_tracks_filter (names : gset string) (tracks : list SpotifyTrack) :
  compare_tracks names tracks
  = (filter (λ n, track_available names n) (name <$> tracks),
     filter (λ n, ¬ track_available names n) (name <$> tracks)).
Proof. unfold compare_tracks. by rewrite compare_fold. Qed.

Lemma track_available_spec (titles : list string) track_name :
  track_available (list_to_set (lower <$> titles)) track_name = true
  ↔ in_library_titles titles track_name.
Proof.
  unfold track_available, in_library_titles.
  case_bool_decide as Hin; rewrite elem_of_list_to_set in Hin.
  - naive_solver.
  - rewrite existsb_exists. split.
    + intros (ln & Hln & Hr). right.
      apply list_elem_of_In, elem_of_elements, elem_of_list_to_set,
        list_elem_of_fmap in Hln as (title & -> & Ht).
      exists title. split; [done|].
      apply Qge_bool_iff in Hr. by rewrite similarity_lower_r in Hr.
    + intros [?|(title & Ht & Hr)]; [done|].
      exists (lower title). split.
      * apply list_elem_of_In, elem_of_elements, elem_of_list_to_set,
          list_elem_of_fmap. by exists title.
      * apply Qge_bool_iff. by rewrite similarity_lower_r.
Qed.

(** The scenario of a release whose album is in the library with one
    track under a slightly different title and one track absent. *)
Example thriller_scenario :
  Plex.check_album_in_library Samples.thriller_plex
    "Thriller" "Michael Jackson" Samples.thriller_tracks
  = {| in_library := true;
       match_type := exact;
       match_confidence := 1;
       available_tracks := [ "Wanna Be Startin' Somethin'"; "Billie Jean" ];
       missing_tracks := [ "Thriller" ];
       library_album_id := Some "/library/metadata/10/children";
       library_album_name := Some "Thriller" |}.
Proof. vm_compute. reflexivity. Qed.

(** ** The similarity ratio (claim C7) *)

(** C7, as amended: for all strings [a] and [b] the similarity ratio lies
    in [0, 1], is unchanged when either argument is replaced by a string
    that differs from it only in the case of its letters, and is 1 for a
    string compared with itself.  Symmetry is not part of the
    contract. *)
Theorem similarity_contract (a b a' b' : string) :
  lower a' = lower a → lower b' = lower b →
  (0 <= _similarity_ratio a b <= 1)%Q
  ∧ _similarity_ratio a' b' = _similarity_ratio a b
  ∧ (_similarity_ratio a a == 1)%Q.
Proof.
  intros Ha Hb. split; [apply similarity_range|]. split.
  - unfold _similarity_ratio. by rewrite Ha, Hb.
  - apply DifflibFacts.ratio_self.
Qed.

Lemma similarity_contract_witness :
  (0 <= _similarity_ratio "Tide" "diet" <= 1)%Q
  ∧ _similarity_ratio "TIDE" "DIET" = _similarity_ratio "Tide" "diet"
  ∧ (_similarity_ratio "Tide" "Tide" == 1)%Q.
Proof. apply (similarity_contract "Tide" "diet" "TIDE" "DIET"); reflexivity. Defined.

(** C7, as stated, fails: the ratio depends on the order of its
    arguments. *)
Lemma similarity_not_symmetric :
  _similarity_ratio "tide" "diet" = (2 # 8)%Q
  ∧ _similarity_ratio "diet" "tide" = (4 # 8)%Q
  ∧ ¬ (_similarity_ratio "tide" "diet" == _similarity_ratio "diet" "tide")%Q.
Proof.
  assert (_similarity_ratio "tide" "diet" = (2 # 8)%Q) as E1 by (vm_compute; reflexivity).
  assert (_similarity_ratio "diet" "tide" = (4 # 8)%Q) as E2 by (vm_compute; reflexivity).
  rewrite E1, E2. repeat split. intros Heq. discriminate Heq.
Qed.

(** ** The two track lists of a result *)

Lemma split_of_not_found names : split_of names [] names.
Proof.
  exists (λ _, false). split.
  - induction names as [|n names IH]; [done|]. by rewrite filter_cons.
  - induction names as [|n names IH]; [done|].
    rewrite filter_cons, decide_True by naive_solver. by f_equal.
Qed.

Lemma split_of_compare (library_track_names : gset string) tracks :
  split_of (name <$> tracks)
    (compare_tracks library_track_names tracks).1
    (compare_tracks library_track_names tracks).2.
Proof.
  exists (track_available library_track_names). by rewrite compare_tracks_filter.
Qed.

Lemma split_of_elem names available missing n :
  split_of names available missing →
  (n ∈ available ∨ n ∈ missing ↔ n ∈ names) ∧ ¬ (n ∈ available ∧ n ∈ missing).
Proof.
  intros (test & -> & ->). rewrite !list_elem_of_filter.
  destruct (test n); simpl; naive_solver.
Qed.

Lemma split_of_occurrences names available missing n :
  split_of names available missing →
  occurrences n available + occurrences n missing = occurrences n names.
Proof.
  intros (test & -> & ->). unfold occurrences.
  induction names as [|m names IH]; [done|].
  rewrite !filter_cons. destruct (test m); simpl;
    rewrite ?filter_cons; destruct (decide (m = n)); simpl; lia.
Qed.

(** ** Shape of the results *)

Lemma plex_check_library_result self album_name artist_name tracks library r :
  Plex.check_library self album_name artist_name tracks library = Some r →
  in_library r = true
  ∧ match_type r ≠ none
  ∧ (match_type r = exact → match_confidence r = 1%Q)
  ∧ ∃ plex_tracks,
      available_tracks r = (Plex.reconcile_tracks plex_tracks tracks).1
      ∧ missing_tracks r = (Plex.reconcile_tracks plex_tracks tracks).2.
Proof.
  unfold Plex.check_library.
  destruct (Plex.search_artist_in_library _ _ _) as [artist|]; [|done].
  destruct (Plex.get_artist_albums _ _ _) as [|al albums]; [done|].
  destruct (Plex.match_album _ _ _ _) as [[[matched|] exact_matches] best_ratio];
    [|done].
  set (plex_tracks := Plex.get_album_tracks self (Plex.album_key matched)).
  destruct (Plex.reconcile_tracks plex_tracks tracks) as [av mi] eqn:E.
  intros [= <-]; simpl.
  refine (conj eq_refl (conj _ (conj _ _))).
  - by destruct (0 <? length exact_matches).
  - by destruct (0 <? length exact_matches).
  - exists plex_tracks. by rewrite E.
Qed.

Lemma plex_search_libraries_Some self album_name artist_name tracks libraries r :
  Plex.search_libraries self album_name artist_name tracks libraries = Some r →
  ∃ library, library ∈ libraries
    ∧ Plex.check_library self album_name artist_name tracks library = Some r.
Proof.
  induction libraries as [|library rest IH]; simpl; [done|].
  destruct (Plex.check_library _ _ _ _ library) as [r'|] eqn:E.
  - intros [= <-]. exists library. split; [left|done].
  - intros Hs. destruct (IH Hs) as (l & Hl & Hc). exists l. split; [by right|done].
Qed.

Lemma plex_result_cases self album_name artist_name tracks :
  Plex.check_album_in_library self album_name artist_name tracks
    = not_found 0 tracks
  ∨ ∃ library, library ∈ Plex.get_music_libraries self
      ∧ Plex.check_library self album_name artist_name tracks library
        = Some (Plex.check_album_in_library self album_name artist_name tracks).
Proof.
  unfold Plex.check_album_in_library.
  destruct (Plex.get_music_libraries self) as [|l ls]; [by left|].
  destruct (Plex.search_libraries _ _ _ _ (l :: ls)) as [r|] eqn:E; [|by left].
  right. by apply plex_search_libraries_Some.
Qed.

Lemma jellyfin_result_cases self album_name artist_name tracks :
  ∀ r, r = Jellyfin.check_album_in_library self album_name artist_name tracks →
  (∃ confidence, r = not_found confidence tracks)
  ∨ (in_library r = true
     ∧ match_type r ≠ none
     ∧ (match_type r = exact → match_confidence r = 1%Q)
     ∧ ∃ jf_tracks,
         available_tracks r = (Jellyfin.reconcile_tracks jf_tracks tracks).1
         ∧ missing_tracks r = (Jellyfin.reconcile_tracks jf_tracks tracks).2).
Proof.
  intros r ->. unfold Jellyfin.check_album_in_library.
  destruct (Jellyfin.get_artist_items self artist_name) as [|al albums];
    [left; by eexists|].
  destruct (Jellyfin.match_album _ _) as [[exact_match best_match] best_ratio].
  set (matched := match exact_match with Some _ => _ | None => _ end).
  destruct matched as [matched_album|]; [|left; by eexists].
  set (jf_tracks := Jellyfin.get_album_tracks self (Jellyfin.Id matched_album)).
  destruct (Jellyfin.reconcile_tracks jf_tracks tracks) as [av mi] eqn:E.
  right; simpl. refine (conj eq_refl (conj _ (conj _ _))).
  - by destruct exact_match.
  - by destruct exact_match.
  - exists jf_tracks. by rewrite E.
Qed.

Lemma split_of_sets names available missing :
  split_of names available missing →
  list_to_set available ∪ list_to_set missing = (list_to_set names : gset string)
  ∧ (list_to_set available : gset string) ## list_to_set missing.
Proof.
  intros Hs. split.
  - apply set_eq. intros n. rewrite elem_of_union, !elem_of_list_to_set.
    apply (split_of_elem _ _ _ n Hs).
  - apply elem_of_disjoint. intros n. rewrite !elem_of_list_to_set.
    intros ? ?. by apply (split_of_elem _ _ _ n Hs).
Qed.

Lemma not_found_valid confidence tracks :
  result_valid tracks (not_found confidence tracks).
Proof.
  split; [apply split_of_sets, split_of_not_found|]. by split.
Qed.

Lemma result_split_plex self album_name artist_name tracks :
  ∀ r, r = Plex.check_album_in_library self album_name artist_name tracks →
  split_of (name <$> tracks) (available_tracks r) (missing_tracks r).
Proof.
  intros r ->.
  destruct (plex_result_cases self album_name artist_name tracks)
    as [->|(library & _ & Hr)]; [apply split_of_not_found|].
  apply plex_check_library_result in Hr as (_ & _ & _ & plex_tracks & -> & ->).
  apply split_of_compare.
Qed.

Lemma result_split_jellyfin self album_name artist_name tracks :
  ∀ r, r = Jellyfin.check_album_in_library self album_name artist_name tracks →
  split_of (name <$> tracks) (available_tracks r) (missing_tracks r).
Proof.
  intros r Hr.
  destruct (jellyfin_result_cases self album_name artist_name tracks r Hr)
    as [[c ->]|(_ & _ & _ & jf_tracks & -> & ->)]; [apply split_of_not_found|].
  apply split_of_compare.
Qed.

Lemma plex_result_valid self album_name artist_name tracks :
  result_valid tracks
    (Plex.check_album_in_library self album_name artist_name tracks).
Proof.
  split; [by eapply split_of_sets, result_split_plex|].
  destruct (plex_result_cases self album_name artist_name tracks)
    as [->|(library & _ & Hr)]; [by split|].
  apply plex_check_library_result in Hr as (_ & Hn & He & _). by split.
Qed.

Lemma jellyfin_result_valid self album_name artist_name tracks :
  result_valid tracks
    (Jellyfin.check_album_in_library self album_name artist_name tracks).
Proof.
  split; [by eapply split_of_sets, result_split_jellyfin|].
  destruct (jellyfin_result_cases self album_name artist_name tracks
              _ eq_refl) as [[c ->]|(_ & Hn & He & _)]; by split.
Qed.

(** ** Invariants of the result (claim C2) *)

(** C2: every result returned by [check_album_in_library], of either
    service, satisfies: the names in [available_tracks] together with the
    names in [missing_tracks] are exactly the canonical track names, and
    no name is in both; match type [none] implies [in_library] is false,
    [available_tracks] is empty and [missing_tracks] holds all canonical
    names; match type [exact] implies confidence 1.0. *)
Theorem result_invariants
    (plex : Plex.PlexService) (jellyfin : Jellyfin.JellyfinService)
    (album_name artist_name : string) (tracks : list SpotifyTrack) :
  result_valid tracks
    (Plex.check_album_in_library plex album_name artist_name tracks)
  ∧ result_valid tracks
      (Jellyfin.check_album_in_library jellyfin album_name artist_name tracks).
Proof.
  split; [apply plex_result_valid | apply jellyfin_result_valid].
Qed.

(** ** Track reconciliation (claims C6 and C10) *)

Lemma compare_elem (titles : list string) tracks (t : SpotifyTrack) :
  t ∈ tracks →
  let r := compare_tracks (list_to_set (lower <$> titles)) tracks in
  (name t ∈ r.1 ↔ in_library_titles titles (name t))
  ∧ (name t ∈ r.2 ↔ ¬ in_library_titles titles (name t)).
Proof.
  intros Ht. cbv zeta. rewrite compare_tracks_filter; simpl.
  assert (name t ∈ name <$> tracks) as Hn by (apply list_elem_of_fmap; eauto).
  rewrite !list_elem_of_filter, <- track_available_spec.
  rewrite <- Is_true_true. naive_solver.
Qed.

(** C6: for every canonical track [t] and every list of library tracks,
    [t] is filed as available if and only if its lower-cased name is one
    of the lower-cased library titles, or some library title has a
    similarity of at least 0.90 with its name; otherwise it is filed as
    missing.  This holds for the comparison of both services. *)
Theorem track_classification
    (plex_tracks : list Plex.Track) (jf_tracks : list Jellyfin.Item)
    (tracks : list SpotifyTrack) (t : SpotifyTrack) :
  t ∈ tracks →
  let plex_titles := Plex.track_title <$> plex_tracks in
  let jf_titles := Jellyfin.Name <$> jf_tracks in
  let p := Plex.reconcile_tracks plex_tracks tracks in
  let j := Jellyfin.reconcile_tracks jf_tracks tracks in
  ((name t ∈ p.1 ↔ in_library_titles plex_titles (name t))
   ∧ (name t ∈ p.2 ↔ ¬ in_library_titles plex_titles (name t)))
  ∧ ((name t ∈ j.1 ↔ in_library_titles jf_titles (name t))
     ∧ (name t ∈ j.2 ↔ ¬ in_library_titles jf_titles (name t))).
Proof.
  intros Ht. cbv zeta. unfold Plex.reconcile_tracks, Jellyfin.reconcile_tracks.
  replace ((λ track, lower (Plex.track_title track)) <$> plex_tracks)
    with (lower <$> (Plex.track_title <$> plex_tracks))
    by (by rewrite <- list_fmap_compose).
  replace ((λ track, lower (Jellyfin.Name track)) <$> jf_tracks)
    with (lower <$> (Jellyfin.Name <$> jf_tracks))
    by (by rewrite <- list_fmap_compose).
  split; by apply compare_elem.
Qed.

Lemma track_classification_witness :
  let t := Samples.track "Wanna Be Startin' Somethin'" in
  let plex_tracks :=
    [ {| Plex.track_title := "Wanna Be Startin Somethin" |};
      {| Plex.track_title := "Beat It" |} ] in
  let jf_tracks := [ {| Jellyfin.Id := "7"; Jellyfin.Name := "BEAT IT" |} ] in
  let p := Plex.reconcile_tracks plex_tracks Samples.thriller_tracks in
  let j := Jellyfin.reconcile_tracks jf_tracks Samples.thriller_tracks in
  ((name t ∈ p.1 ↔ in_library_titles (Plex.track_title <$> plex_tracks) (name t))
   ∧ (name t ∈ p.2 ↔ ¬ in_library_titles (Plex.track_title <$> plex_tracks) (name t)))
  ∧ ((name t ∈ j.1 ↔ in_library_titles (Jellyfin.Name <$> jf_tracks) (name t))
     ∧ (name t ∈ j.2 ↔ ¬ in_library_titles (Jellyfin.Name <$> jf_tracks) (name t))).
Proof.
  apply (track_classification
           [ {| Plex.track_title := "Wanna Be Startin Somethin" |};
             {| Plex.track_title := "Beat It" |} ]
           [ {| Jellyfin.Id := "7"; Jellyfin.Name := "BEAT IT" |} ]
           Samples.thriller_tracks
           (Samples.track "Wanna Be Startin' Somethin'")).
  left.
Defined.

(** C10, as amended: the track comparison keeps repetitions.  In the
    result of either service a name that occurs [k] times among the
    canonical tracks occurs [k] times in [available_tracks] and
    [missing_tracks] together, and never in both lists. *)
Theorem duplicate_names_kept
    (plex : Plex.PlexService) (jellyfin : Jellyfin.JellyfinService)
    (album_name artist_name : string) (tracks : list SpotifyTrack) (n : string) :
  let p := Plex.check_album_in_library plex album_name artist_name tracks in
  let j := Jellyfin.check_album_in_library jellyfin album_name artist_name tracks in
  (occurrences n (available_tracks p) + occurrences n (missing_tracks p)
     = occurrences n (name <$> tracks)
   ∧ ¬ (n ∈ available_tracks p ∧ n ∈ missing_tracks p))
  ∧ (occurrences n (available_tracks j) + occurrences n (missing_tracks j)
       = occurrences n (name <$> tracks)
     ∧ ¬ (n ∈ available_tracks j ∧ n ∈ missing_tracks j)).
Proof.
  cbv zeta.
  pose proof (result_split_plex plex album_name artist_name tracks _ eq_refl) as Hp.
  pose proof (result_split_jellyfin jellyfin album_name artist_name tracks _ eq_refl)
    as Hj.
  split; (split; [by apply split_of_occurrences | by eapply split_of_elem]).
Qed.

(** C10, as stated, fails: a canonical list with the name "Intro" twice
    yields a result list with "Intro" twice. *)
Lemma duplicate_names_not_collapsed :
  let tracks := [ Samples.track "Intro"; Samples.track "Song"; Samples.track "Intro" ] in
  let plex :=
    Samples.plex [ Samples.plex_album "Album" "/library/metadata/5/children" ]
                 (λ _, Samples.plex_tracks [ "Intro" ]) in
  let jellyfin :=
    Samples.jellyfin [ {| Jellyfin.Id := "5"; Jellyfin.Name := "Album" |} ]
                     (λ _, Ok []) in
  available_tracks
    (Plex.check_album_in_library plex "Album" "Michael Jackson" tracks)
    = [ "Intro"; "Intro" ]
  ∧ missing_tracks
      (Jellyfin.check_album_in_library jellyfin "Album" "Michael Jackson" tracks)
    = [ "Intro"; "Song"; "Intro" ].
Proof. split; vm_compute; reflexivity. Qed.

(** ** No music library (claim C8) *)

Lemma plex_unconfigured_no_libraries self :
  Plex.unconfigured self = true → Plex.get_music_libraries self = [].
Proof. intros Hu. unfold Plex.get_music_libraries. by rewrite Hu. Qed.

Lemma plex_sections_error self :
  Plex.sections (Plex.server self) = Raised → Plex.get_music_libraries self = [].
Proof.
  intros E. unfold Plex.get_music_libraries. rewrite E.
  by destruct (Plex.unconfigured self).
Qed.

(** C8: when the provider reports no music library, which includes the
    provider being unconfigured, [check_album_in_library] returns the
    result with [in_library] false, match type [none], confidence 0.0,
    no available track and all canonical track names missing. *)
Theorem no_music_library (self : Plex.PlexService)
    (album_name artist_name : string) (tracks : list SpotifyTrack) :
  Plex.unconfigured self = true ∨ Plex.get_music_libraries self = [] →
  Plex.check_album_in_library self album_name artist_name tracks
  = {| in_library := false;
       match_type := none;
       match_confidence := 0;
       available_tracks := [];
       missing_tracks := name <$> tracks;
       library_album_id := None;
       library_album_name := None |}.
Proof.
  intros Hno.
  assert (Plex.get_music_libraries self = []) as E.
  { destruct Hno as [Hu|E]; [by apply plex_unconfigured_no_libraries|done]. }
  unfold Plex.check_album_in_library. by rewrite E.
Qed.

Lemma no_music_library_witness :
  Plex.check_album_in_library Samples.plex_unconfigured
    "Thriller" "Michael Jackson" Samples.thriller_tracks
  = {| in_library := false;
       match_type := none;
       match_confidence := 0;
       available_tracks := [];
       missing_tracks := [ "Wanna Be Startin' Somethin'"; "Billie Jean"; "Thriller" ];
       library_album_id := None;
       library_album_name := None |}.
Proof.
  apply (no_music_library Samples.plex_unconfigured
           "Thriller" "Michael Jackson" Samples.thriller_tracks).
  left. reflexivity.
Defined.

(** ** Album matching in one Plex library *)

Lemma track_diff_fold self tracks (rest : list Plex.Album) :
  ∀ seen best,
    nearest_first (track_diff self tracks) seen best →
    ∃ album,
      foldl (Plex.track_diff_step self (length tracks))
        (Some (best, track_diff self tracks best)) rest
      = Some (album, track_diff self tracks album)
      ∧ nearest_first (track_diff self tracks) (seen ++ rest) album.
Proof.
  induction rest as [|y rest IH]; intros seen best Hbest; simpl.
  - exists best. by rewrite app_nil_r.
  - rewrite cons_middle, app_assoc.
    fold (track_diff self tracks y).
    destruct Hbest as (pre & post & -> & Hpre & Hpost).
    destruct (Z.ltb_spec (track_diff self tracks y) (track_diff self tracks best))
      as [Hlt|Hge].
    + apply IH. exists (pre ++ best :: post), [].
      refine (conj eq_refl (conj _ _)); [|by intros ? ?%elem_of_nil].
      intros z Hz. apply elem_of_app in Hz as [Hz|Hz].
      * specialize (Hpre z Hz). lia.
      * apply elem_of_cons in Hz as [->|Hz]; [done|]. specialize (Hpost z Hz). lia.
    + apply IH. exists pre, (post ++ [y]). rewrite <- app_assoc.
      refine (conj eq_refl (conj Hpre _)).
      intros z Hz. apply elem_of_app in Hz as [Hz|Hz]; [by apply Hpost|].
      by apply list_elem_of_singleton in Hz as ->.
Qed.

Lemma closest_by_track_count_spec self tracks (exact_matches : list Plex.Album) :
  exact_matches ≠ [] →
  ∃ album,
    Plex.closest_by_track_count self (length tracks) exact_matches = Some album
    ∧ nearest_first (track_diff self tracks) exact_matches album.
Proof.
  destruct exact_matches as [|first rest]; [done|]. intros _.
  unfold Plex.closest_by_track_count; simpl.
  fold (track_diff self tracks first).
  destruct (track_diff_fold self tracks rest [first] first) as (album & E & Hn).
  { exists [], []. refine (conj eq_refl (conj _ _)); by intros ? ?%elem_of_nil. }
  exists album. by rewrite E.
Qed.

Lemma plex_match_album_single self album_name tracks albums album :
  filter (λ al, lower (Plex.album_title al) = lower album_name) albums = [album] →
  Plex.match_album self album_name tracks albums = (Some album, [album], None).
Proof. intros Hf. unfold Plex.match_album. by rewrite Hf. Qed.

Lemma plex_match_album_duplicates self album_name tracks albums :
  let exact_matches :=
    filter (λ al, lower (Plex.album_title al) = lower album_name) albums in
  2 ≤ length exact_matches →
  ∃ album,
    nearest_first (track_diff self tracks) exact_matches album
    ∧ Plex.match_album self album_name tracks albums
      = (Some album, exact_matches, None).
Proof.
  intros exact_matches Hlen. unfold Plex.match_album. fold exact_matches.
  destruct (closest_by_track_count_spec self tracks exact_matches)
    as (album & E & Hn).
  { intros E. rewrite E in Hlen. simpl in Hlen. lia. }
  exists album. split; [done|].
  destruct exact_matches as [|a1 [|a2 rest]]; [simpl in Hlen; lia..|].
  by rewrite E.
Qed.

Lemma plex_match_album_similar self album_name tracks albums :
  filter (λ al, lower (Plex.album_title al) = lower album_name) albums = [] →
  let scan := similarity_scan Plex.album_title album_name albums in
  Plex.match_album self album_name tracks albums
  = (if Qge_bool scan.2 0.80 then scan.1 else None, [], Some scan.2).
Proof.
  intros Hf. unfold Plex.match_album. rewrite Hf. cbv zeta.
  destruct (similarity_scan Plex.album_title album_name albums) as [best r]; simpl.
  by destruct (Qge_bool r 0.80).
Qed.

Lemma plex_check_library_matched self album_name artist_name tracks library
    artist albums matched exact_matches best_ratio :
  Plex.search_artist_in_library self (Plex.key library) artist_name = Some artist →
  Plex.get_artist_albums self (Plex.key library) artist_name = albums →
  albums ≠ [] →
  Plex.match_album self album_name tracks albums
    = (Some matched, exact_matches, best_ratio) →
  let reconciled :=
    Plex.reconcile_tracks
      (Plex.get_album_tracks self (Plex.album_key matched)) tracks in
  Plex.check_library self album_name artist_name tracks library
  = Some {| in_library := true;
            match_type := if 0 <? length exact_matches then exact else similar;
            match_confidence :=
              if 0 <? length exact_matches then 1%Q
              else match best_ratio with Some r => r | None => 1%Q end;
            available_tracks := reconciled.1;
            missing_tracks := reconciled.2;
            library_album_id := Plex.album_ratingKey matched;
            library_album_name := Plex.album_get_title matched |}.
Proof.
  intros Hs Ha Hne Hm. cbv zeta. unfold Plex.check_library. rewrite Hs, Ha.
  destruct albums as [|al albums]; [done|]. rewrite Hm.
  by destruct (Plex.reconcile_tracks _ tracks).
Qed.

Lemma plex_check_library_unmatched self album_name artist_name tracks library
    albums exact_matches best_ratio :
  Plex.get_artist_albums self (Plex.key library) artist_name = albums →
  Plex.match_album self album_name tracks albums
    = (None, exact_matches, best_ratio) →
  Plex.check_library self album_name artist_name tracks library = None.
Proof.
  intros Ha Hm. unfold Plex.check_library.
  destruct (Plex.search_artist_in_library _ _ _); [|done]. rewrite Ha.
  destruct albums as [|al albums]; [done|]. by rewrite Hm.
Qed.

(** The first library that yields a result decides the answer. *)
Lemma plex_first_match self album_name artist_name tracks before library rest r :
  Plex.get_music_libraries self = before ++ library :: rest →
  (∀ l, l ∈ before →
     Plex.check_library self album_name artist_name tracks l = None) →
  Plex.check_library self album_name artist_name tracks library = Some r →
  Plex.check_album_in_library self album_name artist_name tracks = r.
Proof.
  intros Hl Hbefore Hr.
  assert (Plex.search_libraries self album_name artist_name tracks
            (before ++ library :: rest) = Some r) as Hs.
  { clear Hl. induction before as [|l before IH]; simpl.
    - by rewrite Hr.
    - rewrite Hbefore by left. apply IH. intros l' Hl'. apply Hbefore. by right. }
  unfold Plex.check_album_in_library. rewrite Hl.
  destruct (before ++ library :: rest) as [|l ls] eqn:E; [by destruct before|].
  by rewrite Hs.
Qed.

Lemma filter_nonempty {X} (P : X → Prop) `{∀ x, Decision (P x)} (l : list X) x :
  x ∈ filter P l → l ≠ [].
Proof. intros Hx ->. by apply elem_of_nil in Hx. Qed.

(** ** Album matching in Jellyfin *)

Lemma jellyfin_check_exact self album_name artist_name tracks jf_albums jf_album rest :
  Jellyfin.get_artist_items self artist_name = jf_albums →
  filter (λ al, lower (Jellyfin.Name al) = lower album_name) jf_albums
    = jf_album :: rest →
  let reconciled :=
    Jellyfin.reconcile_tracks
      (Jellyfin.get_album_tracks self (Jellyfin.Id jf_album)) tracks in
  Jellyfin.check_album_in_library self album_name artist_name tracks
  = {| in_library := true;
       match_type := exact;
       match_confidence := 1;
       available_tracks := reconciled.1;
       missing_tracks := reconciled.2;
       library_album_id := Some (Jellyfin.Id jf_album);
       library_album_name := Some (Jellyfin.Name jf_album) |}.
Proof.
  intros Ha Hf. cbv zeta. unfold Jellyfin.check_album_in_library. rewrite Ha.
  destruct jf_albums as [|al albums]; [done|].
  unfold Jellyfin.match_album. rewrite Hf; simpl.
  by destruct (Jellyfin.reconcile_tracks _ tracks).
Qed.

Lemma jellyfin_check_similarity self album_name artist_name tracks jf_albums :
  Jellyfin.get_artist_items self artist_name = jf_albums →
  filter (λ al, lower (Jellyfin.Name al) = lower album_name) jf_albums = [] →
  let scan := similarity_scan Jellyfin.Name album_name jf_albums in
  Jellyfin.check_album_in_library self album_name artist_name tracks
  = match (if Qge_bool scan.2 0.85 then scan.1 else None) with
    | Some matched =>
        let reconciled :=
          Jellyfin.reconcile_tracks
            (Jellyfin.get_album_tracks self (Jellyfin.Id matched)) tracks in
        {| in_library := true;
           match_type := similar;
           match_confidence := scan.2;
           available_tracks := reconciled.1;
           missing_tracks := reconciled.2;
           library_album_id := Some (Jellyfin.Id matched);
           library_album_name := Some (Jellyfin.Name matched) |}
    | None => not_found scan.2 tracks
    end.
Proof.
  intros Ha Hf. cbv zeta. unfold Jellyfin.check_album_in_library. rewrite Ha.
  destruct jf_albums as [|al albums]; [done|].
  unfold Jellyfin.match_album. rewrite Hf; simpl.
  destruct (similarity_scan Jellyfin.Name album_name (al :: albums))
    as [best r]; simpl.
  destruct (Qge_bool r 0.85); [|done]. destruct best as [matched|]; [|done].
  by destruct (Jellyfin.reconcile_tracks _ tracks).
Qed.

(** ** Exact title matches (claims C4 and C5) *)

(** C4: when exactly one album of the list has a title equal to the
    target up to case, that album is the match, with match type [exact]
    and confidence 1.0, whatever the similarity of the other albums.  For
    Plex the album list is that of the first library that yields a
    result. *)
Theorem single_exact_match
    (plex : Plex.PlexService) (jellyfin : Jellyfin.JellyfinService)
    (album_name artist_name : string) (tracks : list SpotifyTrack)
    (before rest : list Plex.Library) (library : Plex.Library)
    (artist : Plex.Artist) (albums : list Plex.Album) (album : Plex.Album)
    (jf_albums : list Jellyfin.Item) (jf_album : Jellyfin.Item) :
  Plex.get_music_libraries plex = before ++ library :: rest →
  (∀ l, l ∈ before →
     Plex.check_library plex album_name artist_name tracks l = None) →
  Plex.search_artist_in_library plex (Plex.key library) artist_name = Some artist →
  Plex.get_artist_albums plex (Plex.key library) artist_name = albums →
  filter (λ al, lower (Plex.album_title al) = lower album_name) albums = [album] →
  Jellyfin.get_artist_items jellyfin artist_name = jf_albums →
  filter (λ al, lower (Jellyfin.Name al) = lower album_name) jf_albums = [jf_album] →
  let p := Plex.check_album_in_library plex album_name artist_name tracks in
  let j := Jellyfin.check_album_in_library jellyfin album_name artist_name tracks in
  (in_library p = true ∧ match_type p = exact ∧ match_confidence p = 1%Q
   ∧ library_album_id p = Plex.album_ratingKey album
   ∧ library_album_name p = Plex.album_get_title album)
  ∧ (in_library j = true ∧ match_type j = exact ∧ match_confidence j = 1%Q
     ∧ library_album_id j = Some (Jellyfin.Id jf_album)
     ∧ library_album_name j = Some (Jellyfin.Name jf_album)).
Proof.
  intros Hl Hbefore Hs Ha Hf Hja Hjf. cbv zeta. split.
  - erewrite plex_first_match; [| exact Hl | exact Hbefore |].
    2:{ eapply plex_check_library_matched; [exact Hs | exact Ha | |].
        - eapply filter_nonempty. rewrite Hf. left.
        - by apply plex_match_album_single. }
    done.
  - by rewrite (jellyfin_check_exact jellyfin album_name artist_name tracks
                  jf_albums jf_album [] Hja Hjf).
Qed.

Lemma single_exact_match_witness :
  let p := Plex.check_album_in_library Samples.thriller_plex
             "THRILLER" "Michael Jackson" Samples.thriller_tracks in
  let j := Jellyfin.check_album_in_library Samples.thriller_jellyfin
             "THRILLER" "Michael Jackson" Samples.thriller_tracks in
  (in_library p = true ∧ match_type p = exact ∧ match_confidence p = 1%Q
   ∧ library_album_id p = Some "/library/metadata/10/children"
   ∧ library_album_name p = Some "Thriller")
  ∧ (in_library j = true ∧ match_type j = exact ∧ match_confidence j = 1%Q
     ∧ library_album_id j = Some "10"
     ∧ library_album_name j = Some "Thriller").
Proof.
  apply (single_exact_match Samples.thriller_plex Samples.thriller_jellyfin
           "THRILLER" "Michael Jackson" Samples.thriller_tracks
           [] [] {| Plex.key := "2"; Plex.title := "Music" |}
           {| Plex.artist_title := "Michael Jackson" |}
           [ Samples.plex_album "Thriller 25" "/library/metadata/9/children";
             Samples.plex_album "Thriller" "/library/metadata/10/children" ]
           (Samples.plex_album "Thriller" "/library/metadata/10/children")
           [ {| Jellyfin.Id := "9"; Jellyfin.Name := "Thriller 25" |};
             {| Jellyfin.Id := "10"; Jellyfin.Name := "Thriller" |} ]
           {| Jellyfin.Id := "10"; Jellyfin.Name := "Thriller" |}).
  - reflexivity.
  - intros l Hl. by apply elem_of_nil in Hl.
  - reflexivity.
  - reflexivity.
  - reflexivity.
  - reflexivity.
  - reflexivity.
Defined.

(** C5: when several albums of the list have a title equal to the
    target up to case, the match is the one whose fetched track count is
    nearest to the number of canonical tracks, the first of them in list
    order when several are equally near; the result has match type
    [exact] and confidence 1.0 whichever of them it is. *)
Theorem duplicate_exact_matches
    (plex : Plex.PlexService)
    (album_name artist_name : string) (tracks : list SpotifyTrack)
    (before rest : list Plex.Library) (library : Plex.Library)
    (artist : Plex.Artist) (albums : list Plex.Album) :
  Plex.get_music_libraries plex = before ++ library :: rest →
  (∀ l, l ∈ before →
     Plex.check_library plex album_name artist_name tracks l = None) →
  Plex.search_artist_in_library plex (Plex.key library) artist_name = Some artist →
  Plex.get_artist_albums plex (Plex.key library) artist_name = albums →
  1 < length (filter (λ al, lower (Plex.album_title al) = lower album_name) albums) →
  ∃ album,
    nearest_first (track_diff plex tracks)
      (filter (λ al, lower (Plex.album_title al) = lower album_name) albums) album
    ∧ let r := Plex.check_album_in_library plex album_name artist_name tracks in
      in_library r = true ∧ match_type r = exact ∧ match_confidence r = 1%Q
      ∧ library_album_id r = Plex.album_ratingKey album
      ∧ library_album_name r = Plex.album_get_title album.
Proof.
  intros Hl Hbefore Hs Ha Hlen.
  destruct (plex_match_album_duplicates plex album_name tracks albums Hlen)
    as (album & Hnear & Hm).
  exists album. split; [done|]. cbv zeta.
  erewrite plex_first_match; [| exact Hl | exact Hbefore |].
  2:{ eapply plex_check_library_matched; [exact Hs | exact Ha | | exact Hm].
      intros ->. simpl in Hlen. lia. }
  simpl. destruct (Nat.ltb_spec 0 (length (filter
    (λ al, lower (Plex.album_title al) = lower album_name) albums))); [done|lia].
Qed.

Lemma duplicate_exact_matches_witness :
  ∃ album,
    nearest_first (track_diff Samples.two_x_plex Samples.three_tracks)
      (filter (λ al, lower (Plex.album_title al) = lower "X")
         [ Samples.plex_album "Greatest Hits" "/g"; Samples.plex_album "X" "/a";
           Samples.plex_album "x" "/b" ]) album
    ∧ let r := Plex.check_album_in_library Samples.two_x_plex
                 "X" "Michael Jackson" Samples.three_tracks in
      in_library r = true ∧ match_type r = exact ∧ match_confidence r = 1%Q
      ∧ library_album_id r = Plex.album_ratingKey album
      ∧ library_album_name r = Plex.album_get_title album.
Proof.
  apply (duplicate_exact_matches Samples.two_x_plex
           "X" "Michael Jackson" Samples.three_tracks
           [] [] {| Plex.key := "2"; Plex.title := "Music" |}
           {| Plex.artist_title := "Michael Jackson" |}).
  - reflexivity.
  - intros l Hl. by apply elem_of_nil in Hl.
  - reflexivity.
  - reflexivity.
  - vm_compute. lia.
Defined.

(** With three canonical tracks the three-track copy wins; with two
    canonical tracks both copies are one track away and the first wins. *)
Example nearest_copy_wins :
  library_album_id
    (Plex.check_album_in_library Samples.two_x_plex
       "X" "Michael Jackson" Samples.three_tracks) = Some "/b"
  ∧ library_album_id
      (Plex.check_album_in_library Samples.two_x_plex
         "X" "Michael Jackson" Samples.two_tracks) = Some "/a".
Proof. split; vm_compute; reflexivity. Qed.

(** ** Similarity fallback (claims C1 and C3) *)

Lemma Qge_bool_false x y : Qge_bool x y = false ↔ (x < y)%Q.
Proof.
  unfold Qge_bool. rewrite <- not_true_iff_false, Qle_bool_iff.
  split; [apply Qnot_le_lt | apply Qlt_not_le].
Qed.

(** C1, as amended: when no album title equals the target up to case,
    the album kept is the first one with the largest similarity ratio.
    In Jellyfin a largest ratio of at least 0.85 gives match type
    [similar] with that ratio as confidence, and a smaller one gives
    match type [none] with that ratio as confidence.  In Plex the
    threshold is 0.80: a largest ratio of at least 0.80 gives match type
    [similar] with that ratio as confidence, and a smaller one makes the
    library yield no match. *)
Theorem similarity_fallback
    (plex : Plex.PlexService) (jellyfin : Jellyfin.JellyfinService)
    (album_name artist_name : string) (tracks : list SpotifyTrack)
    (library : Plex.Library) (artist : Plex.Artist)
    (albums : list Plex.Album) (jf_albums : list Jellyfin.Item) :
  Plex.search_artist_in_library plex (Plex.key library) artist_name = Some artist →
  Plex.get_artist_albums plex (Plex.key library) artist_name = albums →
  filter (λ al, lower (Plex.album_title al) = lower album_name) albums = [] →
  Jellyfin.get_artist_items jellyfin artist_name = jf_albums →
  filter (λ al, lower (Jellyfin.Name al) = lower album_name) jf_albums = [] →
  let p := similarity_scan Plex.album_title album_name albums in
  let j := similarity_scan Jellyfin.Name album_name jf_albums in
  (first_best Plex.album_title album_name albums p.1 p.2
   ∧ ((0.80 <= p.2)%Q →
        ∃ album r,
          p.1 = Some album
          ∧ Plex.check_library plex album_name artist_name tracks library = Some r
          ∧ in_library r = true ∧ match_type r = similar
          ∧ match_confidence r = p.2
          ∧ library_album_id r = Plex.album_ratingKey album)
   ∧ ((p.2 < 0.80)%Q →
        Plex.check_library plex album_name artist_name tracks library = None))
  ∧ (first_best Jellyfin.Name album_name jf_albums j.1 j.2
     ∧ ((0.85 <= j.2)%Q →
          ∃ album,
            j.1 = Some album
            ∧ let r := Jellyfin.check_album_in_library jellyfin
                         album_name artist_name tracks in
              in_library r = true ∧ match_type r = similar
              ∧ match_confidence r = j.2
              ∧ library_album_id r = Some (Jellyfin.Id album))
     ∧ ((j.2 < 0.85)%Q →
          Jellyfin.check_album_in_library jellyfin album_name artist_name tracks
          = not_found j.2 tracks)).
Proof.
  intros Hs Ha Hf Hja Hjf. cbv zeta. split.
  - split; [apply similarity_scan_spec|].
    pose proof (plex_match_album_similar plex album_name tracks albums Hf) as Hm.
    cbv zeta in Hm. split.
    + intros Hge.
      destruct (similarity_scan_threshold Plex.album_title album_name albums 0.80)
        as [album Hbest]; [done | done |].
      apply Qge_bool_iff in Hge. rewrite Hge, Hbest in Hm.
      exists album. eexists. split; [done|]. split.
      * eapply plex_check_library_matched; [exact Hs | exact Ha | | exact Hm].
        intros ->. discriminate Hbest.
      * done.
    + intros Hlt. apply Qge_bool_false in Hlt. rewrite Hlt in Hm.
      by eapply plex_check_library_unmatched.
  - split; [apply similarity_scan_spec|].
    pose proof (jellyfin_check_similarity jellyfin album_name artist_name tracks
                  jf_albums Hja Hjf) as Hr.
    cbv zeta in Hr. split.
    + intros Hge.
      destruct (similarity_scan_threshold Jellyfin.Name album_name jf_albums 0.85)
        as [album Hbest]; [done | done |].
      apply Qge_bool_iff in Hge. rewrite Hge, Hbest in Hr.
      exists album. split; [done|]. by rewrite Hr.
    + intros Hlt. apply Qge_bool_false in Hlt. by rewrite Hlt in Hr.
Qed.

Lemma similarity_fallback_witness :
  (∃ r, Plex.check_library Samples.near_plex "abcde" "Michael Jackson"
          Samples.two_tracks {| Plex.key := "2"; Plex.title := "Music" |} = Some r
        ∧ match_type r = similar ∧ match_confidence r = (8 # 10)%Q)
  ∧ Jellyfin.check_album_in_library Samples.near_jellyfin
      "abcde" "Michael Jackson" Samples.two_tracks
    = not_found (8 # 10) Samples.two_tracks.
Proof.
  destruct (similarity_fallback Samples.near_plex Samples.near_jellyfin
              "abcde" "Michael Jackson" Samples.two_tracks
              {| Plex.key := "2"; Plex.title := "Music" |}
              {| Plex.artist_title := "Michael Jackson" |}
              [ Samples.plex_album "abcdx" "/n" ]
              [ {| Jellyfin.Id := "n"; Jellyfin.Name := "abcdx" |} ]
              eq_refl eq_refl eq_refl eq_refl eq_refl)
    as [(_ & Hp & _) (_ & _ & Hj)].
  split.
  - destruct Hp as (album & r & _ & Hr & _ & Ht & Hc & _).
    + vm_compute. discriminate.
    + exists r. split; [exact Hr|]. split; [exact Ht|]. exact Hc.
  - apply Hj. vm_compute. reflexivity.
Defined.

(** C1, as stated, fails in Plex: the only album has ratio 0.8 with the
    target, below 0.85, and the match type is [similar], not [none]. *)
Lemma plex_threshold_below_085 :
  let albums := [ Samples.plex_album "abcdx" "/n" ] in
  let r := Plex.check_album_in_library Samples.near_plex
             "abcde" "Michael Jackson" Samples.two_tracks in
  Plex.get_artist_albums Samples.near_plex "2" "Michael Jackson" = albums
  ∧ filter (λ al, lower (Plex.album_title al) = lower "abcde") albums = []
  ∧ (similarity_scan Plex.album_title "abcde" albums).2 = (8 # 10)%Q
  ∧ ¬ (0.85 <= 8 # 10)%Q
  ∧ match_type r = similar
  ∧ match_confidence r = (8 # 10)%Q.
Proof.
  cbv zeta. repeat split; try (vm_compute; reflexivity).
  intros H. vm_compute in H. by apply H.
Qed.

(** Whenever Plex reports that the album is not in the library, the
    confidence it reports is 0. *)
Lemma plex_not_in_library self album_name artist_name tracks :
  in_library (Plex.check_album_in_library self album_name artist_name tracks)
    = false →
  Plex.check_album_in_library self album_name artist_name tracks
  = not_found 0 tracks.
Proof.
  intros Hin.
  destruct (plex_result_cases self album_name artist_name tracks)
    as [E|(library & _ & Hr)]; [done|].
  apply plex_check_library_result in Hr as (Hr & _). congruence.
Qed.

(** C3 at a concrete input.  The only album of the only Plex library has
    ratio 0.5 with the target: no library yields a match and the result
    carries confidence 0, not 0.5.  Jellyfin, given the same album,
    reports 0.5. *)
Lemma plex_not_found_confidence :
  let albums := [ Samples.plex_album "abxy" "/f" ] in
  let r := Plex.check_album_in_library Samples.far_plex
             "abcd" "Michael Jackson" Samples.two_tracks in
  Plex.search_artist_in_library Samples.far_plex "2" "Michael Jackson"
    = Some {| Plex.artist_title := "Michael Jackson" |}
  ∧ Plex.get_artist_albums Samples.far_plex "2" "Michael Jackson" = albums
  ∧ (similarity_scan Plex.album_title "abcd" albums).2 = (4 # 8)%Q
  ∧ r = not_found 0 Samples.two_tracks
  ∧ Jellyfin.check_album_in_library Samples.far_jellyfin
      "abcd" "Michael Jackson" Samples.two_tracks
    = not_found (4 # 8) Samples.two_tracks.
Proof. cbv zeta. repeat split; vm_compute; reflexivity. Qed.

(** ** Provider errors (claim C9) *)

Lemma track_available_empty track_name : track_available ∅ track_name = false.
Proof.
  unfold track_available. rewrite bool_decide_eq_false_2 by set_solver.
  by rewrite elements_empty.
Qed.

Lemma compare_tracks_empty tracks :
  compare_tracks ∅ tracks = ([], name <$> tracks).
Proof.
  rewrite compare_tracks_filter. f_equal.
  - induction tracks as [|t tracks IH]; [done|]. simpl.
    rewrite filter_cons, track_available_empty. exact IH.
  - induction tracks as [|t tracks IH]; [done|]. simpl.
    rewrite filter_cons, track_available_empty. simpl. by f_equal.
Qed.

Lemma plex_artist_error self library_key artist_name :
  Plex.section_artists (Plex.server self) library_key = Raised →
  Plex.search_artist_in_library self library_key artist_name = None.
Proof.
  intros E. unfold Plex.search_artist_in_library. rewrite E.
  by destruct (Plex.unconfigured self).
Qed.

Lemma plex_albums_error self library_key artist_name :
  Plex.section_albums (Plex.server self) library_key = Raised →
  Plex.get_artist_albums self library_key artist_name = [].
Proof.
  intros E. unfold Plex.get_artist_albums. rewrite E.
  by destruct (Plex.unconfigured self).
Qed.

Lemma plex_tracks_error self album_key :
  Plex.metadata_children (Plex.server self) album_key = Raised →
  Plex.get_album_tracks self album_key = [].
Proof.
  intros E. unfold Plex.get_album_tracks. rewrite E.
  by destruct (Plex.unconfigured self).
Qed.

(** C9, as amended: an error raised while fetching the artist or the
    albums of a library is caught and makes that library yield no match,
    so the loop goes on with the next library.  An error raised while
    fetching the tracks of the matched album is caught and read as an
    empty track list: the album is reported as in the library with every
    canonical track missing.  In each case a valid result is returned. *)
Theorem provider_errors (self : Plex.PlexService)
    (album_name artist_name : string) (tracks : list SpotifyTrack)
    (library : Plex.Library) (rest : list Plex.Library) :
  (Plex.section_artists (Plex.server self) (Plex.key library) = Raised
   ∨ Plex.section_albums (Plex.server self) (Plex.key library) = Raised →
     Plex.check_library self album_name artist_name tracks library = None
     ∧ Plex.search_libraries self album_name artist_name tracks (library :: rest)
       = Plex.search_libraries self album_name artist_name tracks rest)
  ∧ (∀ artist albums matched exact_matches best_ratio,
       Plex.search_artist_in_library self (Plex.key library) artist_name
         = Some artist →
       Plex.get_artist_albums self (Plex.key library) artist_name = albums →
       albums ≠ [] →
       Plex.match_album self album_name tracks albums
         = (Some matched, exact_matches, best_ratio) →
       Plex.metadata_children (Plex.server self) (Plex.album_key matched) = Raised →
       ∃ r, Plex.check_library self album_name artist_name tracks library = Some r
            ∧ in_library r = true
            ∧ available_tracks r = []
            ∧ missing_tracks r = name <$> tracks)
  ∧ result_valid tracks
      (Plex.check_album_in_library self album_name artist_name tracks).
Proof.
  split; [|split; [|apply plex_result_valid]].
  - intros Herr.
    assert (Plex.check_library self album_name artist_name tracks library = None)
      as Hnone.
    { unfold Plex.check_library. destruct Herr as [E|E].
      - by rewrite (plex_artist_error _ _ _ E).
      - rewrite (plex_albums_error _ _ _ E).
        by destruct (Plex.search_artist_in_library _ _ _). }
    split; [done|]. simpl. by rewrite Hnone.
  - intros artist albums matched exact_matches best_ratio Hs Ha Hne Hm Herr.
    eexists. split.
    + by eapply plex_check_library_matched.
    + rewrite (plex_tracks_error _ _ Herr). simpl.
      unfold Plex.reconcile_tracks; simpl. by rewrite compare_tracks_empty.
Qed.

Lemma provider_errors_witness :
  (Plex.check_library Samples.artist_error_plex "Thriller" "Michael Jackson"
     Samples.thriller_tracks {| Plex.key := "1"; Plex.title := "Music" |} = None
   ∧ Plex.search_libraries Samples.artist_error_plex "Thriller" "Michael Jackson"
       Samples.thriller_tracks
       [ {| Plex.key := "1"; Plex.title := "Music" |};
         {| Plex.key := "2"; Plex.title := "More music" |} ]
     = Plex.search_libraries Samples.artist_error_plex "Thriller" "Michael Jackson"
         Samples.thriller_tracks [ {| Plex.key := "2"; Plex.title := "More music" |} ])
  ∧ ∃ r, Plex.check_library Samples.flaky_plex "Thriller" "Michael Jackson"
           Samples.thriller_tracks {| Plex.key := "1"; Plex.title := "Music" |}
         = Some r
         ∧ in_library r = true
         ∧ available_tracks r = []
         ∧ missing_tracks r = name <$> Samples.thriller_tracks.
Proof.
  split.
  - apply (provider_errors Samples.artist_error_plex "Thriller" "Michael Jackson"
             Samples.thriller_tracks {| Plex.key := "1"; Plex.title := "Music" |}
             [ {| Plex.key := "2"; Plex.title := "More music" |} ]).
    left. reflexivity.
  - apply (proj1 (proj2 (provider_errors Samples.flaky_plex
             "Thriller" "Michael Jackson" Samples.thriller_tracks
             {| Plex.key := "1"; Plex.title := "Music" |} []))
             {| Plex.artist_title := "Michael Jackson" |}
             [ Samples.plex_album "Thriller" "/first" ]
             (Samples.plex_album "Thriller" "/first")
             [ Samples.plex_album "Thriller" "/first" ] None).
    + reflexivity.
    + reflexivity.
    + discriminate.
    + reflexivity.
    + reflexivity.
Defined.

(** C9, as stated, fails for the track listing: the first library holds
    the album but its track listing raises; the loop does not go on to
    the second library, where every track is present, and the album is
    reported with every track missing. *)
Lemma track_error_is_a_match :
  Plex.metadata_children (Plex.server Samples.flaky_plex) "/first" = Raised
  ∧ Plex.check_album_in_library Samples.flaky_plex
      "Thriller" "Michael Jackson" Samples.thriller_tracks
    = {| in_library := true;
         match_type := exact;
         match_confidence := 1;
         available_tracks := [];
         missing_tracks := [ "Wanna Be Startin' Somethin'"; "Billie Jean"; "Thriller" ];
         library_album_id := Some "/first";
         library_album_name := Some "Thriller" |}
  ∧ Plex.check_library Samples.flaky_plex "Thriller" "Michael Jackson"
      Samples.thriller_tracks {| Plex.key := "2"; Plex.title := "More music" |}
    = Some {| in_library := true;
              match_type := exact;
              match_confidence := 1;
              available_tracks :=
                [ "Wanna Be Startin' Somethin'"; "Billie Jean"; "Thriller" ];
              missing_tracks := [];
              library_album_id := Some "/second";
              library_album_name := Some "Thriller" |}.
Proof. repeat split; vm_compute; reflexivity. Qed.

(** * Further properties of [SequenceMatcher] *)

Module BlockFacts.
Import Difflib DifflibSpec BlockSpec DifflibFacts.

Section Genuine.
Context `{Countable A}.
Variables (a b : list A) (b2j : gmap A (list nat)) (bjunk : gset A).
Hypothesis b2j_spec : b2j_ok b b2j.

Lemma runs_ok_empty i : runs_ok a b i ∅.
Proof. intros j k Hk. by rewrite lookup_empty in Hk. Qed.

Lemma genuine_start alo blo : genuine a b (mkMatch alo blo 0).
Proof. intros d Hd. simpl in Hd. lia. Qed.

Lemma scan_row_genuine i blo bhi j2len js :
  (∀ j, j ∈ js → same_elt a b i j = true) →
  runs_ok a b i j2len →
  ∀ newj2len best,
    runs_ok a b (S i) newj2len → genuine a b best →
    runs_ok a b (S i) (scan_row i blo bhi j2len js newj2len best).1
    ∧ genuine a b (scan_row i blo bhi j2len js newj2len best).2.
Proof.
  intros Hjs Hprev. induction js as [|j js IH]; intros new best Hnew Hbest;
    simpl; [done|].
  destruct (j <? blo); [apply IH; [intros; apply Hjs; by right | done..]|].
  destruct (bhi <=? j); [done|].
  set (k := j2lenget j2len j + 1).
  assert (∀ d, d < k → d ≤ i ∧ d ≤ j ∧ same_elt a b (i - d) (j - d) = true) as Hk.
  { intros d Hd. destruct d as [|d'].
    - rewrite !Nat.sub_0_r. repeat split; [lia..|]. apply Hjs. by left.
    - unfold k in Hd. destruct j as [|j']; simpl in Hd; [lia|].
      destruct (j2len !! j') as [k'|] eqn:E; simpl in Hd; [|lia].
      destruct (Hprev j' k' E d') as (H1 & H2 & H3); [lia|].
      replace (i - S d') with (i - 1 - d') by lia.
      replace (S j' - S d') with (j' - d') by lia. repeat split; [lia..|done]. }
  apply IH; [intros; apply Hjs; by right | |].
  - intros j0 k0. rewrite lookup_insert. case_decide as Hd.
    + intros [= <-]. subst j0. intros d Hd'.
      destruct (Hk d Hd') as (H1 & H2 & H3).
      replace (S i - 1 - d) with (i - d) by lia. repeat split; [lia..|done].
    + apply Hnew.
  - destruct (m_size best <? k); [|done].
    intros d Hd; simpl in *.
    destruct (Hk (k - 1 - d)) as (H1 & H2 & H3); [lia|].
    destruct (Hk (k - 1)) as (H4 & H5 & _); [lia|].
    replace (i + 1 - k + d) with (i - (k - 1 - d)) by lia.
    by replace (j + 1 - k + d) with (j - (k - 1 - d)) by lia.
Qed.

Lemma scan_rows_genuine blo bhi n :
  ∀ i j2len best,
    runs_ok a b i j2len → genuine a b best →
    genuine a b (scan_rows a b2j blo bhi (seq i n) j2len best).
Proof.
  induction n as [|n IH]; intros i j2len best Hprev Hbest; simpl; [done|].
  edestruct (scan_row_genuine i blo bhi j2len) as [Hnew Hbest'];
    [ | exact Hprev | apply (runs_ok_empty (S i)) | exact Hbest | ].
  2:{ apply IH; [exact Hnew | exact Hbest']. }
  intros j Hj. unfold same_elt.
  destruct (a !! i) as [x|]; [|by apply elem_of_nil in Hj].
  destruct (b2j !! x) as [js|] eqn:E; [|by apply elem_of_nil in Hj].
  simpl in Hj. apply (b2j_spec x js E) in Hj. rewrite Hj.
  by apply bool_decide_eq_true.
Qed.

Lemma extend_back_genuine junk alo blo besti :
  ∀ bestj bestsize,
    genuine a b (mkMatch besti bestj bestsize) →
    genuine a b (extend_back a b bjunk junk alo blo besti bestj bestsize).
Proof.
  induction besti as [|i' IH]; intros bestj bestsize Hg; simpl; [done|].
  destruct (_ && _) eqn:E; [|done].
  repeat (apply andb_prop in E as [E ?]).
  match goal with H : (blo <? _) = true |- _ => apply Nat.ltb_lt in H end.
  apply IH. intros d Hd; simpl in *. destruct d as [|d'].
  - by rewrite !Nat.add_0_r.
  - replace (i' + S d') with (S i' + d') by lia.
    replace (bestj - 1 + S d') with (bestj + d') by lia. apply Hg. simpl. lia.
Qed.

Lemma extend_fwd_genuine junk bhi besti bestj room :
  ∀ bestsize,
    genuine a b (mkMatch besti bestj bestsize) →
    genuine a b (mkMatch besti bestj
                   (extend_fwd a b bjunk junk bhi besti bestj room bestsize)).
Proof.
  induction room as [|room IH]; intros bestsize Hg; simpl; [done|].
  destruct (_ && _) eqn:E; [|done].
  repeat (apply andb_prop in E as [E ?]).
  apply IH. intros d Hd; simpl in *.
  destruct (decide (d = bestsize)) as [->|]; [done|]. apply Hg. simpl. lia.
Qed.

Lemma extend_genuine junk alo ahi blo bhi m :
  genuine a b m → genuine a b (extend a b bjunk junk alo ahi blo bhi m).
Proof.
  intros Hg. destruct m as [i j s]. unfold extend; simpl.
  pose proof (extend_back_genuine junk alo blo i j s Hg) as Hb.
  destruct (extend_back a b bjunk junk alo blo i j s) as [i1 j1 s1]; simpl.
  by apply extend_fwd_genuine.
Qed.

(** Every block [find_longest_match] returns pairs equal elements. *)
Lemma find_longest_match_genuine alo ahi blo bhi :
  genuine a b (find_longest_match a b b2j bjunk alo ahi blo bhi).
Proof.
  unfold find_longest_match. do 2 apply extend_genuine.
  apply scan_rows_genuine; [apply runs_ok_empty | apply genuine_start].
Qed.

Lemma push_if_Forall {P : rect → Prop} c r queue :
  Forall P (push_if c r queue) ↔ (c = true → P r) ∧ Forall P queue.
Proof.
  destruct c; simpl; [rewrite Forall_cons|]; naive_solver.
Qed.

Lemma awidth_push_if c alo ahi blo bhi queue :
  awidth (push_if c (alo, ahi, blo, bhi) queue)
  = (if c then ahi - alo else 0) + awidth queue.
Proof. by destruct c. Qed.

Lemma bwidth_push_if c alo ahi blo bhi queue :
  bwidth (push_if c (alo, ahi, blo, bhi) queue)
  = (if c then bhi - blo else 0) + bwidth queue.
Proof. by destruct c. Qed.

(** The blocks found pair equal elements; when their sizes add up to the
    heights and to the widths of the rectangles searched, the two sides
    of each rectangle are equal. *)
Lemma match_loop_cover fuel :
  ∀ queue matching_blocks res,
    Forall rect_ok queue →
    match_loop a b b2j bjunk fuel queue matching_blocks = Some res →
    ∃ found,
      res = matching_blocks ++ found
      ∧ total_size found ≤ awidth queue
      ∧ total_size found ≤ bwidth queue
      ∧ Forall (genuine a b) found
      ∧ (total_size found = awidth queue → total_size found = bwidth queue →
         Forall (seg_eq a b) queue).
Proof.
  induction fuel as [|fuel IH]; intros queue acc res Hq Hres.
  - destruct queue as [|[[[alo ahi] blo] bhi] queue]; [|done].
    injection Hres as <-. exists []. rewrite app_nil_r, total_size_nil.
    repeat split; [unfold awidth; simpl; lia | unfold bwidth; simpl; lia | done..].
  - destruct queue as [|[[[alo ahi] blo] bhi] queue].
    { rewrite match_loop_nil in Hres. injection Hres as <-.
      exists []. rewrite app_nil_r, total_size_nil.
      repeat split; [unfold awidth; simpl; lia | unfold bwidth; simpl; lia | done..]. }
    apply Forall_cons in Hq as [[Ha Hb] Hq].
    pose proof (find_longest_match_box a b b2j bjunk alo ahi blo bhi Ha Hb) as Hbox.
    pose proof (find_longest_match_genuine alo ahi blo bhi) as Hgen.
    rewrite match_loop_cons in Hres.
    set (x := find_longest_match a b b2j bjunk alo ahi blo bhi) in *.
    cbv zeta in Hres. clearbody x.
    destruct Hbox as (Hb1 & Hb2 & Hb3 & Hb4).
    assert (Haw : awidth ((alo, ahi, blo, bhi) :: queue)
                  = ahi - alo + awidth queue) by done.
    assert (Hbw : bwidth ((alo, ahi, blo, bhi) :: queue)
                  = bhi - blo + bwidth queue) by done.
    rewrite Haw, Hbw.
    destruct (Nat.eqb_spec (m_size x) 0) as [Hk|Hk].
    + destruct (IH queue acc res Hq Hres) as (found & -> & F1 & F2 & F3 & F4).
      exists found. repeat split; [lia | lia | done |].
      intros E1 E2. apply Forall_cons. split; [|apply F4; lia].
      split; [lia|]. intros d Hd. lia.
    + set (c1 := (alo <? m_a x) && (blo <? m_b x)) in *.
      set (c2 := (m_a x + m_size x <? ahi) && (m_b x + m_size x <? bhi)) in *.
      set (queue' := push_if c2 _ (push_if c1 _ queue)) in *.
      assert (Forall rect_ok queue') as Hq'.
      { unfold queue'. apply push_if_Forall. split; [intros _; split; lia|].
        apply push_if_Forall. split; [intros _; split; lia|done]. }
      destruct (IH queue' (acc ++ [x]) res Hq' Hres)
        as (found & -> & F1 & F2 & F3 & F4).
      unfold queue' in F1, F2, F4.
      rewrite awidth_push_if, awidth_push_if in F1, F4.
      rewrite bwidth_push_if, bwidth_push_if in F2, F4.
      exists (x :: found). rewrite total_size_cons.
      split; [by rewrite <- app_assoc|].
      split; [destruct c1, c2; lia|]. split; [destruct c1, c2; lia|].
      split; [by constructor|].
      intros E1 E2.
      assert (c1 = true ∨ (m_a x = alo ∧ m_b x = blo)) as Hleft
        by (destruct c1, c2; [by left..|right; lia|right; lia]).
      assert (c2 = true ∨ (m_a x + m_size x = ahi ∧ m_b x + m_size x = bhi))
        as Hright by (destruct c1, c2; [by left|right; lia|by left|right; lia]).
      assert (total_size found
              = (if c2 then ahi - (m_a x + m_size x) else 0)
                + ((if c1 then m_a x - alo else 0) + awidth queue)) as E1'
        by (destruct c1, c2; lia).
      assert (total_size found
              = (if c2 then bhi - (m_b x + m_size x) else 0)
                + ((if c1 then m_b x - blo else 0) + bwidth queue)) as E2'
        by (destruct c1, c2; lia).
      specialize (F4 E1' E2').
      apply push_if_Forall in F4 as [Hr2 F4].
      apply push_if_Forall in F4 as [Hr1 Hrest].
      apply Forall_cons. split; [|done].
      assert (m_a x - alo = m_b x - blo
              ∧ ∀ d, d < m_a x - alo → same_elt a b (alo + d) (blo + d) = true)
        as [L1 L2].
      { destruct Hleft as [Hc|[-> ->]]; [by apply Hr1|]. split; [lia|]. intros; lia. }
      assert (ahi - (m_a x + m_size x) = bhi - (m_b x + m_size x)
              ∧ ∀ d, d < ahi - (m_a x + m_size x) →
                  same_elt a b (m_a x + m_size x + d) (m_b x + m_size x + d) = true)
        as [R1 R2].
      { destruct Hright as [Hc|[E3 E4]]; [by apply Hr2|]. split; [lia|]. intros; lia. }
      split; [lia|]. intros d Hd.
      destruct (Nat.lt_ge_cases d (m_a x - alo)) as [Hd1|Hd1]; [by apply L2|].
      destruct (Nat.lt_ge_cases d (m_a x - alo + m_size x)) as [Hd2|Hd2].
      * replace (alo + d) with (m_a x + (d - (m_a x - alo))) by lia.
        replace (blo + d) with (m_b x + (d - (m_a x - alo))) by lia.
        apply Hgen. lia.
      * replace (alo + d)
          with (m_a x + m_size x + (d - (m_a x - alo + m_size x))) by lia.
        replace (blo + d)
          with (m_b x + m_size x + (d - (m_a x - alo + m_size x))) by lia.
        apply R2. lia.
Qed.
End Genuine.

Section RatioOne.
Context `{Countable A}.

Lemma same_elt_eq (a b : list A) i j :
  same_elt a b i j = true → a !! i = b !! j ∧ is_Some (a !! i).
Proof.
  unfold same_elt. destruct (a !! i), (b !! j); try done.
  intros ->%bool_decide_eq_true. split; [done|by eexists].
Qed.

(** A ratio of 1 is reached only by equal sequences. *)
Lemma ratio_one_eq (a b : list A) : (ratio a b == 1)%Q → a = b.
Proof.
  intros Hr. unfold ratio in Hr. fold (total_size (get_matching_blocks a b)) in Hr.
  pose proof (matches_le a b) as [Ma Mb].
  destruct (raw_blocks_total a b) as (found & E & _).
  unfold get_matching_blocks in *. rewrite E in *; simpl in *.
  rewrite total_size_collapse in *.
  rewrite (total_size_perm _ _ (merge_sort_Permutation match_le found)) in *.
  unfold _calculate_ratio in Hr.
  destruct (Nat.eqb_spec (length a + length b) 0) as [E0|E0].
  { destruct a, b; simpl in E0; try lia. done. }
  unfold Qeq in Hr; cbn [Qnum Qden] in Hr. rewrite Zpos_of_nat in Hr by done.
  assert (total_size found = length a ∧ total_size found = length b) as [Ea Eb] by lia.
  unfold raw_blocks in E.
  apply (match_loop_cover a b (chain_b b) ∅ (chain_b_ok b)) in E
    as (found' & E' & _ & _ & _ & Hcover).
  { simpl in E'. subst found'.
    assert (Forall (seg_eq a b) [(0, length a, 0, length b)]) as Hseg.
    { apply Hcover; unfold awidth, bwidth; simpl; lia. }
    apply Forall_cons in Hseg as [[_ Hseg] _].
    apply list_eq. intros i.
    destruct (Nat.lt_ge_cases i (length a)) as [Hi|Hi].
    - specialize (Hseg i). rewrite Nat.sub_0_r in Hseg.
      by apply Hseg, same_elt_eq in Hi as [? _].
    - rewrite !lookup_ge_None_2 by lia. done. }
  constructor; [split; lia|constructor].
Qed.
End RatioOne.

End BlockFacts.

(** * Further properties of the services *)

(** ** The similarity ratio *)

Lemma list_ascii_of_string_inj s1 s2 :
  list_ascii_of_string s1 = list_ascii_of_string s2 → s1 = s2.
Proof.
  intros E. rewrite <- (string_of_list_ascii_of_string s1),
    <- (string_of_list_ascii_of_string s2). by rewrite E.
Qed.

Lemma similarity_one s1 s2 :
  (_similarity_ratio s1 s2 == 1)%Q ↔ lower s1 = lower s2.
Proof.
  unfold _similarity_ratio. split.
  - intros E. by apply list_ascii_of_string_inj, BlockFacts.ratio_one_eq.
  - intros ->. apply DifflibFacts.ratio_self.
Qed.

Lemma similarity_lt_one s1 s2 :
  lower s1 ≠ lower s2 → (_similarity_ratio s1 s2 < 1)%Q.
Proof.
  intros Hne. destruct (similarity_range s1 s2) as [_ Hle].
  apply Qle_lt_or_eq in Hle as [Hlt|Heq]; [done|].
  by apply similarity_one in Heq.
Qed.

Lemma similarity_lower_l s1 s2 :
  _similarity_ratio (lower s1) s2 = _similarity_ratio s1 s2.
Proof. unfold _similarity_ratio. by rewrite lower_idem. Qed.

(** The similarity ratio is 1.0 exactly for two strings that are equal up
    to the case of their letters. *)
Theorem similarity_one_iff (str1 str2 : string) :
  (_similarity_ratio str1 str2 == 1)%Q ↔ lower str1 = lower str2.
Proof. apply similarity_one. Qed.

Lemma calculate_ratio_zero length : length ≠ 0 →
  (Difflib._calculate_ratio 0 length == 0)%Q.
Proof.
  intros Hl. unfold Difflib._calculate_ratio.
  destruct (Nat.eqb_spec length 0); [done|]. unfold Qeq; simpl. lia.
Qed.

Lemma lower_empty s : lower s = "" ↔ s = "".
Proof. destruct s; simpl; naive_solver. Qed.

Lemma list_ascii_length_pos s : s ≠ "" → length (list_ascii_of_string s) ≠ 0.
Proof. by destruct s. Qed.

Lemma ratio_zero (a b : list ascii) :
  length a = 0 ∨ length b = 0 → length a + length b ≠ 0 →
  (Difflib.ratio a b == 0)%Q.
Proof.
  intros Hz Hl. unfold Difflib.ratio.
  destruct (DifflibFacts.matches_le a b) as [Ha Hb].
  unfold DifflibSpec.total_size in *.
  set (m := sum_list_with _ _) in *.
  assert (m = 0) as -> by lia. by apply calculate_ratio_zero.
Qed.

(** The similarity ratio of the empty string and a non-empty string is
    0.0, in either order. *)
Theorem similarity_empty (s : string) :
  s ≠ "" →
  (_similarity_ratio "" s == 0)%Q ∧ (_similarity_ratio s "" == 0)%Q.
Proof.
  intros Hs.
  assert (length (list_ascii_of_string (lower s)) ≠ 0) as Hl.
  { apply list_ascii_length_pos. by rewrite lower_empty. }
  unfold _similarity_ratio.
  split; apply ratio_zero; simpl; first [by left | by right | lia].
Qed.

Lemma similarity_empty_witness :
  (_similarity_ratio "" "Thriller" == 0)%Q ∧ (_similarity_ratio "Thriller" "" == 0)%Q.
Proof. apply (similarity_empty "Thriller"). discriminate. Defined.

(** ** What a match rests on *)

Lemma nearest_first_elem {X} (diff : X → Z) l x : nearest_first diff l x → x ∈ l.
Proof. intros (pre & post & -> & _). apply elem_of_app. right. by left. Qed.

Lemma first_best_elem {X} (title : X → string) target xs x r :
  first_best title target xs (Some x) r →
  x ∈ xs ∧ _similarity_ratio (title x) target = r.
Proof.
  intros [_ (pre & post & -> & Hr & _)]. split; [|done].
  apply elem_of_app. right. by left.
Qed.

Lemma plex_match_album_sound self album_name tracks albums matched exact_matches
    best_ratio :
  Plex.match_album self album_name tracks albums
    = (Some matched, exact_matches, best_ratio) →
  exact_matches
    = filter (λ al, lower (Plex.album_title al) = lower album_name) albums
  ∧ matched ∈ albums
  ∧ ((exact_matches ≠ [] ∧ matched ∈ exact_matches)
     ∨ (exact_matches = []
        ∧ best_ratio = Some (_similarity_ratio (Plex.album_title matched) album_name)
        ∧ (0.80 <= _similarity_ratio (Plex.album_title matched) album_name)%Q)).
Proof.
  intros Hm.
  destruct (filter (λ al, lower (Plex.album_title al) = lower album_name) albums)
    as [|x1 [|x2 rest]] eqn:Hf.
  - rewrite (plex_match_album_similar self album_name tracks albums Hf) in Hm.
    cbv zeta in Hm.
    pose proof (similarity_scan_spec Plex.album_title album_name albums) as Hspec.
    destruct (Qge_bool _ 0.80) eqn:Hge; [|done].
    destruct (similarity_scan Plex.album_title album_name albums) as [best r].
    simpl in *. injection Hm as -> <- <-.
    apply first_best_elem in Hspec as [Hin <-].
    split; [done|]. split; [done|]. right. split; [done|]. split; [done|].
    by apply Qge_bool_iff.
  - rewrite (plex_match_album_single self album_name tracks albums x1 Hf) in Hm.
    injection Hm as <- <- <-.
    assert (x1 ∈ filter (λ al, lower (Plex.album_title al) = lower album_name) albums)
      as Hin by (rewrite Hf; left).
    split; [done|]. split; [by apply list_elem_of_filter in Hin as [_ ?]|].
    left. split; [done|left].
  - destruct (plex_match_album_duplicates self album_name tracks albums)
      as (album & Hnear & E); [rewrite Hf; simpl; lia|].
    rewrite E in Hm. injection Hm as <- <- <-.
    apply nearest_first_elem in Hnear.
    split; [done|]. split; [by apply list_elem_of_filter in Hnear as [_ ?]|].
    left. split; [by rewrite Hf|done].
Qed.

Lemma plex_check_library_sound self album_name artist_name tracks library r :
  Plex.check_library self album_name artist_name tracks library = Some r →
  ∃ artist album,
    Plex.search_artist_in_library self (Plex.key library) artist_name = Some artist
    ∧ album ∈ Plex.get_artist_albums self (Plex.key library) artist_name
    ∧ in_library r = true
    ∧ library_album_id r = Plex.album_ratingKey album
    ∧ library_album_name r = Plex.album_get_title album
    ∧ available_tracks r
      = (Plex.reconcile_tracks
           (Plex.get_album_tracks self (Plex.album_key album)) tracks).1
    ∧ missing_tracks r
      = (Plex.reconcile_tracks
           (Plex.get_album_tracks self (Plex.album_key album)) tracks).2
    ∧ ((match_type r = exact ∧ match_confidence r = 1%Q
        ∧ lower (Plex.album_title album) = lower album_name)
       ∨ (match_type r = similar
          ∧ match_confidence r = _similarity_ratio (Plex.album_title album) album_name
          ∧ (0.80 <= match_confidence r)%Q
          ∧ ∀ al, al ∈ Plex.get_artist_albums self (Plex.key library) artist_name →
              lower (Plex.album_title al) ≠ lower album_name)).
Proof.
  intros Hr.
  destruct (Plex.search_artist_in_library self (Plex.key library) artist_name)
    as [artist|] eqn:Hs; [|by unfold Plex.check_library in Hr; rewrite Hs in Hr].
  destruct (Plex.get_artist_albums self (Plex.key library) artist_name)
    as [|al0 albums0] eqn:Ha;
    [by unfold Plex.check_library in Hr; rewrite Hs, Ha in Hr|].
  set (albums := al0 :: albums0) in *.
  destruct (Plex.match_album self album_name tracks albums)
    as [[[matched|] exact_matches] best_ratio] eqn:Hm.
  2:{ by rewrite (plex_check_library_unmatched self album_name artist_name tracks
                   library albums exact_matches best_ratio Ha Hm) in Hr. }
  rewrite (plex_check_library_matched self album_name artist_name tracks library
             artist albums matched exact_matches best_ratio Hs Ha) in Hr;
    [|done|done].
  injection Hr as <-. simpl.
  apply plex_match_album_sound in Hm as (Hem & Hin & Hcase).
  exists artist, matched. do 7 (split; [done|]).
  destruct Hcase as [[Hne Hinm]|(-> & -> & Hge)].
  - left. destruct exact_matches as [|e es]; [done|]. simpl.
    do 2 (split; [done|]). rewrite Hem in Hinm.
    by apply list_elem_of_filter in Hinm as [? _].
  - right. simpl. do 3 (split; [done|]).
    intros al Hal Heq.
    assert (al ∈ filter (λ al, lower (Plex.album_title al) = lower album_name) albums)
      as Hf by by apply list_elem_of_filter.
    rewrite <- Hem in Hf. by apply elem_of_nil in Hf.
Qed.

Lemma jellyfin_check_sound self album_name artist_name tracks :
  ∀ r, r = Jellyfin.check_album_in_library self album_name artist_name tracks →
  (∃ confidence,
     r = not_found confidence tracks
     ∧ (0 <= confidence < 0.85)%Q
     ∧ ∀ al, al ∈ Jellyfin.get_artist_items self artist_name →
         lower (Jellyfin.Name al) ≠ lower album_name
         ∧ (_similarity_ratio (Jellyfin.Name al) album_name <= confidence)%Q)
  ∨ ∃ album,
      album ∈ Jellyfin.get_artist_items self artist_name
      ∧ in_library r = true
      ∧ library_album_id r = Some (Jellyfin.Id album)
      ∧ library_album_name r = Some (Jellyfin.Name album)
      ∧ available_tracks r
        = (Jellyfin.reconcile_tracks
             (Jellyfin.get_album_tracks self (Jellyfin.Id album)) tracks).1
      ∧ missing_tracks r
        = (Jellyfin.reconcile_tracks
             (Jellyfin.get_album_tracks self (Jellyfin.Id album)) tracks).2
      ∧ ((match_type r = exact ∧ match_confidence r = 1%Q
          ∧ lower (Jellyfin.Name album) = lower album_name)
         ∨ (match_type r = similar
            ∧ match_confidence r = _similarity_ratio (Jellyfin.Name album) album_name
            ∧ (0.85 <= match_confidence r)%Q
            ∧ ∀ al, al ∈ Jellyfin.get_artist_items self artist_name →
                lower (Jellyfin.Name al) ≠ lower album_name)).
Proof.
  intros r ->.
  set (albums := Jellyfin.get_artist_items self artist_name).
  destruct (filter (λ al, lower (Jellyfin.Name al) = lower album_name) albums)
    as [|x rest] eqn:Hf.
  - assert (∀ al, al ∈ albums → lower (Jellyfin.Name al) ≠ lower album_name) as Hno.
    { intros al Hal Heq.
      assert (al ∈ filter (λ al, lower (Jellyfin.Name al) = lower album_name) albums)
        as Hin by by apply list_elem_of_filter.
      rewrite Hf in Hin. by apply elem_of_nil in Hin. }
    rewrite (jellyfin_check_similarity self album_name artist_name tracks albums
               eq_refl Hf). cbv zeta.
    pose proof (similarity_scan_spec Jellyfin.Name album_name albums) as Hspec.
    destruct (similarity_scan Jellyfin.Name album_name albums) as [best ratio].
    simpl in *.
    assert ((0 <= ratio)%Q) as Hpos.
    { destruct Hspec as [_ Hb]. destruct best as [b|].
      - destruct Hb as (_ & _ & _ & _ & Hb & _). by apply Qlt_le_weak.
      - rewrite Hb. apply Qle_refl. }
    destruct (Qge_bool ratio 0.85) eqn:Hge.
    + apply Qge_bool_iff in Hge as Hge'.
      destruct best as [b|].
      * apply first_best_elem in Hspec as [Hin <-].
        right. exists b. do 6 (split; [done|]). right. by do 3 (split; [done|]).
      * destruct Hspec as [_ ->]. vm_compute in Hge'. by destruct Hge'.
    + left. exists ratio. split; [done|].
      apply Qge_bool_false in Hge. split; [done|].
      intros al Hal. split; [by apply Hno|]. by apply Hspec.
  - rewrite (jellyfin_check_exact self album_name artist_name tracks albums x rest
               eq_refl Hf). cbv zeta.
    assert (x ∈ filter (λ al, lower (Jellyfin.Name al) = lower album_name) albums)
      as Hin by (rewrite Hf; left).
    apply list_elem_of_filter in Hin as [Heq Hin].
    right. exists x. do 6 (split; [done|]). left. by do 2 (split; [done|]).
Qed.

Lemma plex_library_served self library :
  library ∈ Plex.get_music_libraries self →
  ∃ directory section,
    Plex.sections (Plex.server self) = Ok directory
    ∧ section ∈ directory
    ∧ Plex.dir_type section = "artist"
    ∧ Plex.key library = Plex.dir_key section.
Proof.
  unfold Plex.get_music_libraries.
  destruct (Plex.unconfigured self); [by intros ?%elem_of_nil|].
  destruct (Plex.sections (Plex.server self)) as [directory|];
    [|by intros ?%elem_of_nil].
  intros (section & -> & Hin)%list_elem_of_fmap.
  apply list_elem_of_filter in Hin as [Ht Hin]. by exists directory, section.
Qed.

Lemma plex_album_served self library_key artist_name album :
  album ∈ Plex.get_artist_albums self library_key artist_name →
  ∃ all_albums,
    Plex.section_albums (Plex.server self) library_key = Ok all_albums
    ∧ album ∈ all_albums
    ∧ (lower (Plex.album_parentTitle album) = lower artist_name
       ∨ (0.85 <= _similarity_ratio (Plex.album_parentTitle album) artist_name)%Q).
Proof.
  unfold Plex.get_artist_albums.
  destruct (Plex.unconfigured self); [by intros ?%elem_of_nil|].
  destruct (Plex.section_albums (Plex.server self) library_key) as [all_albums|];
    [|by intros ?%elem_of_nil].
  intros [Hp Hin]%list_elem_of_filter. exists all_albums.
  split; [done|]. split; [done|]. destruct Hp as [Hp|Hp]; [by left|right].
  apply Qge_bool_iff in Hp. by rewrite similarity_lower_l in Hp.
Qed.

(** Whenever Plex reports an album as in the library, the album it
    reports is one the server listed in a music section, its artist name
    equals the requested artist up to case or is at least 0.85 similar to
    it, and its title equals the requested title up to case or is at
    least 0.80 similar to it. *)
Theorem plex_match_is_served (self : Plex.PlexService)
    (album_name artist_name : string) (tracks : list SpotifyTrack) :
  in_library (Plex.check_album_in_library self album_name artist_name tracks)
    = true →
  ∃ directory section all_albums album,
    Plex.sections (Plex.server self) = Ok directory
    ∧ section ∈ directory
    ∧ Plex.dir_type section = "artist"
    ∧ Plex.section_albums (Plex.server self) (Plex.dir_key section) = Ok all_albums
    ∧ album ∈ all_albums
    ∧ (lower (Plex.album_parentTitle album) = lower artist_name
       ∨ (0.85 <= _similarity_ratio (Plex.album_parentTitle album) artist_name)%Q)
    ∧ (lower (Plex.album_title album) = lower album_name
       ∨ (0.80 <= _similarity_ratio (Plex.album_title album) album_name)%Q)
    ∧ library_album_id
        (Plex.check_album_in_library self album_name artist_name tracks)
      = Plex.album_ratingKey album
    ∧ library_album_name
        (Plex.check_album_in_library self album_name artist_name tracks)
      = Plex.album_get_title album.
Proof.
  intros Hin.
  destruct (plex_result_cases self album_name artist_name tracks)
    as [E|(library & Hlib & Hr)]; [by rewrite E in Hin|].
  apply plex_check_library_sound in Hr
    as (artist & album & _ & Halbum & _ & Hid & Hname & _ & _ & Hcase).
  apply plex_library_served in Hlib as (directory & section & Hd & Hs & Ht & Hk).
  rewrite Hk in Halbum.
  apply plex_album_served in Halbum as (all_albums & Ha & Hal & Hartist).
  exists directory, section, all_albums, album.
  do 6 (split; [done|]). split; [|done].
  destruct Hcase as [(_ & _ & ?)|(_ & Hc & Hge & _)]; [by left|right].
  by rewrite <- Hc.
Qed.

Lemma plex_match_is_served_witness :
  ∃ directory section all_albums album,
    Plex.sections (Plex.server Samples.near_plex) = Ok directory
    ∧ section ∈ directory
    ∧ Plex.dir_type section = "artist"
    ∧ Plex.section_albums (Plex.server Samples.near_plex) (Plex.dir_key section)
      = Ok all_albums
    ∧ album ∈ all_albums
    ∧ (lower (Plex.album_parentTitle album) = lower "Michael Jackson"
       ∨ (0.85 <= _similarity_ratio (Plex.album_parentTitle album) "Michael Jackson")%Q)
    ∧ (lower (Plex.album_title album) = lower "abcde"
       ∨ (0.80 <= _similarity_ratio (Plex.album_title album) "abcde")%Q)
    ∧ library_album_id
        (Plex.check_album_in_library Samples.near_plex
           "abcde" "Michael Jackson" Samples.two_tracks)
      = Plex.album_ratingKey album
    ∧ library_album_name
        (Plex.check_album_in_library Samples.near_plex
           "abcde" "Michael Jackson" Samples.two_tracks)
      = Plex.album_get_title album.
Proof.
  apply (plex_match_is_served Samples.near_plex
           "abcde" "Michael Jackson" Samples.two_tracks).
  vm_compute. reflexivity.
Defined.

Lemma jellyfin_album_served self artist_name album :
  album ∈ Jellyfin.get_artist_items self artist_name →
  ∃ user other_users artist other_artists items,
    Jellyfin.users (Jellyfin.server self) = Ok (user :: other_users)
    ∧ Jellyfin.search_artists (Jellyfin.server self)
        (Jellyfin.user_Id user) artist_name = Ok (artist :: other_artists)
    ∧ Jellyfin.artist_albums (Jellyfin.server self)
        (Jellyfin.user_Id user) (Jellyfin.Id artist) = Ok items
    ∧ album ∈ items.
Proof.
  unfold Jellyfin.get_artist_items.
  destruct (Jellyfin.unconfigured self); [by intros ?%elem_of_nil|].
  destruct (Jellyfin.users (Jellyfin.server self)) as [[|user others]|];
    [by intros ?%elem_of_nil| |by intros ?%elem_of_nil].
  destruct (Jellyfin.search_artists _ _ _) as [[|artist artists]|] eqn:Es;
    [by intros ?%elem_of_nil| |by intros ?%elem_of_nil].
  destruct (Jellyfin.artist_albums _ _ _) as [items|] eqn:Ea;
    [|by intros ?%elem_of_nil].
  intros Hin. by exists user, others, artist, artists, items.
Qed.

(** Whenever Jellyfin reports an album as in the library, the album it
    reports is one the server listed for the first hit of the artist
    search made for the first user, and its title equals the requested
    title up to case or is at least 0.85 similar to it. *)
Theorem jellyfin_match_is_served (self : Jellyfin.JellyfinService)
    (album_name artist_name : string) (tracks : list SpotifyTrack) :
  in_library (Jellyfin.check_album_in_library self album_name artist_name tracks)
    = true →
  ∃ user other_users artist other_artists items album,
    Jellyfin.users (Jellyfin.server self) = Ok (user :: other_users)
    ∧ Jellyfin.search_artists (Jellyfin.server self)
        (Jellyfin.user_Id user) artist_name = Ok (artist :: other_artists)
    ∧ Jellyfin.artist_albums (Jellyfin.server self)
        (Jellyfin.user_Id user) (Jellyfin.Id artist) = Ok items
    ∧ album ∈ items
    ∧ (lower (Jellyfin.Name album) = lower album_name
       ∨ (0.85 <= _similarity_ratio (Jellyfin.Name album) album_name)%Q)
    ∧ library_album_id
        (Jellyfin.check_album_in_library self album_name artist_name tracks)
      = Some (Jellyfin.Id album)
    ∧ library_album_name
        (Jellyfin.check_album_in_library self album_name artist_name tracks)
      = Some (Jellyfin.Name album).
Proof.
  intros Hin.
  destruct (jellyfin_check_sound self album_name artist_name tracks _ eq_refl)
    as [(c & E & _)|(album & Halbum & _ & Hid & Hname & _ & _ & Hcase)];
    [by rewrite E in Hin|].
  apply jellyfin_album_served in Halbum
    as (user & others & artist & artists & items & Hu & Hs & Ha & Hal).
  exists user, others, artist, artists, items, album.
  do 4 (split; [done|]). split; [|done].
  destruct Hcase as [(_ & _ & ?)|(_ & Hc & Hge & _)]; [by left|right].
  by rewrite <- Hc.
Qed.

Lemma jellyfin_match_is_served_witness :
  ∃ user other_users artist other_artists items album,
    Jellyfin.users (Jellyfin.server Samples.thriller_jellyfin)
      = Ok (user :: other_users)
    ∧ Jellyfin.search_artists (Jellyfin.server Samples.thriller_jellyfin)
        (Jellyfin.user_Id user) "Michael Jackson" = Ok (artist :: other_artists)
    ∧ Jellyfin.artist_albums (Jellyfin.server Samples.thriller_jellyfin)
        (Jellyfin.user_Id user) (Jellyfin.Id artist) = Ok items
    ∧ album ∈ items
    ∧ (lower (Jellyfin.Name album) = lower "thriller"
       ∨ (0.85 <= _similarity_ratio (Jellyfin.Name album) "thriller")%Q)
    ∧ library_album_id
        (Jellyfin.check_album_in_library Samples.thriller_jellyfin
           "thriller" "Michael Jackson" Samples.thriller_tracks)
      = Some (Jellyfin.Id album)
    ∧ library_album_name
        (Jellyfin.check_album_in_library Samples.thriller_jellyfin
           "thriller" "Michael Jackson" Samples.thriller_tracks)
      = Some (Jellyfin.Name album).
Proof.
  apply (jellyfin_match_is_served Samples.thriller_jellyfin
           "thriller" "Michael Jackson" Samples.thriller_tracks).
  vm_compute. reflexivity.
Defined.

(** ** Confidence and shape of the results *)

Lemma plex_confidence_cases self album_name artist_name tracks :
  ∀ r, r = Plex.check_album_in_library self album_name artist_name tracks →
  (r = not_found 0 tracks)
  ∨ (in_library r = true ∧ match_type r = exact ∧ match_confidence r = 1%Q)
  ∨ (in_library r = true ∧ match_type r = similar
     ∧ (0.80 <= match_confidence r)%Q ∧ (match_confidence r < 1)%Q).
Proof.
  intros r ->.
  destruct (plex_result_cases self album_name artist_name tracks)
    as [E|(library & _ & Hr)]; [by left|]. right.
  apply plex_check_library_sound in Hr
    as (artist & album & _ & Hal & Hin & Hid & Hname & _ & _ & Hcase).
  destruct Hcase as [(Ht & Hc & _)|(Ht & Hc & Hge & Hno)].
  - left. by do 2 (split; [done|]).
  - right. do 3 (split; [done|]).
    rewrite Hc. apply similarity_lt_one. by apply Hno.
Qed.

Lemma jellyfin_confidence_cases self album_name artist_name tracks :
  ∀ r, r = Jellyfin.check_album_in_library self album_name artist_name tracks →
  (∃ confidence, r = not_found confidence tracks ∧ (0 <= confidence < 0.85)%Q)
  ∨ (in_library r = true ∧ match_type r = exact ∧ match_confidence r = 1%Q
     ∧ is_Some (library_album_id r) ∧ is_Some (library_album_name r))
  ∨ (in_library r = true ∧ match_type r = similar
     ∧ (0.85 <= match_confidence r)%Q ∧ (match_confidence r < 1)%Q
     ∧ is_Some (library_album_id r) ∧ is_Some (library_album_name r)).
Proof.
  intros r Hr.
  destruct (jellyfin_check_sound self album_name artist_name tracks r Hr)
    as [(c & E & Hc & _)|(album & Hal & Hin & Hid & Hname & _ & _ & Hcase)].
  { left. by exists c. }
  right. destruct Hcase as [(Ht & Hc & _)|(Ht & Hc & Hge & Hno)].
  - left. rewrite Hid, Hname. by do 3 (split; [done|]).
  - right. rewrite Hid, Hname. do 3 (split; [done|]). split; [|done].
    rewrite Hc. apply similarity_lt_one. by apply Hno.
Qed.

(** The confidence of every result of either service lies between 0.0
    and 1.0. *)
Theorem confidence_range
    (plex : Plex.PlexService) (jellyfin : Jellyfin.JellyfinService)
    (album_name artist_name : string) (tracks : list SpotifyTrack) :
  (0 <= match_confidence
          (Plex.check_album_in_library plex album_name artist_name tracks) <= 1)%Q
  ∧ (0 <= match_confidence
            (Jellyfin.check_album_in_library jellyfin album_name artist_name tracks)
       <= 1)%Q.
Proof.
  split.
  - destruct (plex_confidence_cases plex album_name artist_name tracks _ eq_refl)
      as [->|[(_ & _ & ->)|(_ & _ & Hge & Hlt)]]; [done..|].
    split; [|by apply Qlt_le_weak]. eapply Qle_trans; [|exact Hge]. done.
  - destruct (jellyfin_confidence_cases jellyfin album_name artist_name tracks
                _ eq_refl)
      as [(c & -> & Hc1 & Hc2)|[(_ & _ & -> & _)|(_ & _ & Hge & Hlt & _)]];
      [|done|].
    + simpl. split; [done|]. apply Qlt_le_weak. eapply Qlt_trans; [exact Hc2|done].
    + split; [|by apply Qlt_le_weak]. eapply Qle_trans; [|exact Hge]. done.
Qed.

(** A match of type [similar] has a confidence of at least the threshold
    of the service (0.80 for Plex, 0.85 for Jellyfin) and strictly below
    1.0; a Jellyfin result of type [none] has a confidence below 0.85. *)
Theorem confidence_by_match_type
    (plex : Plex.PlexService) (jellyfin : Jellyfin.JellyfinService)
    (album_name artist_name : string) (tracks : list SpotifyTrack) :
  let p := Plex.check_album_in_library plex album_name artist_name tracks in
  let j := Jellyfin.check_album_in_library jellyfin album_name artist_name tracks in
  (match_type p = similar → (0.80 <= match_confidence p < 1)%Q)
  ∧ (match_type j = similar → (0.85 <= match_confidence j < 1)%Q)
  ∧ (match_type j = none → (match_confidence j < 0.85)%Q).
Proof.
  cbv zeta. split; [|split].
  - destruct (plex_confidence_cases plex album_name artist_name tracks _ eq_refl)
      as [->|[(_ & -> & _)|(_ & _ & Hge & Hlt)]]; done.
  - destruct (jellyfin_confidence_cases jellyfin album_name artist_name tracks
                _ eq_refl)
      as [(c & -> & _)|[(_ & -> & _)|(_ & _ & Hge & Hlt & _)]]; done.
  - destruct (jellyfin_confidence_cases jellyfin album_name artist_name tracks
                _ eq_refl)
      as [(c & -> & _ & Hc)|[(_ & -> & _)|(_ & -> & _)]]; done.
Qed.

Lemma confidence_by_match_type_witness :
  (0.80 <= match_confidence
             (Plex.check_album_in_library Samples.near_plex
                "abcde" "Michael Jackson" Samples.two_tracks) < 1)%Q
  ∧ (match_confidence
       (Jellyfin.check_album_in_library Samples.near_jellyfin
          "abcde" "Michael Jackson" Samples.two_tracks) < 0.85)%Q.
Proof.
  destruct (confidence_by_match_type Samples.near_plex Samples.near_jellyfin
              "abcde" "Michael Jackson" Samples.two_tracks) as (Hp & _ & Hj).
  split; [apply Hp | apply Hj]; vm_compute; reflexivity.
Defined.

(** In every result of either service, [in_library] is true exactly
    when the match type is not [none].  A result that carries an album
    id or an album name is in the library.  A Jellyfin result in the
    library always carries both; a Plex result in the library carries
    the [ratingKey] and the [title] of the album, either of which the
    album may lack. *)
Theorem result_consistency
    (plex : Plex.PlexService) (jellyfin : Jellyfin.JellyfinService)
    (album_name artist_name : string) (tracks : list SpotifyTrack) :
  let p := Plex.check_album_in_library plex album_name artist_name tracks in
  let j := Jellyfin.check_album_in_library jellyfin album_name artist_name tracks in
  ((in_library p = true ↔ match_type p ≠ none)
   ∧ (is_Some (library_album_id p) → in_library p = true)
   ∧ (is_Some (library_album_name p) → in_library p = true))
  ∧ ((in_library j = true ↔ match_type j ≠ none)
     ∧ (in_library j = true ↔ is_Some (library_album_id j))
     ∧ (in_library j = true ↔ is_Some (library_album_name j))).
Proof.
  cbv zeta. split.
  - destruct (plex_confidence_cases plex album_name artist_name tracks _ eq_refl)
      as [->|[(-> & -> & _)|(-> & -> & _)]];
      simpl; repeat split; try done; by intros []%is_Some_None.
  - destruct (jellyfin_confidence_cases jellyfin album_name artist_name tracks
                _ eq_refl)
      as [(c & -> & _)|[(-> & -> & _ & Hi & Hn)|(-> & -> & _ & _ & Hi & Hn)]];
      simpl; repeat split; try done; by intros []%is_Some_None.
Qed.

Lemma result_consistency_witness :
  in_library
    (Plex.check_album_in_library Samples.thriller_plex
       "Thriller" "Michael Jackson" Samples.thriller_tracks) = true
  ∧ in_library
      (Plex.check_album_in_library Samples.thriller_plex
         "Thriller" "Michael Jackson" Samples.thriller_tracks) = true.
Proof.
  destruct (result_consistency Samples.thriller_plex Samples.thriller_jellyfin
              "Thriller" "Michael Jackson" Samples.thriller_tracks)
    as [(_ & Hid & Hname) _].
  split; [apply Hid | apply Hname]; vm_compute; eexists; reflexivity.
Defined.

(** A Plex album without [ratingKey] and without [title] is matched by
    the empty album name and reported as in the library, with no album
    id and no album name. *)
Example plex_album_without_keys :
  Plex.check_album_in_library MoreSamples.untagged_plex
    "" "Michael Jackson" [ Samples.track "One" ]
  = {| in_library := true;
       match_type := exact;
       match_confidence := 1;
       available_tracks := [ "One" ];
       missing_tracks := [];
       library_album_id := None;
       library_album_name := None |}.
Proof. vm_compute. reflexivity. Qed.

(** ** The track lists *)

Lemma split_of_sublist names available missing :
  split_of names available missing →
  available `sublist_of` names ∧ missing `sublist_of` names
  ∧ length available + length missing = length names.
Proof.
  intros (test & -> & ->). split; [apply sublist_filter|].
  split; [apply sublist_filter|].
  induction names as [|n names IH]; [done|].
  rewrite !filter_cons. destruct (test n); simpl; lia.
Qed.

(** In every result of either service, [available_tracks] and
    [missing_tracks] list canonical track names in the order of the
    canonical list, and together they have as many entries as there are
    canonical tracks. *)
Theorem track_lists_keep_order
    (plex : Plex.PlexService) (jellyfin : Jellyfin.JellyfinService)
    (album_name artist_name : string) (tracks : list SpotifyTrack) :
  let p := Plex.check_album_in_library plex album_name artist_name tracks in
  let j := Jellyfin.check_album_in_library jellyfin album_name artist_name tracks in
  (available_tracks p `sublist_of` (name <$> tracks)
   ∧ missing_tracks p `sublist_of` (name <$> tracks)
   ∧ length (available_tracks p) + length (missing_tracks p) = length tracks)
  ∧ (available_tracks j `sublist_of` (name <$> tracks)
     ∧ missing_tracks j `sublist_of` (name <$> tracks)
     ∧ length (available_tracks j) + length (missing_tracks j) = length tracks).
Proof.
  cbv zeta. rewrite <- (length_fmap name tracks). split.
  - eapply split_of_sublist, result_split_plex. reflexivity.
  - eapply split_of_sublist, result_split_jellyfin. reflexivity.
Qed.

Lemma in_library_titles_mono titles titles' track_name :
  (∀ t, t ∈ titles → t ∈ titles') →
  in_library_titles titles track_name → in_library_titles titles' track_name.
Proof.
  intros Hsub [Hin|(title & Hin & Hr)].
  - left. apply list_elem_of_fmap in Hin as (t & -> & Ht).
    apply list_elem_of_fmap. eauto.
  - right. eauto.
Qed.

Lemma compare_mono titles titles' tracks n :
  (∀ t, t ∈ titles → t ∈ titles') →
  (n ∈ (compare_tracks (list_to_set (lower <$> titles)) tracks).1 →
   n ∈ (compare_tracks (list_to_set (lower <$> titles')) tracks).1)
  ∧ (n ∈ (compare_tracks (list_to_set (lower <$> titles')) tracks).2 →
     n ∈ (compare_tracks (list_to_set (lower <$> titles)) tracks).2).
Proof.
  intros Hsub. rewrite !compare_tracks_filter; simpl.
  rewrite !list_elem_of_filter. split.
  - intros [Ha Hn]. split; [|done]. apply Is_true_true.
    apply Is_true_true in Ha. apply track_available_spec.
    apply track_available_spec in Ha. by eapply in_library_titles_mono.
  - intros [Ha Hn]. split; [|done]. intros Ha'. apply Ha.
    apply Is_true_true. apply Is_true_true in Ha'. apply track_available_spec.
    apply track_available_spec in Ha'. by eapply in_library_titles_mono.
Qed.

(** Adding tracks to the album of the library never turns an available
    track into a missing one: every name available against a list of
    library tracks is available against a larger list, and every name
    missing against the larger list is missing against the smaller. *)
Theorem more_library_tracks
    (plex_tracks plex_tracks' : list Plex.Track)
    (jf_tracks jf_tracks' : list Jellyfin.Item)
    (tracks : list SpotifyTrack) (n : string) :
  (∀ t, t ∈ plex_tracks → t ∈ plex_tracks') →
  (∀ t, t ∈ jf_tracks → t ∈ jf_tracks') →
  ((n ∈ (Plex.reconcile_tracks plex_tracks tracks).1 →
    n ∈ (Plex.reconcile_tracks plex_tracks' tracks).1)
   ∧ (n ∈ (Plex.reconcile_tracks plex_tracks' tracks).2 →
      n ∈ (Plex.reconcile_tracks plex_tracks tracks).2))
  ∧ ((n ∈ (Jellyfin.reconcile_tracks jf_tracks tracks).1 →
      n ∈ (Jellyfin.reconcile_tracks jf_tracks' tracks).1)
     ∧ (n ∈ (Jellyfin.reconcile_tracks jf_tracks' tracks).2 →
        n ∈ (Jellyfin.reconcile_tracks jf_tracks tracks).2)).
Proof.
  intros Hp Hj. unfold Plex.reconcile_tracks, Jellyfin.reconcile_tracks.
  rewrite !(list_fmap_compose Plex.track_title lower),
          !(list_fmap_compose Jellyfin.Name lower).
  split; apply compare_mono.
  - intros t (x & -> & Hx)%list_elem_of_fmap. apply list_elem_of_fmap. eauto.
  - intros t (x & -> & Hx)%list_elem_of_fmap. apply list_elem_of_fmap. eauto.
Qed.

Lemma more_library_tracks_witness :
  "Billie Jean" ∈ (Plex.reconcile_tracks
                     [ {| Plex.track_title := "Beat It" |};
                       {| Plex.track_title := "billie jean" |} ]
                     Samples.thriller_tracks).1.
Proof.
  assert (∀ t : Plex.Track,
            t ∈ [ {| Plex.track_title := "billie jean" |} ] →
            t ∈ [ {| Plex.track_title := "Beat It" |};
                  {| Plex.track_title := "billie jean" |} ]) as Hp
    by (intros t Ht; by right).
  assert (∀ t : Jellyfin.Item,
            t ∈ [] → t ∈ [ {| Jellyfin.Id := "1"; Jellyfin.Name := "Beat It" |} ])
    as Hj by (intros t Ht; by apply elem_of_nil in Ht).
  pose proof (more_library_tracks _ _ _ _ Samples.thriller_tracks "Billie Jean"
                Hp Hj) as [[Hmore _] _].
  apply Hmore.
  assert ((Plex.reconcile_tracks [ {| Plex.track_title := "billie jean" |} ]
             Samples.thriller_tracks).1 = [ "Billie Jean" ]) as E
    by (vm_compute; reflexivity).
  rewrite E. left.
Defined.

(** Edge cases of the track comparison, in both services: against an
    album without tracks every canonical name is missing; an empty
    canonical list gives two empty lists. *)
Theorem track_comparison_edges
    (plex_tracks : list Plex.Track) (jf_tracks : list Jellyfin.Item)
    (tracks : list SpotifyTrack) :
  Plex.reconcile_tracks [] tracks = ([], name <$> tracks)
  ∧ Jellyfin.reconcile_tracks [] tracks = ([], name <$> tracks)
  ∧ Plex.reconcile_tracks plex_tracks [] = ([], [])
  ∧ Jellyfin.reconcile_tracks jf_tracks [] = ([], []).
Proof.
  unfold Plex.reconcile_tracks, Jellyfin.reconcile_tracks; simpl.
  by rewrite compare_tracks_empty.
Qed.

(** ** The loop over the libraries *)

Lemma plex_no_match self album_name artist_name tracks libraries :
  (∀ l, l ∈ libraries →
     Plex.check_library self album_name artist_name tracks l = None) →
  Plex.search_libraries self album_name artist_name tracks libraries = None.
Proof.
  induction libraries as [|l ls IH]; intros Hnone; simpl; [done|].
  rewrite Hnone by left. apply IH. intros l' Hl'. apply Hnone. by right.
Qed.

(** The answer of Plex is the result of the first music library, in
    server order, that yields one; the libraries after it play no part.
    When no library yields a result the answer is the not-found result
    with confidence 0.0. *)
Theorem first_library_decides (self : Plex.PlexService)
    (album_name artist_name : string) (tracks : list SpotifyTrack) :
  (∀ before library rest r,
     Plex.get_music_libraries self = before ++ library :: rest →
     (∀ l, l ∈ before →
        Plex.check_library self album_name artist_name tracks l = None) →
     Plex.check_library self album_name artist_name tracks library = Some r →
     Plex.check_album_in_library self album_name artist_name tracks = r)
  ∧ ((∀ l, l ∈ Plex.get_music_libraries self →
        Plex.check_library self album_name artist_name tracks l = None) →
     Plex.check_album_in_library self album_name artist_name tracks
     = not_found 0 tracks).
Proof.
  split.
  - intros before library rest r. apply plex_first_match.
  - intros Hnone. unfold Plex.check_album_in_library.
    destruct (Plex.get_music_libraries self) as [|l ls] eqn:E; [done|].
    by rewrite (plex_no_match _ _ _ _ _ Hnone).
Qed.

Lemma first_library_decides_witness :
  Plex.check_album_in_library Samples.artist_error_plex
    "Thriller" "Michael Jackson" Samples.thriller_tracks
  = {| in_library := true;
       match_type := exact;
       match_confidence := 1;
       available_tracks := [ "Wanna Be Startin' Somethin'"; "Billie Jean"; "Thriller" ];
       missing_tracks := [];
       library_album_id := Some "/second";
       library_album_name := Some "Thriller" |}.
Proof.
  apply (proj1 (first_library_decides Samples.artist_error_plex
                  "Thriller" "Michael Jackson" Samples.thriller_tracks)
           [ {| Plex.key := "1"; Plex.title := "Music" |} ]
           {| Plex.key := "2"; Plex.title := "More music" |} []).
  - reflexivity.
  - intros l Hl. apply list_elem_of_singleton in Hl as ->. reflexivity.
  - vm_compute. reflexivity.
Defined.

(** ** Jellyfin: exact titles and failures *)

Lemma filter_first {X} (P : X → Prop) `{∀ x, Decision (P x)} (before after : list X) x :
  P x → (∀ y, y ∈ before → ¬ P y) →
  filter P (before ++ x :: after) = x :: filter P after.
Proof.
  intros Hx Hb. induction before as [|y before IH]; simpl.
  - by rewrite filter_cons_True.
  - rewrite filter_cons_False by (apply Hb; left).
    apply IH. intros z Hz. apply Hb. by right.
Qed.

(** Jellyfin takes the first album, in server order, whose title equals
    the requested title up to case, whatever albums follow it and
    whatever their track counts; the result is [exact] with confidence
    1.0 and its track lists come from that album's tracks. *)
Theorem jellyfin_first_exact_match (self : Jellyfin.JellyfinService)
    (album_name artist_name : string) (tracks : list SpotifyTrack)
    (before after : list Jellyfin.Item) (album : Jellyfin.Item) :
  Jellyfin.get_artist_items self artist_name = before ++ album :: after →
  lower (Jellyfin.Name album) = lower album_name →
  (∀ al, al ∈ before → lower (Jellyfin.Name al) ≠ lower album_name) →
  Jellyfin.check_album_in_library self album_name artist_name tracks
  = {| in_library := true;
       match_type := exact;
       match_confidence := 1;
       available_tracks :=
         (Jellyfin.reconcile_tracks
            (Jellyfin.get_album_tracks self (Jellyfin.Id album)) tracks).1;
       missing_tracks :=
         (Jellyfin.reconcile_tracks
            (Jellyfin.get_album_tracks self (Jellyfin.Id album)) tracks).2;
       library_album_id := Some (Jellyfin.Id album);
       library_album_name := Some (Jellyfin.Name album) |}.
Proof.
  intros Ha Heq Hbefore.
  apply (jellyfin_check_exact self album_name artist_name tracks
           (before ++ album :: after) album
           (filter (λ al, lower (Jellyfin.Name al) = lower album_name) after) Ha).
  by apply filter_first.
Qed.

Lemma jellyfin_first_exact_match_witness :
  library_album_id
    (Jellyfin.check_album_in_library
       (Samples.jellyfin
          [ {| Jellyfin.Id := "1"; Jellyfin.Name := "Greatest Hits" |};
            {| Jellyfin.Id := "2"; Jellyfin.Name := "X" |};
            {| Jellyfin.Id := "3"; Jellyfin.Name := "x" |} ]
          (λ album_id, if bool_decide (album_id = "3")
                       then Ok [ {| Jellyfin.Id := "t1"; Jellyfin.Name := "One" |};
                                 {| Jellyfin.Id := "t2"; Jellyfin.Name := "Two" |} ]
                       else Ok []))
       "X" "Michael Jackson" Samples.two_tracks)
  = Some "2".
Proof.
  rewrite (jellyfin_first_exact_match _ "X" "Michael Jackson" Samples.two_tracks
             [ {| Jellyfin.Id := "1"; Jellyfin.Name := "Greatest Hits" |} ]
             [ {| Jellyfin.Id := "3"; Jellyfin.Name := "x" |} ]
             {| Jellyfin.Id := "2"; Jellyfin.Name := "X" |}).
  - reflexivity.
  - reflexivity.
  - reflexivity.
  - intros al Hal. apply list_elem_of_singleton in Hal as ->. discriminate.
Defined.

Lemma jellyfin_unavailable_no_items self artist_name :
  jellyfin_unavailable self artist_name ↔
  Jellyfin.get_artist_items self artist_name = [].
Proof.
  unfold jellyfin_unavailable, Jellyfin.get_artist_items.
  destruct (Jellyfin.unconfigured self); [naive_solver|].
  destruct (Jellyfin.users (Jellyfin.server self)) as [[|user others]|] eqn:Eu;
    [naive_solver| |naive_solver].
  destruct (Jellyfin.search_artists _ _ _) as [[|artist artists]|] eqn:Es.
  - split; [done|]. intros _. do 3 right. exists user, others. naive_solver.
  - destruct (Jellyfin.artist_albums _ _ _) as [[|item items]|] eqn:Ea.
    + split; [done|]. intros _. do 3 right. exists user, others.
      split; [done|]. do 2 right. exists artist, artists. naive_solver.
    + split; [|done]. intros [?|[?|[?|(u & us & [= <- <-] & Hs)]]]; try done.
      rewrite Es in Hs. destruct Hs as [?|[?|(a & a' & [= <- <-] & Ha)]]; try done.
      rewrite Ea in Ha. naive_solver.
    + split; [done|]. intros _. do 3 right. exists user, others.
      split; [done|]. do 2 right. exists artist, artists. naive_solver.
  - split; [done|]. intros _. do 3 right. exists user, others. naive_solver.
Qed.

(** In each failure case of the album listing of Jellyfin (the service
    is unconfigured, a request for the users, the artist or the albums
    raises, or one of these three listings is empty) the answer is the
    not-found result with confidence 0.0. *)
Theorem jellyfin_unavailable_result (self : Jellyfin.JellyfinService)
    (album_name artist_name : string) (tracks : list SpotifyTrack) :
  jellyfin_unavailable self artist_name →
  Jellyfin.check_album_in_library self album_name artist_name tracks
  = not_found 0 tracks.
Proof.
  intros Hu%jellyfin_unavailable_no_items.
  unfold Jellyfin.check_album_in_library. by rewrite Hu.
Qed.

Lemma jellyfin_unavailable_result_witness :
  Jellyfin.check_album_in_library
    {| Jellyfin.base_url := "http://jellyfin:8096";
       Jellyfin.api_key := "key";
       Jellyfin.server :=
         {| Jellyfin.users := Ok [ {| Jellyfin.user_Id := "u1" |} ];
            Jellyfin.search_artists := λ _ _, Raised;
            Jellyfin.artist_albums := λ _ _, Ok [];
            Jellyfin.album_children := λ _ _, Ok [] |} |}
    "Thriller" "Michael Jackson" Samples.thriller_tracks
  = not_found 0 Samples.thriller_tracks.
Proof.
  apply jellyfin_unavailable_result.
  do 3 right. exists {| Jellyfin.user_Id := "u1" |}, [].
  split; [reflexivity|]. left. reflexivity.
Defined.

(** ** The artist lookup of Plex *)

Lemma filter_head_split {X} (P : X → Prop) `{∀ x, Decision (P x)} (l : list X) x rest :
  filter P l = x :: rest →
  ∃ before after, l = before ++ x :: after ∧ P x ∧ ∀ y, y ∈ before → ¬ P y.
Proof.
  induction l as [|y l IH]; [done|]. rewrite filter_cons.
  destruct (decide (P y)) as [Hy|Hy].
  - intros [= -> <-]. exists [], l. split; [done|]. split; [done|].
    by intros ? ?%elem_of_nil.
  - intros (before & after & -> & Hx & Hb)%IH.
    exists (y :: before), after. split; [done|]. split; [done|].
    intros z [->|Hz]%elem_of_cons; [done|by apply Hb].
Qed.

Lemma filter_nil_not {X} (P : X → Prop) `{∀ x, Decision (P x)} (l : list X) :
  filter P l = [] → ∀ y, y ∈ l → ¬ P y.
Proof.
  intros E y Hy HP.
  assert (y ∈ filter P l) as Hin by by apply list_elem_of_filter.
  rewrite E in Hin. by apply elem_of_nil in Hin.
Qed.

(** For a configured service whose artist listing succeeds,
    [search_artist_in_library] returns the first artist whose title
    equals the name up to case when there is one; otherwise the first
    artist with the largest similarity ratio, provided that ratio is at
    least 0.85; otherwise nothing. *)
Theorem search_artist_spec (self : Plex.PlexService)
    (library_key artist_name : string) (artists : list Plex.Artist) :
  Plex.unconfigured self = false →
  Plex.section_artists (Plex.server self) library_key = Ok artists →
  match Plex.search_artist_in_library self library_key artist_name with
  | Some artist =>
      (∃ before after,
         artists = before ++ artist :: after
         ∧ lower (Plex.artist_title artist) = lower artist_name
         ∧ ∀ x, x ∈ before → lower (Plex.artist_title x) ≠ lower artist_name)
      ∨ ((∀ x, x ∈ artists → lower (Plex.artist_title x) ≠ lower artist_name)
         ∧ first_best Plex.artist_title artist_name artists (Some artist)
             (_similarity_ratio (Plex.artist_title artist) artist_name)
         ∧ (0.85 <= _similarity_ratio (Plex.artist_title artist) artist_name)%Q)
  | None =>
      ∀ x, x ∈ artists →
        lower (Plex.artist_title x) ≠ lower artist_name
        ∧ (_similarity_ratio (Plex.artist_title x) artist_name < 0.85)%Q
  end.
Proof.
  intros Hc Ha. unfold Plex.search_artist_in_library. rewrite Hc, Ha.
  destruct (filter _ artists) as [|x rest] eqn:Hf.
  - pose proof (filter_nil_not _ _ Hf) as Hno.
    pose proof (similarity_scan_spec Plex.artist_title artist_name artists) as Hspec.
    destruct (similarity_scan Plex.artist_title artist_name artists) as [best r].
    simpl in Hspec.
    destruct (Qge_bool r 0.85) eqn:Hge.
    + apply Qge_bool_iff in Hge. destruct best as [artist|].
      * right. split; [done|].
        pose proof (first_best_elem _ _ _ _ _ Hspec) as [_ Hr]. rewrite Hr.
        by split.
      * destruct Hspec as [_ ->]. vm_compute in Hge. by destruct Hge.
    + apply Qge_bool_false in Hge. intros y Hy. split; [by apply Hno|].
      destruct Hspec as [Hmax _]. eapply Qle_lt_trans; [by apply Hmax|done].
  - left. apply filter_head_split in Hf as (before & after & -> & Hx & Hb).
    by exists before, after.
Qed.

Lemma search_artist_spec_witness :
  ∃ artist,
    Plex.search_artist_in_library Samples.thriller_plex "2" "MICHAEL JACKSON"
      = Some artist
    ∧ lower (Plex.artist_title artist) = lower "MICHAEL JACKSON".
Proof.
  pose proof (search_artist_spec Samples.thriller_plex "2" "MICHAEL JACKSON"
                [ {| Plex.artist_title := "Michael Jackson" |} ]
                eq_refl eq_refl) as Hspec.
  destruct (Plex.search_artist_in_library Samples.thriller_plex "2" "MICHAEL JACKSON")
    as [artist|] eqn:E.
  - exists artist. split; [reflexivity|].
    destruct Hspec as [(before & after & _ & Heq & _)|(Hno & _)]; [exact Heq|].
    exfalso. apply (Hno {| Plex.artist_title := "Michael Jackson" |}); [left|].
    reflexivity.
  - exfalso. destruct (Hspec {| Plex.artist_title := "Michael Jackson" |}) as [Hne _];
      [left|]. apply Hne. reflexivity.
Defined.

(** ** Construction of the services *)

Lemma rstrip_slashes n : Setup.rstrip_slash (slashes n) = "".
Proof. induction n as [|n IH]; [done|]. simpl. by rewrite IH. Qed.

Lemma rstrip_app_slashes s n :
  Setup.rstrip_slash (s ++ slashes n) = Setup.rstrip_slash s.
Proof.
  induction s as [|c s IH]; simpl; [apply rstrip_slashes|]. by rewrite IH.
Qed.

Lemma rstrip_empty s : Setup.rstrip_slash s = "" ↔ ∃ n, s = slashes n.
Proof.
  split; [|intros [n ->]; apply rstrip_slashes].
  induction s as [|c s IH]; simpl; [by exists 0|].
  destruct (Setup.rstrip_slash s) eqn:E; [|done].
  destruct (Ascii.eqb c "/") eqn:Ec; [|done]. intros _.
  apply Ascii.eqb_eq in Ec as ->. destruct IH as [n ->]; [done|]. by exists (S n).
Qed.

Lemma rstrip_no_trailing s t : Setup.rstrip_slash s ≠ (t ++ "/")%string.
Proof.
  revert t. induction s as [|c s IH]; intros t; simpl.
  - by destruct t.
  - destruct (Setup.rstrip_slash s) as [|c' r] eqn:E.
    + destruct (Ascii.eqb c "/") eqn:Ec; [by destruct t|].
      destruct t as [|x t]; simpl.
      * intros [= ->]. by rewrite Ascii.eqb_refl in Ec.
      * intros [= _ Ht]. by destruct t.
    + destruct t as [|x t]; simpl; [done|].
      intros [= _ Ht]. by apply (IH t).
Qed.

(** The services ignore any number of slashes at the end of the
    configured URL, and the base URL they keep never ends in a slash. *)
Theorem base_url_normalised (settings : Setup.Settings) (n : nat)
    (plex_server : Plex.Server) (jellyfin_server : Jellyfin.Server) :
  Setup.PlexService__init__
    {| Setup.jellyfin_url := Setup.jellyfin_url settings;
       Setup.jellyfin_api_key := Setup.jellyfin_api_key settings;
       Setup.plex_url := Setup.plex_url settings ++ slashes n;
       Setup.plex_token := Setup.plex_token settings |} plex_server
  = Setup.PlexService__init__ settings plex_server
  ∧ Setup.JellyfinService__init__
      {| Setup.jellyfin_url := Setup.jellyfin_url settings ++ slashes n;
         Setup.jellyfin_api_key := Setup.jellyfin_api_key settings;
         Setup.plex_url := Setup.plex_url settings;
         Setup.plex_token := Setup.plex_token settings |} jellyfin_server
    = Setup.JellyfinService__init__ settings jellyfin_server
  ∧ (∀ t, Plex.base_url (Setup.PlexService__init__ settings plex_server)
          ≠ (t ++ "/")%string)
  ∧ (∀ t, Jellyfin.base_url (Setup.JellyfinService__init__ settings jellyfin_server)
          ≠ (t ++ "/")%string).
Proof.
  unfold Setup.PlexService__init__, Setup.JellyfinService__init__. simpl.
  rewrite !rstrip_app_slashes.
  refine (conj eq_refl (conj eq_refl (conj _ _))); intros t; apply rstrip_no_trailing.
Qed.

Lemma plex_init_unconfigured settings server :
  Plex.unconfigured (Setup.PlexService__init__ settings server) = true ↔
  (∃ n, Setup.plex_url settings = slashes n) ∨ Setup.plex_token settings = "".
Proof.
  unfold Plex.unconfigured. simpl.
  rewrite orb_true_iff, !bool_decide_eq_true, rstrip_empty. done.
Qed.

Lemma jellyfin_init_unconfigured settings server :
  Jellyfin.unconfigured (Setup.JellyfinService__init__ settings server) = true ↔
  (∃ n, Setup.jellyfin_url settings = slashes n)
  ∨ Setup.jellyfin_api_key settings = "".
Proof.
  unfold Jellyfin.unconfigured. simpl.
  rewrite orb_true_iff, !bool_decide_eq_true, rstrip_empty. done.
Qed.

(** A service built from settings whose URL is empty or made of slashes
    only, or whose token is empty, finds no album, whatever the server
    would answer: it returns the not-found result with confidence 0.0. *)
Theorem blank_settings_find_nothing (settings : Setup.Settings)
    (plex_server : Plex.Server) (jellyfin_server : Jellyfin.Server)
    (album_name artist_name : string) (tracks : list SpotifyTrack) :
  ((∃ n, Setup.plex_url settings = slashes n) ∨ Setup.plex_token settings = "" →
   Plex.check_album_in_library (Setup.PlexService__init__ settings plex_server)
     album_name artist_name tracks = not_found 0 tracks)
  ∧ ((∃ n, Setup.jellyfin_url settings = slashes n)
     ∨ Setup.jellyfin_api_key settings = "" →
     Jellyfin.check_album_in_library
       (Setup.JellyfinService__init__ settings jellyfin_server)
       album_name artist_name tracks = not_found 0 tracks).
Proof.
  split.
  - intros Hu%(plex_init_unconfigured settings plex_server).
    unfold Plex.check_album_in_library.
    by rewrite (plex_unconfigured_no_libraries _ Hu).
  - intros Hu%(jellyfin_init_unconfigured settings jellyfin_server).
    unfold Jellyfin.check_album_in_library, Jellyfin.get_artist_items.
    by rewrite Hu.
Qed.

Lemma blank_settings_find_nothing_witness :
  Plex.check_album_in_library
    (Setup.PlexService__init__ MoreSamples.settings_only_slashes (Plex.server Samples.thriller_plex))
    "Thriller" "Michael Jackson" Samples.thriller_tracks
  = not_found 0 Samples.thriller_tracks
  ∧ Jellyfin.check_album_in_library
      (Setup.JellyfinService__init__ MoreSamples.settings_only_slashes
         (Jellyfin.server Samples.thriller_jellyfin))
      "Thriller" "Michael Jackson" Samples.thriller_tracks
    = not_found 0 Samples.thriller_tracks.
Proof.
  pose proof (blank_settings_find_nothing MoreSamples.settings_only_slashes
                (Plex.server Samples.thriller_plex) (Jellyfin.server Samples.thriller_jellyfin)
                "Thriller" "Michael Jackson" Samples.thriller_tracks) as [Hp Hj].
  split.
  - apply Hp. left. exists 2. reflexivity.
  - apply Hj. left. exists 0. reflexivity.
Defined.

(** ** The tracks Spotify returns *)

Lemma collect_spec (results : Spotify.Page) :
  Spotify.collect results
  = if page_fails results then Raised else Ok (all_items results).
Proof.
  revert results. fix IH 1. intros [items [[next|]|]]; simpl; try reflexivity.
  rewrite (IH next). by destruct (page_fails next).
Qed.

(** [get_album_tracks] is all or nothing: when the first request or the
    request for any further page raises, the list is empty, the tracks of
    the pages already received included; otherwise it is the items of
    all pages in order. *)
Theorem spotify_tracks_all_or_nothing (client : Spotify.Client) (album_id : string) :
  Spotify.get_album_tracks client album_id
  = match Spotify.album_tracks client album_id with
    | Raised => []
    | Ok results => if page_fails results then [] else all_items results
    end.
Proof.
  unfold Spotify.get_album_tracks.
  destruct (Spotify.album_tracks client album_id) as [results|]; [|done].
  rewrite collect_spec. by destruct (page_fails results).
Qed.

(** ** The library routes *)

Lemma filter_fmap {X Y} (f : X → Y) (P : Y → Prop) `{∀ y, Decision (P y)}
    (Q : X → Prop) `{∀ x, Decision (Q x)} (l : list X) :
  (∀ x, P (f x) ↔ Q x) → filter P (f <$> l) = f <$> filter Q l.
Proof.
  intros HPQ. induction l as [|x l IH]; [done|]. rewrite fmap_cons.
  destruct (decide (Q x)) as [Hx|Hx].
  - rewrite !filter_cons_True by naive_solver. by rewrite fmap_cons, IH.
  - rewrite !filter_cons_False by naive_solver. done.
Qed.

Lemma sweep_fold status_of store releases : ∀ st,
  foldl (Routes.sweep_step status_of store) st releases
  = {| Routes.sweep_releases :=
         Routes.sweep_releases st ++ (updated status_of store <$> releases);
       Routes.checked_count :=
         Routes.checked_count st
         + length (filter (λ r, status_ok (status_of r) = true) releases);
       Routes.sweep_in_library :=
         Routes.sweep_in_library st
         + length (filter (λ r, status_in_library (status_of r) = true) releases);
       Routes.sweep_errors :=
         Routes.sweep_errors st
         ++ (Routes.error_message
               <$> filter (λ r, status_ok (status_of r) = false) releases) |}.
Proof.
  induction releases as [|r releases IH]; intros st.
  - destruct st. simpl. rewrite !app_nil_r, !Nat.add_0_r. done.
  - simpl foldl. rewrite IH, fmap_cons, !filter_cons.
    unfold Routes.sweep_step, updated at 2.
    destruct (status_of r) as [[spotify_tracks status]|] eqn:E; simpl.
    + destruct (in_library status); simpl;
        rewrite <- !app_assoc; simpl; f_equal; lia.
    + rewrite <- !app_assoc. simpl. f_equal.
Qed.

Lemma sweep_spec status_of store releases :
  Routes.sweep status_of store releases
  = (updated status_of store <$> releases,
     {| Routes.total_releases := length releases;
        Routes.checked :=
          length (filter (λ r, status_ok (status_of r) = true) releases);
        Routes.in_library_count :=
          length (filter (λ r, status_in_library (status_of r) = true) releases);
        Routes.not_in_library :=
          Z.of_nat (length (filter (λ r, status_ok (status_of r) = true) releases))
          - Z.of_nat (length (filter (λ r, status_in_library (status_of r) = true)
                                releases));
        Routes.errors :=
          Routes.error_message
            <$> filter (λ r, status_ok (status_of r) = false) releases |}).
Proof. unfold Routes.sweep. rewrite sweep_fold. reflexivity. Qed.

Lemma filter_count_split {X} (f : X → bool) (l : list X) :
  length (filter (λ x, f x = true) l) + length (filter (λ x, f x = false) l)
  = length l.
Proof.
  induction l as [|x l IH]; [done|]. rewrite !filter_cons.
  destruct (f x) eqn:E; simpl; lia.
Qed.

Lemma filter_count_le {X} (P Q : X → Prop)
    `{∀ x, Decision (P x)} `{∀ x, Decision (Q x)} (l : list X) :
  (∀ x, P x → Q x) → length (filter P l) ≤ length (filter Q l).
Proof.
  intros HPQ. induction l as [|x l IH]; [done|]. rewrite !filter_cons.
  destruct (decide (P x)), (decide (Q x)); simpl; try lia. naive_solver.
Qed.

Lemma plex_status_shape plex spotify r :
  match Routes.release_artist r with
  | None => Routes.plex_status_of plex spotify r = Raised
  | Some artist_name =>
      Routes.plex_status_of plex spotify r
      = Ok (Spotify.get_album_tracks spotify (Routes.release_spotify_id r),
            Plex.check_album_in_library plex (Routes.release_name r) artist_name
              (Spotify.get_album_tracks spotify (Routes.release_spotify_id r)))
  end.
Proof. unfold Routes.plex_status_of. by destruct (Routes.release_artist r). Qed.

Lemma jellyfin_status_shape jellyfin spotify r :
  match Routes.release_artist r with
  | None => Routes.jellyfin_status_of jellyfin spotify r = Raised
  | Some artist_name =>
      Routes.jellyfin_status_of jellyfin spotify r
      = Ok (Spotify.get_album_tracks spotify (Routes.release_spotify_id r),
            Jellyfin.check_album_in_library jellyfin (Routes.release_name r)
              artist_name
              (Spotify.get_album_tracks spotify (Routes.release_spotify_id r)))
  end.
Proof. unfold Routes.jellyfin_status_of. by destruct (Routes.release_artist r). Qed.

Lemma plex_status_raised plex spotify r :
  status_ok (Routes.plex_status_of plex spotify r) = false
  ↔ Routes.release_artist r = None.
Proof.
  pose proof (plex_status_shape plex spotify r) as Hs.
  destruct (Routes.release_artist r); rewrite Hs; simpl; naive_solver.
Qed.

Lemma jellyfin_status_raised jellyfin spotify r :
  status_ok (Routes.jellyfin_status_of jellyfin spotify r) = false
  ↔ Routes.release_artist r = None.
Proof.
  pose proof (jellyfin_status_shape jellyfin spotify r) as Hs.
  destruct (Routes.release_artist r); rewrite Hs; simpl; naive_solver.
Qed.

Lemma summary_of_sweep_consistent flag status_of store releases :
  (∀ r, status_ok (status_of r) = false ↔ Routes.release_artist r = None) →
  (∀ r t s, Routes.release_artist (store r t s) = Routes.release_artist r
            ∧ flag (store r t s) = Some (in_library s)) →
  summary_consistent flag releases (Routes.sweep status_of store releases).
Proof.
  intros Hshape Hstore. rewrite sweep_spec. unfold summary_consistent. simpl.
  pose proof (filter_count_split (λ r, status_ok (status_of r)) releases) as Hsplit.
  simpl in Hsplit.
  assert (length (filter (λ r, status_in_library (status_of r) = true) releases)
          ≤ length (filter (λ r, status_ok (status_of r) = true) releases)) as Hle.
  { apply filter_count_le. intros r. by destruct (status_of r) as [[t s]|]. }
  refine (conj _ (conj eq_refl (conj _ (conj Hle (conj _ (conj _ _)))))).
  - by rewrite length_fmap.
  - rewrite length_fmap. exact Hsplit.
  - lia.
  - f_equal. by apply list_filter_iff.
  - rewrite (filter_fmap (updated status_of store) _
               (λ r, status_in_library (status_of r) = true)).
    { by rewrite length_fmap. }
    intros r. unfold updated, status_in_library.
    pose proof (Hshape r) as Hr.
    destruct (status_of r) as [[t s]|] eqn:E; simpl in Hr.
    + destruct (Hstore r t s) as [-> ->]. split.
      * by intros [_ [= ->]].
      * intros ->. split; [|done]. intros Hn. apply Hr in Hn. done.
    + split; [|done]. intros [Hn _]. exfalso. apply Hn, Hr. done.
Qed.

(** The summary of a sweep adds up, for Plex and for Jellyfin: every
    release is kept and counted, each is either checked or reported as
    an error, the errors are those of the releases without artist, in
    their order, [not_in_library] is the non-negative difference of
    [checked] and [in_library], and [in_library] counts the releases
    with an artist whose flag is true after the sweep. *)
Theorem sweep_summary (plex : Plex.PlexService) (jellyfin : Jellyfin.JellyfinService)
    (spotify : Spotify.Client) (releases : list Routes.Release) :
  summary_consistent Routes.in_plex releases
    (Routes.check_all_plex plex spotify releases)
  ∧ summary_consistent Routes.in_jellyfin releases
      (Routes.check_all_jellyfin jellyfin spotify releases).
Proof.
  split; apply summary_of_sweep_consistent.
  - apply plex_status_raised.
  - done.
  - apply jellyfin_status_raised.
  - done.
Qed.

(** A sweep over one library leaves the columns of the other library
    and the identity of every release as they were. *)
Theorem sweeps_keep_other_columns (plex : Plex.PlexService)
    (jellyfin : Jellyfin.JellyfinService) (spotify : Spotify.Client)
    (releases : list Routes.Release) :
  Forall2 (λ r r', same_identity r r' ∧ same_jellyfin_columns r r')
    releases (Routes.check_all_plex plex spotify releases).1
  ∧ Forall2 (λ r r', same_identity r r' ∧ same_plex_columns r r')
      releases (Routes.check_all_jellyfin jellyfin spotify releases).1.
Proof.
  unfold Routes.check_all_plex, Routes.check_all_jellyfin.
  rewrite !sweep_spec. simpl.
  split; apply Forall2_fmap_r, Forall_Forall2_diag, Forall_forall; intros r _;
    unfold updated; simpl.
  - destruct (Routes.plex_status_of plex spotify r) as [[t s]|];
      unfold same_identity, same_jellyfin_columns; simpl; naive_solver.
  - destruct (Routes.jellyfin_status_of jellyfin spotify r) as [[t s]|];
      unfold same_identity, same_plex_columns; simpl; naive_solver.
Qed.

Lemma updated_plex_after_jellyfin plex jellyfin spotify r :
  Routes.plex_status_of plex spotify
    (updated (Routes.jellyfin_status_of jellyfin spotify) Routes.store_jellyfin r)
  = Routes.plex_status_of plex spotify r
  ∧ Routes.error_message
      (updated (Routes.jellyfin_status_of jellyfin spotify) Routes.store_jellyfin r)
    = Routes.error_message r.
Proof.
  unfold updated.
  by destruct (Routes.jellyfin_status_of jellyfin spotify r) as [[t s]|].
Qed.

Lemma updated_jellyfin_after_plex plex jellyfin spotify r :
  Routes.jellyfin_status_of jellyfin spotify
    (updated (Routes.plex_status_of plex spotify) Routes.store_plex r)
  = Routes.jellyfin_status_of jellyfin spotify r
  ∧ Routes.error_message
      (updated (Routes.plex_status_of plex spotify) Routes.store_plex r)
    = Routes.error_message r.
Proof.
  unfold updated.
  by destruct (Routes.plex_status_of plex spotify r) as [[t s]|].
Qed.

Lemma updated_plex_after_plex plex spotify r :
  Routes.plex_status_of plex spotify
    (updated (Routes.plex_status_of plex spotify) Routes.store_plex r)
  = Routes.plex_status_of plex spotify r
  ∧ Routes.error_message
      (updated (Routes.plex_status_of plex spotify) Routes.store_plex r)
    = Routes.error_message r.
Proof.
  unfold updated.
  destruct (Routes.plex_status_of plex spotify r) as [[t s]|] eqn:E; [|done].
  split; [|done]. exact E.
Qed.

Lemma updated_jellyfin_after_jellyfin jellyfin spotify r :
  Routes.jellyfin_status_of jellyfin spotify
    (updated (Routes.jellyfin_status_of jellyfin spotify) Routes.store_jellyfin r)
  = Routes.jellyfin_status_of jellyfin spotify r
  ∧ Routes.error_message
      (updated (Routes.jellyfin_status_of jellyfin spotify) Routes.store_jellyfin r)
    = Routes.error_message r.
Proof.
  unfold updated.
  destruct (Routes.jellyfin_status_of jellyfin spotify r) as [[t s]|] eqn:E;
    [|done].
  split; [|done]. exact E.
Qed.

Lemma summary_after_fmap status_of store (f : Routes.Release → Routes.Release)
    releases :
  (∀ r, status_of (f r) = status_of r ∧ Routes.error_message (f r) = Routes.error_message r) →
  (Routes.sweep status_of store (f <$> releases)).2
  = (Routes.sweep status_of store releases).2.
Proof.
  intros Hf. rewrite !sweep_spec. simpl.
  rewrite (filter_fmap f _ (λ r, status_ok (status_of r) = true))
    by (intros r; by destruct (Hf r) as [-> _]).
  rewrite (filter_fmap f _ (λ r, status_in_library (status_of r) = true))
    by (intros r; by destruct (Hf r) as [-> _]).
  rewrite (filter_fmap f _ (λ r, status_ok (status_of r) = false))
    by (intros r; by destruct (Hf r) as [-> _]).
  rewrite !length_fmap, <- list_fmap_compose.
  f_equal. apply list_fmap_ext. intros i r _. simpl. by destruct (Hf r) as [_ ->].
Qed.

Lemma updated_commute plex jellyfin spotify r :
  updated (Routes.plex_status_of plex spotify) Routes.store_plex
    (updated (Routes.jellyfin_status_of jellyfin spotify) Routes.store_jellyfin r)
  = updated (Routes.jellyfin_status_of jellyfin spotify) Routes.store_jellyfin
      (updated (Routes.plex_status_of plex spotify) Routes.store_plex r).
Proof.
  set (rj := updated (Routes.jellyfin_status_of jellyfin spotify) _ r).
  set (rp := updated (Routes.plex_status_of plex spotify) _ r).
  unfold updated. subst rj rp.
  destruct (updated_plex_after_jellyfin plex jellyfin spotify r) as [-> _].
  destruct (updated_jellyfin_after_plex plex jellyfin spotify r) as [-> _].
  unfold updated.
  pose proof (plex_status_shape plex spotify r) as Hp.
  pose proof (jellyfin_status_shape jellyfin spotify r) as Hj.
  destruct (Routes.release_artist r); rewrite Hp, Hj; reflexivity.
Qed.

(** The two sweeps commute when Spotify and the two servers answer the
    same: the releases end up the same in either order, and the summary
    of each sweep does not depend on whether the other ran before. *)
Theorem sweeps_commute (plex : Plex.PlexService)
    (jellyfin : Jellyfin.JellyfinService) (spotify : Spotify.Client)
    (releases : list Routes.Release) :
  (Routes.check_all_plex plex spotify
     (Routes.check_all_jellyfin jellyfin spotify releases).1).1
  = (Routes.check_all_jellyfin jellyfin spotify
       (Routes.check_all_plex plex spotify releases).1).1
  ∧ (Routes.check_all_plex plex spotify
       (Routes.check_all_jellyfin jellyfin spotify releases).1).2
    = (Routes.check_all_plex plex spotify releases).2
  ∧ (Routes.check_all_jellyfin jellyfin spotify
       (Routes.check_all_plex plex spotify releases).1).2
    = (Routes.check_all_jellyfin jellyfin spotify releases).2.
Proof.
  unfold Routes.check_all_plex, Routes.check_all_jellyfin.
  refine (conj _ (conj _ _)).
  - rewrite !sweep_spec. simpl. rewrite <- !list_fmap_compose.
    apply list_fmap_ext. intros i r _. apply updated_commute.
  - rewrite (sweep_spec (Routes.jellyfin_status_of jellyfin spotify)). simpl.
    apply summary_after_fmap. intros r. apply updated_plex_after_jellyfin.
  - rewrite (sweep_spec (Routes.plex_status_of plex spotify)). simpl.
    apply summary_after_fmap. intros r. apply updated_jellyfin_after_plex.
Qed.

Lemma sweep_idempotent status_of store releases :
  (∀ r, status_of (updated status_of store r) = status_of r
        ∧ Routes.error_message (updated status_of store r) = Routes.error_message r) →
  (∀ r t s t' s', store (store r t s) t' s' = store r t' s') →
  Routes.sweep status_of store (Routes.sweep status_of store releases).1
  = Routes.sweep status_of store releases.
Proof.
  intros Hu Hstore.
  rewrite (surjective_pairing (Routes.sweep status_of store (Routes.sweep _ _ _).1)).
  rewrite (surjective_pairing (Routes.sweep status_of store releases)) at 3.
  f_equal.
  - rewrite !sweep_spec. simpl. rewrite <- list_fmap_compose.
    apply list_fmap_ext. intros i r _. simpl.
    unfold updated at 1. destruct (Hu r) as [-> _]. unfold updated.
    destruct (status_of r) as [[t s]|]; [apply Hstore|done].
  - rewrite (sweep_spec status_of store releases) at 1. simpl.
    by apply summary_after_fmap.
Qed.

(** A sweep is idempotent as long as Spotify and the server answer the
    same: running it again changes no release and gives the same
    summary. *)
Theorem sweep_twice (plex : Plex.PlexService) (jellyfin : Jellyfin.JellyfinService)
    (spotify : Spotify.Client) (releases : list Routes.Release) :
  Routes.check_all_plex plex spotify
    (Routes.check_all_plex plex spotify releases).1
  = Routes.check_all_plex plex spotify releases
  ∧ Routes.check_all_jellyfin jellyfin spotify
      (Routes.check_all_jellyfin jellyfin spotify releases).1
    = Routes.check_all_jellyfin jellyfin spotify releases.
Proof.
  split; apply sweep_idempotent.
  - intros r. apply updated_plex_after_plex.
  - done.
  - intros r. apply updated_jellyfin_after_jellyfin.
  - done.
Qed.

Lemma split_of_nil available missing :
  split_of [] available missing → available = [] ∧ missing = [].
Proof. by intros (test & -> & ->). Qed.

(** When Spotify yields no track for a release that has an artist,
    which is also what it does on any error, a sweep still checks the
    release: it stores an empty track list and empty lists of available
    and missing tracks, in place of what was stored before. *)
Theorem sweep_without_spotify_tracks (plex : Plex.PlexService)
    (jellyfin : Jellyfin.JellyfinService) (spotify : Spotify.Client)
    (releases : list Routes.Release) (i : nat) (r : Routes.Release) :
  releases !! i = Some r →
  Routes.release_artist r ≠ None →
  Spotify.get_album_tracks spotify (Routes.release_spotify_id r) = [] →
  (∃ r', (Routes.check_all_plex plex spotify releases).1 !! i = Some r'
         ∧ Routes.release_tracks r' = Some []
         ∧ Routes.plex_available_tracks r' = Some []
         ∧ Routes.plex_missing_tracks r' = Some [])
  ∧ (∃ r', (Routes.check_all_jellyfin jellyfin spotify releases).1 !! i = Some r'
           ∧ Routes.release_tracks r' = Some []
           ∧ Routes.release_available_tracks r' = Some []
           ∧ Routes.release_missing_tracks r' = Some []).
Proof.
  intros Hi Ha Hs. unfold Routes.check_all_plex, Routes.check_all_jellyfin.
  rewrite !sweep_spec. simpl. rewrite !list_lookup_fmap, Hi. simpl.
  pose proof (plex_status_shape plex spotify r) as Hp.
  pose proof (jellyfin_status_shape jellyfin spotify r) as Hj.
  destruct (Routes.release_artist r) as [artist_name|]; [|done].
  rewrite Hs in Hp, Hj. unfold updated. rewrite Hp, Hj. split.
  - eexists. split; [done|]. simpl.
    destruct (split_of_nil _ _
                (result_split_plex plex (Routes.release_name r) artist_name [] _
                   eq_refl)) as [-> ->].
    done.
  - eexists. split; [done|]. simpl.
    destruct (split_of_nil _ _
                (result_split_jellyfin jellyfin (Routes.release_name r) artist_name
                   [] _ eq_refl)) as [-> ->].
    done.
Qed.

Lemma sweep_without_spotify_tracks_witness :
  (∃ r', (Routes.check_all_plex Samples.thriller_plex MoreSamples.spotify
            MoreSamples.releases).1 !! 1 = Some r'
         ∧ Routes.release_tracks r' = Some []
         ∧ Routes.plex_available_tracks r' = Some []
         ∧ Routes.plex_missing_tracks r' = Some [])
  ∧ (∃ r', (Routes.check_all_jellyfin Samples.thriller_jellyfin MoreSamples.spotify
              MoreSamples.releases).1 !! 1 = Some r'
           ∧ Routes.release_tracks r' = Some []
           ∧ Routes.release_available_tracks r' = Some []
           ∧ Routes.release_missing_tracks r' = Some []).
Proof.
  apply (sweep_without_spotify_tracks Samples.thriller_plex Samples.thriller_jellyfin
           MoreSamples.spotify MoreSamples.releases 1
           (MoreSamples.release 2 "sp-bad" "Bad" (Some "Michael Jackson"))).
  - reflexivity.
  - discriminate.
  - reflexivity.
Defined.

(** ** The check of one release *)

Lemma find_release_Some id l r :
  Routes.find_release id l = Some r → Routes.release_id r = id ∧ r ∈ l.
Proof.
  induction l as [|x l IH]; simpl; [done|]. case_bool_decide as Hx.
  - intros [= ->]. split; [done|left].
  - intros [? ?]%IH. split; [done|by right].
Qed.

Lemma find_release_None id l :
  Routes.find_release id l = None ↔ ∀ r, r ∈ l → Routes.release_id r ≠ id.
Proof.
  induction l as [|x l IH]; simpl.
  - split; [|done]. intros _ r Hr. by apply elem_of_nil in Hr.
  - case_bool_decide as Hx.
    + split; [done|]. intros Hl. exfalso. apply (Hl x); [left|done].
    + rewrite IH. split.
      * intros Hl r [->|Hr]%elem_of_cons; [done|by apply Hl].
      * intros Hl r Hr. apply Hl. by right.
Qed.

Lemma replace_release_length id u l :
  length (Routes.replace_release id u l) = length l.
Proof.
  induction l as [|x l IH]; simpl; [done|].
  case_bool_decide; simpl; by rewrite ?IH.
Qed.

Lemma replace_release_other id u l : ∀ i r,
  l !! i = Some r → Routes.release_id r ≠ id →
  Routes.replace_release id u l !! i = Some r.
Proof.
  induction l as [|x l IH]; intros i r; [done|]. simpl.
  case_bool_decide as Hx; destruct i as [|i]; simpl.
  - by intros [= ->] ?.
  - done.
  - done.
  - apply IH.
Qed.

Lemma find_replace_release id u l r :
  Routes.find_release id l = Some r → Routes.release_id u = id →
  Routes.find_release id (Routes.replace_release id u l) = Some u.
Proof.
  intros Hf Hu. induction l as [|x l IH]; simpl in *; [done|].
  destruct (bool_decide (Routes.release_id x = id)) eqn:E; simpl.
  - by rewrite bool_decide_eq_true_2.
  - rewrite E. by apply IH.
Qed.

Lemma sqlite_integer_spec n :
  Routes.sqlite_integer n = true ↔ (- 2 ^ 63 ≤ n < 2 ^ 63)%Z.
Proof.
  unfold Routes.sqlite_integer.
  rewrite andb_true_iff, Z.leb_le, Z.ltb_lt. done.
Qed.

Lemma check_one_spec status_of store commit id releases :
  (∀ r t s, Routes.release_id (store r t s) = Routes.release_id r) →
  match Routes.check_one status_of store commit id releases with
  | (releases', answer) =>
      length releases' = length releases
      ∧ (∀ i r, releases !! i = Some r → Routes.release_id r ≠ id →
                releases' !! i = Some r)
      ∧ match answer with
        | Routes.Unhandled =>
            releases' = releases ∧ ¬ (- 2 ^ 63 ≤ id < 2 ^ 63)%Z
        | Routes.HTTPException code =>
            releases' = releases
            ∧ (- 2 ^ 63 ≤ id < 2 ^ 63)%Z
            ∧ ((code = 404 ∧ ∀ r, r ∈ releases → Routes.release_id r ≠ id)
               ∨ (code = 500
                  ∧ ∃ r, Routes.find_release id releases = Some r
                         ∧ (status_of r = Raised ∨ commit = Raised)))
        | Routes.Response resp =>
            (- 2 ^ 63 ≤ id < 2 ^ 63)%Z
            ∧ commit = Ok ()
            ∧ ∃ r t s,
                Routes.find_release id releases = Some r
                ∧ status_of r = Ok (t, s)
                ∧ Routes.find_release id releases' = Some (store r t s)
                ∧ resp = {| Routes.response_release_id := id;
                            Routes.response_in_library := in_library s;
                            Routes.response_match_type := match_type s;
                            Routes.response_match_confidence := match_confidence s;
                            Routes.response_available_tracks := available_tracks s;
                            Routes.response_missing_tracks := missing_tracks s |}
        end
  end.
Proof.
  intros Hid. unfold Routes.check_one.
  destruct (Routes.sqlite_integer id) eqn:Hrange; simpl.
  2:{ split; [done|]. split; [done|]. split; [done|].
      rewrite <- sqlite_integer_spec, Hrange. done. }
  apply sqlite_integer_spec in Hrange.
  destruct (Routes.find_release id releases) as [r|] eqn:Hf.
  - destruct (status_of r) as [[t s]|] eqn:Hs.
    + destruct commit as [[]|].
      * destruct (find_release_Some _ _ _ Hf) as [Hr _].
        split; [apply replace_release_length|].
        split; [intros i x; apply replace_release_other|].
        split; [done|]. split; [done|].
        exists r, t, s. split; [done|]. split; [done|]. split.
        -- apply (find_replace_release _ _ _ r); [done|]. by rewrite Hid.
        -- by rewrite Hr.
      * split; [done|]. split; [done|]. split; [done|]. split; [done|].
        right. split; [done|]. exists r. split; [done|]. by right.
    + split; [done|]. split; [done|]. split; [done|]. split; [done|].
      right. split; [done|]. exists r. split; [done|]. by left.
  - split; [done|]. split; [done|]. split; [done|]. split; [done|].
    left. split; [done|]. by apply find_release_None.
Qed.

Lemma check_one_raises status_of store commit id releases r :
  (- 2 ^ 63 ≤ id < 2 ^ 63)%Z →
  Routes.find_release id releases = Some r →
  status_of r = Raised ∨ commit = Raised →
  Routes.check_one status_of store commit id releases
  = (releases, Routes.HTTPException 500).
Proof.
  intros Hrange%sqlite_integer_spec Hf Hraise. unfold Routes.check_one.
  rewrite Hrange, Hf. simpl.
  destruct (status_of r) as [[t s]|]; [|done].
  destruct Hraise as [?| ->]; done.
Qed.

(** [check_plex_library], with the SQLite database of the
    configuration.  The exception of the query leaves the handler
    exactly when the id is outside the signed 64-bit range.  The
    answer 404 is given only when no release has the id, the answer 500
    only when one has, and a release without artist or a commit that
    raises gives 500; none of these answers changes a release.  A
    response means that the commit succeeded; it carries the id and
    what was stored in the Plex columns of that release, whose identity
    and Jellyfin columns are unchanged.  The releases with another id
    are never changed. *)
Theorem check_plex_library_answer (plex : Plex.PlexService)
    (spotify : Spotify.Client) (commit : response unit) (id : Z)
    (releases : list Routes.Release) :
  match Routes.check_plex_library plex spotify commit id releases with
  | (releases', answer) =>
      length releases' = length releases
      ∧ (∀ i r, releases !! i = Some r → Routes.release_id r ≠ id →
                releases' !! i = Some r)
      ∧ (∀ r, (- 2 ^ 63 ≤ id < 2 ^ 63)%Z →
              Routes.find_release id releases = Some r →
              Routes.release_artist r = None ∨ commit = Raised →
              answer = Routes.HTTPException 500)
      ∧ match answer with
        | Routes.Unhandled =>
            releases' = releases ∧ ¬ (- 2 ^ 63 ≤ id < 2 ^ 63)%Z
        | Routes.HTTPException code =>
            releases' = releases
            ∧ (- 2 ^ 63 ≤ id < 2 ^ 63)%Z
            ∧ ((code = 404 ∧ ∀ r, r ∈ releases → Routes.release_id r ≠ id)
               ∨ (code = 500 ∧ ∃ r, Routes.find_release id releases = Some r))
        | Routes.Response resp =>
            (- 2 ^ 63 ≤ id < 2 ^ 63)%Z
            ∧ commit = Ok ()
            ∧ Routes.response_release_id resp = id
            ∧ ∃ r r',
                Routes.find_release id releases = Some r
                ∧ Routes.find_release id releases' = Some r'
                ∧ same_identity r r' ∧ same_jellyfin_columns r r'
                ∧ Routes.in_plex r' = Some (Routes.response_in_library resp)
                ∧ Routes.plex_match_type r' = Some (Routes.response_match_type resp)
                ∧ Routes.plex_match_confidence r'
                  = Some (Routes.response_match_confidence resp)
                ∧ Routes.plex_available_tracks r'
                  = Some (Routes.response_available_tracks resp)
                ∧ Routes.plex_missing_tracks r'
                  = Some (Routes.response_missing_tracks resp)
        end
  end.
Proof.
  unfold Routes.check_plex_library.
  pose proof (check_one_spec (Routes.plex_status_of plex spotify) Routes.store_plex
                commit id releases (λ _ _ _, eq_refl)) as Hspec.
  pose proof (check_one_raises (Routes.plex_status_of plex spotify) Routes.store_plex
                commit id releases) as Hraise.
  destruct (Routes.check_one _ _ commit id releases) as [releases' answer].
  destruct Hspec as (Hlen & Hother & Hans).
  split; [done|]. split; [done|]. split.
  { intros r Hrange Hf Hr. specialize (Hraise r Hrange Hf).
    assert (Routes.plex_status_of plex spotify r = Raised ∨ commit = Raised) as H'.
    { destruct Hr as [Hr|Hr]; [left|by right].
      pose proof (plex_status_shape plex spotify r) as Hs. by rewrite Hr in Hs. }
    specialize (Hraise H'). by injection Hraise as _ <-. }
  destruct answer as [resp|code|].
  - destruct Hans as (Hrange & Hc & r & t & s & Hf & Hs & Hf' & ->).
    split; [done|]. split; [done|]. split; [done|].
    exists r, (Routes.store_plex r t s).
    unfold same_identity, same_jellyfin_columns. simpl. naive_solver.
  - destruct Hans as (-> & Hrange & [H404|(-> & r & Hf & _)]).
    + split; [done|]. split; [done|]. by left.
    + split; [done|]. split; [done|]. right. split; [done|]. by exists r.
  - done.
Qed.

Lemma check_plex_library_answer_witness :
  (Routes.check_plex_library Samples.thriller_plex MoreSamples.spotify
     (Ok ()) 3 MoreSamples.releases).2
  = Routes.HTTPException 500.
Proof.
  pose proof (check_plex_library_answer Samples.thriller_plex MoreSamples.spotify
                (Ok ()) 3 MoreSamples.releases) as Hanswer.
  destruct (Routes.check_plex_library _ _ _ 3 _) as [releases' answer].
  destruct Hanswer as (_ & _ & H500 & _). simpl.
  apply (H500 (MoreSamples.release 3 "sp-orphan" "Orphan" None)).
  - lia.
  - reflexivity.
  - left. reflexivity.
Defined.

(** [check_jellyfin_library], with the SQLite database of the
    configuration.  The exception of the query leaves the handler
    exactly when the id is outside the signed 64-bit range.  The
    answer 404 is given only when no release has the id, the answer 500
    only when one has, and a release without artist or a commit that
    raises gives 500; none of these answers changes a release.  A
    response means that the commit succeeded; it carries the id and
    what was stored in the Jellyfin columns of that release, whose
    identity and Plex columns are unchanged.  The releases with another
    id are never changed. *)
Theorem check_jellyfin_library_answer (jellyfin : Jellyfin.JellyfinService)
    (spotify : Spotify.Client) (commit : response unit) (id : Z)
    (releases : list Routes.Release) :
  match Routes.check_jellyfin_library jellyfin spotify commit id releases with
  | (releases', answer) =>
      length releases' = length releases
      ∧ (∀ i r, releases !! i = Some r → Routes.release_id r ≠ id →
                releases' !! i = Some r)
      ∧ (∀ r, (- 2 ^ 63 ≤ id < 2 ^ 63)%Z →
              Routes.find_release id releases = Some r →
              Routes.release_artist r = None ∨ commit = Raised →
              answer = Routes.HTTPException 500)
      ∧ match answer with
        | Routes.Unhandled =>
            releases' = releases ∧ ¬ (- 2 ^ 63 ≤ id < 2 ^ 63)%Z
        | Routes.HTTPException code =>
            releases' = releases
            ∧ (- 2 ^ 63 ≤ id < 2 ^ 63)%Z
            ∧ ((code = 404 ∧ ∀ r, r ∈ releases → Routes.release_id r ≠ id)
               ∨ (code = 500 ∧ ∃ r, Routes.find_release id releases = Some r))
        | Routes.Response resp =>
            (- 2 ^ 63 ≤ id < 2 ^ 63)%Z
            ∧ commit = Ok ()
            ∧ Routes.response_release_id resp = id
            ∧ ∃ r r',
                Routes.find_release id releases = Some r
                ∧ Routes.find_release id releases' = Some r'
                ∧ same_identity r r' ∧ same_plex_columns r r'
                ∧ Routes.in_jellyfin r' = Some (Routes.response_in_library resp)
                ∧ Routes.jellyfin_match_type r'
                  = Some (Routes.response_match_type resp)
                ∧ Routes.jellyfin_match_confidence r'
                  = Some (Routes.response_match_confidence resp)
                ∧ Routes.release_available_tracks r'
                  = Some (Routes.response_available_tracks resp)
                ∧ Routes.release_missing_tracks r'
                  = Some (Routes.response_missing_tracks resp)
        end
  end.
Proof.
  unfold Routes.check_jellyfin_library.
  pose proof (check_one_spec (Routes.jellyfin_status_of jellyfin spotify)
                Routes.store_jellyfin commit id releases (λ _ _ _, eq_refl))
    as Hspec.
  pose proof (check_one_raises (Routes.jellyfin_status_of jellyfin spotify)
                Routes.store_jellyfin commit id releases) as Hraise.
  destruct (Routes.check_one _ _ commit id releases) as [releases' answer].
  destruct Hspec as (Hlen & Hother & Hans).
  split; [done|]. split; [done|]. split.
  { intros r Hrange Hf Hr. specialize (Hraise r Hrange Hf).
    assert (Routes.jellyfin_status_of jellyfin spotify r = Raised ∨ commit = Raised)
      as H'.
    { destruct Hr as [Hr|Hr]; [left|by right].
      pose proof (jellyfin_status_shape jellyfin spotify r) as Hs.
      by rewrite Hr in Hs. }
    specialize (Hraise H'). by injection Hraise as _ <-. }
  destruct answer as [resp|code|].
  - destruct Hans as (Hrange & Hc & r & t & s & Hf & Hs & Hf' & ->).
    split; [done|]. split; [done|]. split; [done|].
    exists r, (Routes.store_jellyfin r t s).
    unfold same_identity, same_plex_columns. simpl. naive_solver.
  - destruct Hans as (-> & Hrange & [H404|(-> & r & Hf & _)]).
    + split; [done|]. split; [done|]. by left.
    + split; [done|]. split; [done|]. right. split; [done|]. by exists r.
  - done.
Qed.

Lemma check_jellyfin_library_answer_witness :
  (Routes.check_jellyfin_library Samples.thriller_jellyfin MoreSamples.spotify
     Raised 1 MoreSamples.releases).2
  = Routes.HTTPException 500.
Proof.
  pose proof (check_jellyfin_library_answer Samples.thriller_jellyfin
                MoreSamples.spotify Raised 1 MoreSamples.releases) as Hanswer.
  destruct (Routes.check_jellyfin_library _ _ _ 1 _) as [releases' answer].
  destruct Hanswer as (_ & _ & H500 & _). simpl.
  apply (H500 (MoreSamples.release 1 "sp-thriller" "Thriller"
                 (Some "Michael Jackson"))).
  - lia.
  - reflexivity.
  - right. reflexivity.
Defined.

(** The four answers of [check_plex_library] on the sample releases:
    a response for release 1, the status 500 for release 3 (no artist)
    and for release 1 when the commit raises, the status 404 for an
    unknown id, and an exception that leaves the handler for the id
    2^63. *)
Example check_plex_library_answers :
  (∃ resp, (Routes.check_plex_library Samples.thriller_plex MoreSamples.spotify
              (Ok ()) 1 MoreSamples.releases).2 = Routes.Response resp
           ∧ Routes.response_in_library resp = true
           ∧ Routes.response_missing_tracks resp = [ "Thriller" ])
  ∧ Routes.check_plex_library Samples.thriller_plex MoreSamples.spotify
      (Ok ()) 3 MoreSamples.releases
    = (MoreSamples.releases, Routes.HTTPException 500)
  ∧ Routes.check_plex_library Samples.thriller_plex MoreSamples.spotify
      Raised 1 MoreSamples.releases
    = (MoreSamples.releases, Routes.HTTPException 500)
  ∧ Routes.check_plex_library Samples.thriller_plex MoreSamples.spotify
      (Ok ()) 7 MoreSamples.releases
    = (MoreSamples.releases, Routes.HTTPException 404)
  ∧ Routes.check_plex_library Samples.thriller_plex MoreSamples.spotify
      (Ok ()) (2 ^ 63) MoreSamples.releases
    = (MoreSamples.releases, Routes.Unhandled).
Proof.
  split; [|by vm_compute].
  eexists. split; [vm_compute; reflexivity|]. by vm_compute.
Qed.

(** ** The albums of an artist in Plex *)

(** For a configured service whose album listing succeeds,
    [get_artist_albums] keeps, in the order of the listing, exactly the
    albums whose artist has a similarity ratio of at least 0.85 with the
    name: the test for equality up to case selects nothing more. *)
Theorem artist_albums_by_ratio (self : Plex.PlexService)
    (library_key artist_name : string) (all_albums : list Plex.Album) :
  Plex.unconfigured self = false →
  Plex.section_albums (Plex.server self) library_key = Ok all_albums →
  Plex.get_artist_albums self library_key artist_name
  = filter (λ album,
              Qge_bool (_similarity_ratio (Plex.album_parentTitle album) artist_name)
                0.85 = true)
      all_albums.
Proof.
  intros Hc Ha. unfold Plex.get_artist_albums. rewrite Hc, Ha.
  apply list_filter_iff. intros album. simpl. rewrite similarity_lower_l.
  split; [|by right]. intros [Heq|Hge]; [|done].
  apply Qge_bool_iff.
  assert (_similarity_ratio (Plex.album_parentTitle album) artist_name == 1)%Q
    as ->; [|done].
  by apply similarity_one.
Qed.

Lemma artist_albums_by_ratio_witness :
  Plex.get_artist_albums Samples.thriller_plex "2" "MICHAEL JACKSON"
  = filter (λ album,
              Qge_bool (_similarity_ratio (Plex.album_parentTitle album)
                          "MICHAEL JACKSON") 0.85 = true)
      [ Samples.plex_album "Thriller 25" "/library/metadata/9/children";
        Samples.plex_album "Thriller" "/library/metadata/10/children" ].
Proof.
  apply (artist_albums_by_ratio Samples.thriller_plex "2" "MICHAEL JACKSON").
  - reflexivity.
  - reflexivity.
Defined.

(** ** The case of the names *)

Lemma plex_check_library_lower self album_name album_name' artist_name artist_name'
    tracks library :
  lower album_name = lower album_name' →
  lower artist_name = lower artist_name' →
  Plex.check_library self album_name artist_name tracks library
  = Plex.check_library self album_name' artist_name' tracks library.
Proof.
  intros Hal Har.
  unfold Plex.check_library, Plex.search_artist_in_library, Plex.get_artist_albums,
    Plex.match_album, similarity_scan, similarity_step, _similarity_ratio.
  rewrite Hal, Har. reflexivity.
Qed.

Lemma plex_search_libraries_lower self album_name album_name' artist_name
    artist_name' tracks libraries :
  lower album_name = lower album_name' →
  lower artist_name = lower artist_name' →
  Plex.search_libraries self album_name artist_name tracks libraries
  = Plex.search_libraries self album_name' artist_name' tracks libraries.
Proof.
  intros Hal Har. induction libraries as [|l ls IH]; simpl; [done|].
  by rewrite (plex_check_library_lower _ _ _ _ _ _ _ Hal Har), IH.
Qed.

(** The answer of Plex depends on the album name and on the artist name
    only up to the case of their letters, and so does the answer of
    Jellyfin on the album name (the artist name goes to the server as
    it is). *)
Theorem names_compared_without_case (plex : Plex.PlexService)
    (jellyfin : Jellyfin.JellyfinService)
    (album_name album_name' artist_name artist_name' : string)
    (tracks : list SpotifyTrack) :
  lower album_name = lower album_name' →
  lower artist_name = lower artist_name' →
  Plex.check_album_in_library plex album_name artist_name tracks
  = Plex.check_album_in_library plex album_name' artist_name' tracks
  ∧ Jellyfin.check_album_in_library jellyfin album_name artist_name tracks
    = Jellyfin.check_album_in_library jellyfin album_name' artist_name tracks.
Proof.
  intros Hal Har. split.
  - unfold Plex.check_album_in_library.
    destruct (Plex.get_music_libraries plex) as [|l ls]; [done|].
    by rewrite (plex_search_libraries_lower _ _ _ _ _ _ (l :: ls) Hal Har).
  - unfold Jellyfin.check_album_in_library, Jellyfin.match_album,
      similarity_scan, similarity_step, _similarity_ratio.
    rewrite Hal. reflexivity.
Qed.

Lemma names_compared_without_case_witness :
  Plex.check_album_in_library Samples.thriller_plex
    "THRILLER" "michael jackson" Samples.thriller_tracks
  = Plex.check_album_in_library Samples.thriller_plex
      "thriller" "Michael JACKSON" Samples.thriller_tracks
  ∧ Jellyfin.check_album_in_library Samples.thriller_jellyfin
      "THRILLER" "michael jackson" Samples.thriller_tracks
    = Jellyfin.check_album_in_library Samples.thriller_jellyfin
        "thriller" "michael jackson" Samples.thriller_tracks.
Proof.
  apply (names_compared_without_case Samples.thriller_plex Samples.thriller_jellyfin
           "THRILLER" "thriller" "michael jackson" "Michael JACKSON"
           Samples.thriller_tracks).
  - reflexivity.
  - reflexivity.
Defined.
